(** * Kronfluence factor trackers: covariance and Lambda accumulation

    A shallow embedding of [kronfluence/module/tracker/factor.py]
    ([CovarianceTracker] and [LambdaTracker]).

    - Floating-point tensors are modelled over exact arithmetic: entries live
      in an arbitrary commutative semiring ([Scalar]); a tensor keeps its
      [dtype] tag, so that a cast changes the tag and not the entries.
    - Device placement is not modelled: [.cuda()] and the [device] argument
      of [.to()] are the identity on the modelled data.
    - The processed counts are [int64] tensors: integers with the wrap-around
      of 64-bit two's complement written out.
    - The module's [storage] is a Python dict from factor names to
      tensor-or-None: a [gmap string (option Value)]; a lookup of a missing
      key raises [KeyError].
    - Python mutates in place and an exception does not roll a mutation back:
      every operation is a function from the tracker state to an outcome
      (a value or a raised exception) together with the state reached.
    - The collaborators outside the trackers (the flattening and per-sample
      gradient capabilities of the module, the strategy registry, the
      process group) are parameters: total functions gathered in
      [TrackedModule] and [Env]. *)

From Stdlib Require Import ZArith Ring.
From stdpp Require Import base option list gmap strings fin_maps.

(** ** Scalars: exact arithmetic *)

Class Scalar (R : Type) := {
  s0 : R;
  s1 : R;
  sadd : R → R → R;
  smul : R → R → R;
  scalar_sring : semi_ring_theory s0 s1 sadd smul (@eq R)
}.

Lemma Z_semi_ring : semi_ring_theory 0%Z 1%Z Z.add Z.mul (@eq Z).
Proof. constructor; intros; ring. Qed.

#[export] Instance Z_scalar : Scalar Z :=
  {| s0 := 0%Z; s1 := 1%Z; sadd := Z.add; smul := Z.mul;
     scalar_sring := Z_semi_ring |}.

(** ** 64-bit counts *)

Definition int64_min : Z := (- 2 ^ 63)%Z.
Definition int64_max : Z := (2 ^ 63 - 1)%Z.

Definition in_int64 (z : Z) : bool :=
  ((int64_min <=? z) && (z <=? int64_max))%Z.

Definition wrap_int64 (z : Z) : Z := ((z + 2 ^ 63) mod 2 ^ 64 - 2 ^ 63)%Z.

(** ** Exceptions and outcomes

    The Python exceptions the trackers can raise.  [CacheNotFound] is the
    error of [_raise_cache_not_found_exception]; [RuntimeError] is what
    PyTorch raises on a shape or dtype mismatch and on an int64 overflow of
    an operand.  [OutOfModel] is no Python exception: it marks a storage
    entry of the wrong kind (a count where a matrix is expected, or the
    reverse), which the data model excludes. *)

Inductive Exn :=
| FactorsNotFoundError (msg : string)
| KeyError (key : string)
| AttributeError
| TypeError
| IndexError
| RuntimeError
| CacheNotFound
| OutOfModel.

Inductive Outcome (A : Type) :=
| Ok (a : A)
| Raise (e : Exn).
Arguments Ok {A} a.
Arguments Raise {A} e.

(** ** Tensors *)

Inductive Dtype := float16 | bfloat16 | float32 | float64.

#[export] Instance Dtype_eq_dec : EqDecision Dtype.
Proof. solve_decision. Defined.

Record Tensor (D : Type) := mkTensor { dtype : Dtype; data : D }.
Arguments mkTensor {D} dtype data.
Arguments dtype {D} t.
Arguments data {D} t.

(** [t.to(dtype=dt)]: the tensor takes the dtype [dt].  The rounding of the
    entries to [dt] is outside the exact arithmetic of the model, so that no
    statement about the program may rest on the entries of a cast tensor
    being those of the original. *)
Definition to_dtype {D} (dt : Dtype) (t : Tensor D) : Tensor D :=
  mkTensor dt (data t).

(** NumPy-style broadcasting of one dimension to length [n]. *)
Definition broadcast {A} (n : nat) (l : list A) : option (list A) :=
  if decide (length l = n) then Some l
  else match l with
       | [x] => Some (replicate n x)
       | _ => None
       end.

Section Tensors.
Context {R : Type} `{Scalar R}.

(** *** Rows and nested lists of scalars *)

Definition vadd (u v : list R) : list R := zip_with sadd u v.
Definition madd (a b : list (list R)) : list (list R) := zip_with vadd a b.
Definition badd (a b : list (list (list R))) : list (list (list R)) :=
  zip_with madd a b.

Definition vzeros (c : nat) : list R := replicate c s0.
Definition mzeros (r c : nat) : list (list R) := replicate r (vzeros c).

Definition vsquare (u : list R) : list R := (λ x, smul x x) <$> u.
Definition msquare (a : list (list R)) : list (list R) := vsquare <$> a.

Definition dot (u v : list R) : R := foldr sadd s0 (zip_with smul u v).

(** The columns of a matrix with [c] columns, as rows. *)
Definition transpose (c : nat) (a : list (list R)) : list (list R) :=
  foldr (zip_with cons) (replicate c []) a.

(** The product of [a] with [b], where [b] has [cb] columns. *)
Definition mm (a b : list (list R)) (cb : nat) : list (list R) :=
  (λ u, dot u <$> transpose cb b) <$> a.

(** *** 2-D and 3-D tensor data with their shapes *)

Record Matrix := mkMatrix { ncols : nat; mrows : list (list R) }.
Record Batch := mkBatch { brows : nat; bcols : nat;
                         samples : list (list (list R)) }.

Definition nrows (m : Matrix) : nat := length (mrows m).
Definition batch_size (b : Batch) : nat := length (samples b).

Definition rows_wf (c : nat) (a : list (list R)) : Prop :=
  Forall (λ u, length u = c) a.
Definition matrix_wf (m : Matrix) : Prop := rows_wf (ncols m) (mrows m).
Definition has_shape (r c : nat) (m : Matrix) : Prop :=
  nrows m = r ∧ ncols m = c ∧ matrix_wf m.
Definition batch_wf (b : Batch) : Prop :=
  Forall (λ s, length s = brows b ∧ rows_wf (bcols b) s) (samples b).
Definition batch_has_shape (r c : nat) (b : Batch) : Prop :=
  brows b = r ∧ bcols b = c ∧ batch_wf b.

(** [torch.zeros(size=(r, c), dtype=dt)] *)
Definition zeros (r c : nat) (dt : Dtype) : Tensor Matrix :=
  mkTensor dt (mkMatrix c (mzeros r c)).

(** [torch.zeros_like(t)] for a 3-D tensor *)
Definition zeros_like (t : Tensor Batch) : Tensor Batch :=
  mkTensor (dtype t)
    (mkBatch (brows (data t)) (bcols (data t))
       (replicate (batch_size (data t))
          (mzeros (brows (data t)) (bcols (data t))))).

(** [a.t()] *)
Definition t_ (a : Tensor Matrix) : Tensor Matrix :=
  mkTensor (dtype a)
    (mkMatrix (nrows (data a)) (transpose (ncols (data a)) (mrows (data a)))).

(** [torch.matmul(a, b)] on two matrices: the operands must agree on dtype
    and on the inner dimension. *)
Definition matmul (a b : Tensor Matrix) : Outcome (Tensor Matrix) :=
  if decide (dtype a = dtype b ∧ ncols (data a) = nrows (data b)) then
    Ok (mkTensor (dtype a)
          (mkMatrix (ncols (data b))
             (mm (mrows (data a)) (mrows (data b)) (ncols (data b)))))
  else Raise RuntimeError.

(** [torch.matmul(p, b)] with [p] of shape (batch, r, c) and [b] a matrix:
    every sample is multiplied by [b] on the right. *)
Definition matmul_batch_r (p : Tensor Batch) (b : Tensor Matrix)
  : Outcome (Tensor Batch) :=
  if decide (dtype p = dtype b ∧ bcols (data p) = nrows (data b)) then
    Ok (mkTensor (dtype p)
          (mkBatch (brows (data p)) (ncols (data b))
             ((λ s, mm s (mrows (data b)) (ncols (data b)))
                <$> samples (data p))))
  else Raise RuntimeError.

(** [torch.matmul(a, p)] with [a] a matrix and [p] of shape (batch, r, c):
    [a] is broadcast over the batch. *)
Definition matmul_batch_l (a : Tensor Matrix) (p : Tensor Batch)
  : Outcome (Tensor Batch) :=
  if decide (dtype a = dtype p ∧ ncols (data a) = brows (data p)) then
    Ok (mkTensor (dtype a)
          (mkBatch (nrows (data a)) (bcols (data p))
             ((λ s, mm (mrows (data a)) s (bcols (data p)))
                <$> samples (data p))))
  else Raise RuntimeError.

(** [p[i]] *)
Definition index (p : Tensor Batch) (i : nat) : Outcome (Tensor Matrix) :=
  match samples (data p) !! i with
  | Some s => Ok (mkTensor (dtype p) (mkMatrix (bcols (data p)) s))
  | None => Raise IndexError
  end.

(** [a.square_()] *)
Definition square_ (a : Tensor Matrix) : Tensor Matrix :=
  mkTensor (dtype a) (mkMatrix (ncols (data a)) (msquare (mrows (data a)))).

Definition square_batch_ (p : Tensor Batch) : Tensor Batch :=
  mkTensor (dtype p)
    (mkBatch (brows (data p)) (bcols (data p))
       (msquare <$> samples (data p))).

(** [p.sum(dim=0)] *)
Definition sum_dim0 (p : Tensor Batch) : Tensor Matrix :=
  mkTensor (dtype p)
    (mkMatrix (bcols (data p))
       (foldr madd (mzeros (brows (data p)) (bcols (data p)))
          (samples (data p)))).

(** Broadcasting of a matrix to shape (r, c), and of a batch to (b, r, c). *)
Definition broadcast_matrix (r c : nat) (a : list (list R))
  : option (list (list R)) :=
  mapM (broadcast c) a ≫= broadcast r.

Definition broadcast_batch (b r c : nat) (p : list (list (list R)))
  : option (list (list (list R))) :=
  mapM (broadcast_matrix r c) p ≫= broadcast b.

(** [self.add_(other)] on matrices: [other] is broadcast to the shape of
    [self], which keeps its dtype. *)
Definition add_ (self other : Tensor Matrix) : Outcome (Tensor Matrix) :=
  match broadcast_matrix (nrows (data self)) (ncols (data self))
          (mrows (data other)) with
  | Some o =>
      Ok (mkTensor (dtype self)
            (mkMatrix (ncols (data self)) (madd (mrows (data self)) o)))
  | None => Raise RuntimeError
  end.

Definition add_batch_ (self other : Tensor Batch) : Outcome (Tensor Batch) :=
  match broadcast_batch (batch_size (data self)) (brows (data self))
          (bcols (data self)) (samples (data other)) with
  | Some o =>
      Ok (mkTensor (dtype self)
            (mkBatch (brows (data self)) (bcols (data self))
               (badd (samples (data self)) o)))
  | None => Raise RuntimeError
  end.

(** [self.addmm_(m1, m2)]: [self += m1 @ m2]; the three tensors agree on
    dtype and [self] already has the shape of the product. *)
Definition addmm_ (self m1 m2 : Tensor Matrix) : Outcome (Tensor Matrix) :=
  if decide (dtype self = dtype m1 ∧ dtype m1 = dtype m2
             ∧ ncols (data m1) = nrows (data m2)
             ∧ nrows (data self) = nrows (data m1)
             ∧ ncols (data self) = ncols (data m2)) then
    Ok (mkTensor (dtype self)
          (mkMatrix (ncols (data self))
             (madd (mrows (data self))
                (mm (mrows (data m1)) (mrows (data m2)) (ncols (data m2))))))
  else Raise RuntimeError.

(** [n.add_(c)] on an int64 count: a Python int outside the int64 range is
    refused, the sum wraps. *)
Definition count_add_ (n c : Z) : Outcome Z :=
  if in_int64 c then Ok (wrap_int64 (n + c)) else Raise RuntimeError.

End Tensors.

Arguments Matrix R : clear implicits.
Arguments Batch R : clear implicits.

(** ** Factor names

    [kronfluence/utils/constants.py] is not among the sources. *)

(** Modelled from the spec: the name of the activation-covariance matrix. *)
Definition ACTIVATION_COVARIANCE_MATRIX_NAME : string := "activation_covariance".
(** Modelled from the spec: the name of the gradient-covariance matrix. *)
Definition GRADIENT_COVARIANCE_MATRIX_NAME : string := "gradient_covariance".
(** Modelled from the spec: the name of the activation count. *)
Definition NUM_ACTIVATION_COVARIANCE_PROCESSED : string :=
  "num_activation_covariance_processed".
(** Modelled from the spec: the name of the gradient count. *)
Definition NUM_GRADIENT_COVARIANCE_PROCESSED : string :=
  "num_gradient_covariance_processed".
(** Modelled from the spec: the name of the activation eigenvectors. *)
Definition ACTIVATION_EIGENVECTORS_NAME : string := "activation_eigenvectors".
(** Modelled from the spec: the name of the gradient eigenvectors. *)
Definition GRADIENT_EIGENVECTORS_NAME : string := "gradient_eigenvectors".
(** Modelled from the spec: the name of the Lambda matrix. *)
Definition LAMBDA_MATRIX_NAME : string := "lambda_matrix".
(** Modelled from the spec: the name of the Lambda count. *)
Definition NUM_LAMBDA_PROCESSED : string := "num_lambda_processed".

(** Modelled from the spec: the covariance group, "both covariance matrices
    and their counts". *)
Definition COVARIANCE_FACTOR_NAMES : list string :=
  [ACTIVATION_COVARIANCE_MATRIX_NAME; GRADIENT_COVARIANCE_MATRIX_NAME;
   NUM_ACTIVATION_COVARIANCE_PROCESSED; NUM_GRADIENT_COVARIANCE_PROCESSED].
(** Modelled from the spec: the eigendecomposition group, "both eigenvector
    sets". *)
Definition EIGENDECOMPOSITION_FACTOR_NAMES : list string :=
  [ACTIVATION_EIGENVECTORS_NAME; GRADIENT_EIGENVECTORS_NAME].
(** Modelled from the spec: the Lambda group, "the Lambda matrix and its
    count". *)
Definition LAMBDA_FACTOR_NAMES : list string :=
  [LAMBDA_MATRIX_NAME; NUM_LAMBDA_PROCESSED].

(** ** Configuration *)

Record FactorArguments := mkFactorArguments {
  strategy : string;
  use_iterative_lambda_aggregation : bool;
  has_shared_parameters : bool;
  offload_activations_to_cpu : bool;
  activation_covariance_dtype : Dtype;
  gradient_covariance_dtype : Dtype;
  per_sample_gradient_dtype : Dtype;
  lambda_dtype : Dtype
}.

(** The backward hook that a forward hook registers on the module's output. *)
Inductive Hook := backward_hook_id | shared_backward_hook_id.

Section Trackers.
Context {R : Type} `{Scalar R}.
(** The data of a tensor of any rank, as the host model passes it to a
    hook: opaque to the trackers. *)
Context {Raw : Type}.

(** What a storage entry holds: an int64 count of shape (1,) or a matrix. *)
Inductive Value :=
| VCount (n : Z)
| VTensor (t : Tensor (Matrix R)).

(** [self.cached_activations] when it is not None: one tensor without
    parameter sharing, a list of tensors with it. *)
Inductive Cache :=
| OneActivation (a : Tensor Raw)
| Activations (l : list (Tensor Raw)).

(** The mutable state: the module's storage and the tracker's caches;
    [collective_log] records the tensors handed to [dist.reduce]. *)
Record Tracker := mkTracker {
  storage : gmap string (option Value);
  cached_activations : option Cache;
  cached_per_sample_gradient : option (Tensor (Batch R));
  collective_log : list Value
}.

(** The capabilities of the wrapped module ([self.module]), external to
    the trackers. *)
Record TrackedModule := mkTrackedModule {
  factor_args : FactorArguments;
  get_flattened_activation : Tensor Raw → Tensor (Matrix R) * Z;
  get_flattened_gradient : Tensor Raw → Tensor (Matrix R) * Z;
  compute_per_sample_gradient :
    Tensor Raw → Tensor Raw → Tensor (Batch R);
  (** multiplication of a gradient's data by [self.module.gradient_scale] *)
  rescale : Raw → Raw
}.

(** The process environment: the strategy registry [FactorConfig.CONFIGS],
    [dist.is_initialized()], [torch.cuda.is_available()], and what the
    local tensor holds once [dist.reduce(op=SUM, dst=0)] returns. *)
Record Env := mkEnv {
  requires_eigendecomposition_for_lambda : string → bool;
  dist_is_initialized : bool;
  cuda_is_available : bool;
  reduce_sum : Value → Value
}.

Context (module : TrackedModule) (env : Env).

(** *** The state-and-exception monad *)

Definition M (A : Type) : Type := Tracker → Outcome A * Tracker.

Definition ret {A} (a : A) : M A := λ st, (Ok a, st).
Definition bind {A B} (m : M A) (f : A → M B) : M B := λ st,
  match m st with
  | (Ok a, st') => f a st'
  | (Raise e, st') => (Raise e, st')
  end.

#[local] Notation "x ← m ; k" := (bind m (λ x, k))
  (at level 20, m at level 100, k at level 200, only parsing).
#[local] Notation "m ;; k" := (bind m (λ _, k))
  (at level 100, k at level 200, only parsing, right associativity).

Definition raise {A} (e : Exn) : M A := λ st, (Raise e, st).
Definition lift {A} (o : Outcome A) : M A := λ st, (o, st).

Fixpoint for_each {A} (l : list A) (body : A → M unit) : M unit :=
  match l with
  | [] => ret tt
  | x :: l' => body x;; for_each l' body
  end.

(** *** Storage and cache accesses *)

Definition set_storage (s : gmap string (option Value)) (st : Tracker)
  : Tracker :=
  mkTracker s (cached_activations st) (cached_per_sample_gradient st)
    (collective_log st).

(** [self.module.storage[k]] *)
Definition storage_get (k : string) : M (option Value) := λ st,
  match storage st !! k with
  | Some v => (Ok v, st)
  | None => (Raise (KeyError k), st)
  end.

(** [self.module.storage[k] = v] *)
Definition storage_set (k : string) (v : option Value) : M unit := λ st,
  (Ok tt, set_storage (<[k:=v]> (storage st)) st).

(** [del self.module.storage[k]] *)
Definition storage_del (k : string) : M unit := λ st,
  match storage st !! k with
  | Some _ => (Ok tt, set_storage (delete k (storage st)) st)
  | None => (Raise (KeyError k), st)
  end.

(** [self.module.storage[k].method(...)] on a matrix entry: an attribute
    access on None raises [AttributeError]. *)
Definition storage_matrix (k : string) : M (Tensor (Matrix R)) :=
  v ← storage_get k;
  match v with
  | None => raise AttributeError
  | Some (VTensor t) => ret t
  | Some (VCount _) => raise OutOfModel
  end.

(** [self.module.storage[k]] passed as an operand to [torch.matmul]: None
    is refused with [TypeError]. *)
Definition storage_operand (k : string) : M (Tensor (Matrix R)) :=
  v ← storage_get k;
  match v with
  | None => raise TypeError
  | Some (VTensor t) => ret t
  | Some (VCount _) => raise OutOfModel
  end.

(** [self.module.storage[k].add_(c)] on a count entry *)
Definition storage_count_add_ (k : string) (c : Z) : M unit :=
  v ← storage_get k;
  match v with
  | None => raise AttributeError
  | Some (VCount n) =>
      n' ← lift (count_add_ n c); storage_set k (Some (VCount n'))
  | Some (VTensor _) => raise OutOfModel
  end.

(** [self.module.storage[k].add_(other)] on a matrix entry *)
Definition storage_add_ (k : string) (other : Tensor (Matrix R)) : M unit :=
  self ← storage_matrix k;
  r ← lift (add_ self other);
  storage_set k (Some (VTensor r)).

Definition get_cached_activations : M (option Cache) := λ st,
  (Ok (cached_activations st), st).
Definition set_cached_activations (c : option Cache) : M unit := λ st,
  (Ok tt, mkTracker (storage st) c (cached_per_sample_gradient st)
            (collective_log st)).
Definition get_cached_per_sample_gradient
  : M (option (Tensor (Batch R))) := λ st,
  (Ok (cached_per_sample_gradient st), st).
Definition set_cached_per_sample_gradient
  (g : option (Tensor (Batch R))) : M unit := λ st,
  (Ok tt, mkTracker (storage st) (cached_activations st) g
            (collective_log st)).

(** [dist.reduce(tensor=v, op=dist.ReduceOp.SUM, dst=0)]: the call is
    recorded and yields the content of the tensor afterwards.  A failure of
    the collective itself (or of [.cuda()]) is an event of the process
    group and is not modelled: the statements about [synchronize] are about
    the runs in which the collectives return. *)
Definition dist_reduce (v : Value) : M Value := λ st,
  (Ok (reduce_sum env v),
   mkTracker (storage st) (cached_activations st)
     (cached_per_sample_gradient st) (collective_log st ++ [v])).

(** *** The shared tracker base ([BaseTracker], not among the sources) *)

(** Modelled from the spec: [clear_all_cache] of [BaseTracker] clears the
    transient caches of the tracker. *)
Definition clear_all_cache : M unit :=
  set_cached_activations None;; set_cached_per_sample_gradient None.

(** Modelled from the spec: [_raise_cache_not_found_exception] of
    [BaseTracker] raises the fatal cache-ordering error. *)
Definition _raise_cache_not_found_exception : M unit := raise CacheNotFound.

(** Modelled from the spec: [_scale_output_gradient] of [BaseTracker] casts
    the gradient to the target dtype and rescales it. *)
Definition _scale_output_gradient (output_gradient : Tensor Raw)
  (target_dtype : Dtype) : Tensor Raw :=
  mkTensor target_dtype (rescale module (data output_gradient)).

(** *** CovarianceTracker *)

Definition _update_activation_covariance_matrix
  (input_activation : Tensor Raw) : M unit :=
  let '(flattened_activation, count) :=
    get_flattened_activation module input_activation in
  n ← storage_get NUM_ACTIVATION_COVARIANCE_PROCESSED;
  (if n is None then
     storage_set NUM_ACTIVATION_COVARIANCE_PROCESSED (Some (VCount 0));;
     let dimension := ncols (data flattened_activation) in
     storage_set ACTIVATION_COVARIANCE_MATRIX_NAME
       (Some (VTensor (zeros dimension dimension
                         (dtype flattened_activation))))
   else ret tt);;
  storage_count_add_ NUM_ACTIVATION_COVARIANCE_PROCESSED count;;
  self ← storage_matrix ACTIVATION_COVARIANCE_MATRIX_NAME;
  r ← lift (addmm_ self (t_ flattened_activation) flattened_activation);
  storage_set ACTIVATION_COVARIANCE_MATRIX_NAME (Some (VTensor r)).

Definition _update_gradient_covariance_matrix
  (output_gradient : Tensor Raw) : M unit :=
  let '(flattened_gradient, count) :=
    get_flattened_gradient module output_gradient in
  n ← storage_get NUM_GRADIENT_COVARIANCE_PROCESSED;
  (if n is None then
     storage_set NUM_GRADIENT_COVARIANCE_PROCESSED (Some (VCount 0));;
     let dimension := ncols (data flattened_gradient) in
     storage_set GRADIENT_COVARIANCE_MATRIX_NAME
       (Some (VTensor (zeros dimension dimension
                         (dtype flattened_gradient))))
   else ret tt);;
  storage_count_add_ NUM_GRADIENT_COVARIANCE_PROCESSED count;;
  self ← storage_matrix GRADIENT_COVARIANCE_MATRIX_NAME;
  r ← lift (addmm_ self (t_ flattened_gradient) flattened_gradient);
  storage_set GRADIENT_COVARIANCE_MATRIX_NAME (Some (VTensor r)).

(** The forward hook of [CovarianceTracker.register_hooks]; [inputs] is
    the content of the 1-tuple the host passes; the result is the hook
    registered on [outputs]. *)
Definition covariance_forward_hook (inputs : Tensor Raw) : M Hook :=
  let input_activation :=
    to_dtype (activation_covariance_dtype (factor_args module)) inputs in
  _update_activation_covariance_matrix input_activation;;
  ret backward_hook_id.

(** The backward hook of [CovarianceTracker.register_hooks]. *)
Definition covariance_backward_hook (output_gradient : Tensor Raw)
  : M unit :=
  let output_gradient :=
    _scale_output_gradient output_gradient
      (gradient_covariance_dtype (factor_args module)) in
  _update_gradient_covariance_matrix output_gradient.

(** The loop shared by both [exist] methods and by
    [_eigendecomposition_results_exist]: False at the first None entry. *)
Fixpoint all_present (names : list string) : M bool :=
  match names with
  | [] => ret true
  | name :: names' =>
      v ← storage_get name;
      if v is None then ret false else all_present names'
  end.

Definition covariance_exist : M bool := all_present COVARIANCE_FACTOR_NAMES.

(** The body of the loop of both [synchronize] methods: the entry is
    re-assigned to its [.cuda()] copy, which [dist.reduce] then updates in
    place. *)
Definition reduce_factor (name : string) : M unit :=
  v ← storage_get name;
  match v with
  | None => raise AttributeError
  | Some x =>
      storage_set name (Some x);;
      r ← dist_reduce x;
      storage_set name (Some r)
  end.

Definition covariance_synchronize (num_processes : nat) : M unit :=
  if dist_is_initialized env && cuda_is_available env then
    e ← covariance_exist;
    if e then for_each COVARIANCE_FACTOR_NAMES reduce_factor else ret tt
  else ret tt.

(** The body of the loop of both [release_memory] methods. *)
Definition release_factor (name : string) : M unit :=
  storage_del name;; storage_set name None.

Definition covariance_release_memory : M unit :=
  for_each COVARIANCE_FACTOR_NAMES release_factor.

(** *** LambdaTracker *)

Definition _eigendecomposition_results_exist : M bool :=
  all_present EIGENDECOMPOSITION_FACTOR_NAMES.

Definition not_found_message (s : string) : string :=
  "The strategy " +:+ s +:+
  " requires eigendecomposition results for Lambda computations, but they are not found.".

(** [aliases_cache] tells whether [per_sample_gradient] is the object held
    by [self.cached_per_sample_gradient] (as in [finalize_iteration]), which
    the in-place [square_] of the last branch then mutates too. *)
Definition _update_lambda_matrix (per_sample_gradient : Tensor (Batch R))
  (aliases_cache : bool) : M unit :=
  let batch_size := batch_size (data per_sample_gradient) in
  let requires_eigen :=
    requires_eigendecomposition_for_lambda env
      (strategy (factor_args module)) in
  n ← storage_get NUM_LAMBDA_PROCESSED;
  (if n is None then
     storage_set NUM_LAMBDA_PROCESSED (Some (VCount 0));;
     storage_set LAMBDA_MATRIX_NAME
       (Some (VTensor (zeros (brows (data per_sample_gradient))
                         (bcols (data per_sample_gradient))
                         (dtype per_sample_gradient))));;
     if requires_eigen then
       e ← _eigendecomposition_results_exist;
       (if e then ret tt
        else raise (FactorsNotFoundError
                      (not_found_message (strategy (factor_args module)))));;
       a ← storage_matrix ACTIVATION_EIGENVECTORS_NAME;
       storage_set ACTIVATION_EIGENVECTORS_NAME
         (Some (VTensor (to_dtype (dtype per_sample_gradient) a)));;
       g ← storage_matrix GRADIENT_EIGENVECTORS_NAME;
       storage_set GRADIENT_EIGENVECTORS_NAME
         (Some (VTensor (to_dtype (dtype per_sample_gradient) g)))
     else ret tt
   else ret tt);;
  storage_count_add_ NUM_LAMBDA_PROCESSED (Z.of_nat batch_size);;
  if requires_eigen then
    if use_iterative_lambda_aggregation (factor_args module) then
      a ← storage_operand ACTIVATION_EIGENVECTORS_NAME;
      per_sample_gradient ← lift (matmul_batch_r per_sample_gradient a);
      for_each (seq 0 batch_size) (λ i,
        g ← storage_matrix GRADIENT_EIGENVECTORS_NAME;
        p ← lift (index per_sample_gradient i);
        sqrt_lambda ← lift (matmul (t_ g) p);
        storage_add_ LAMBDA_MATRIX_NAME (square_ sqrt_lambda))
    else
      g ← storage_matrix GRADIENT_EIGENVECTORS_NAME;
      a ← storage_operand ACTIVATION_EIGENVECTORS_NAME;
      p ← lift (matmul_batch_r per_sample_gradient a);
      per_sample_gradient ← lift (matmul_batch_l (t_ g) p);
      storage_add_ LAMBDA_MATRIX_NAME
        (sum_dim0 (square_batch_ per_sample_gradient))
  else
    self ← storage_matrix LAMBDA_MATRIX_NAME;
    let squared := square_batch_ per_sample_gradient in
    (if aliases_cache then set_cached_per_sample_gradient (Some squared)
     else ret tt);;
    r ← lift (add_ self (sum_dim0 squared));
    storage_set LAMBDA_MATRIX_NAME (Some (VTensor r)).

(** The forward hook of [LambdaTracker.register_hooks]. *)
Definition lambda_forward_hook (inputs : Tensor Raw) : M Hook :=
  let cached_activation :=
    to_dtype (per_sample_gradient_dtype (factor_args module)) inputs in
  (if has_shared_parameters (factor_args module) then
     c ← get_cached_activations;
     match c with
     | None => set_cached_activations (Some (Activations [cached_activation]))
     | Some (Activations l) =>
         set_cached_activations (Some (Activations (l ++ [cached_activation])))
     | Some (OneActivation _) => raise AttributeError
     end
   else set_cached_activations (Some (OneActivation cached_activation)));;
  ret (if has_shared_parameters (factor_args module)
        then shared_backward_hook_id else backward_hook_id).

Definition backward_hook (output_gradient : Tensor Raw) : M unit :=
  c ← get_cached_activations;
  (if c is None then _raise_cache_not_found_exception else ret tt);;
  let output_gradient :=
    _scale_output_gradient output_gradient
      (per_sample_gradient_dtype (factor_args module)) in
  c ← get_cached_activations;
  match c with
  | Some (OneActivation cached) =>
      let per_sample_gradient :=
        to_dtype (lambda_dtype (factor_args module))
          (compute_per_sample_gradient module cached output_gradient) in
      clear_all_cache;;
      _update_lambda_matrix per_sample_gradient false
  | _ => raise AttributeError
  end.

(** [self.cached_activations.pop()] *)
Definition pop_cached_activation : M (Tensor Raw) :=
  c ← get_cached_activations;
  match c with
  | Some (Activations l) =>
      match last l with
      | Some a =>
          set_cached_activations (Some (Activations (removelast l)));;
          ret a
      | None => raise IndexError
      end
  | _ => raise AttributeError
  end.

Definition shared_backward_hook (output_gradient : Tensor Raw) : M unit :=
  let output_gradient :=
    _scale_output_gradient output_gradient
      (per_sample_gradient_dtype (factor_args module)) in
  cached_activation ← pop_cached_activation;
  let per_sample_gradient :=
    compute_per_sample_gradient module cached_activation output_gradient in
  c ← get_cached_per_sample_gradient;
  (if c is None then
     set_cached_per_sample_gradient (Some (zeros_like per_sample_gradient))
   else ret tt);;
  c ← get_cached_per_sample_gradient;
  match c with
  | Some acc =>
      r ← lift (add_batch_ acc per_sample_gradient);
      set_cached_per_sample_gradient (Some r)
  | None => raise AttributeError
  end.

(** The hook the host fires for a registered identifier. *)
Definition fire (h : Hook) (output_gradient : Tensor Raw) : M unit :=
  match h with
  | backward_hook_id => backward_hook output_gradient
  | shared_backward_hook_id => shared_backward_hook output_gradient
  end.

Definition finalize_iteration : M unit :=
  c ← get_cached_per_sample_gradient;
  match c with
  | None => raise AttributeError
  | Some g =>
      let g' := to_dtype (lambda_dtype (factor_args module)) g in
      set_cached_per_sample_gradient (Some g');;
      (if has_shared_parameters (factor_args module)
       then _update_lambda_matrix g' true else ret tt);;
      clear_all_cache
  end.

Definition lambda_exist : M bool := all_present LAMBDA_FACTOR_NAMES.

Definition lambda_synchronize (num_processes : nat) : M unit :=
  if dist_is_initialized env && cuda_is_available env then
    e ← lambda_exist;
    if e then for_each LAMBDA_FACTOR_NAMES reduce_factor else ret tt
  else ret tt.

Definition lambda_release_memory : M unit :=
  clear_all_cache;;
  for_each LAMBDA_FACTOR_NAMES release_factor.

End Trackers.

Arguments Value R : clear implicits.
Arguments Cache Raw : clear implicits.
Arguments Tracker R Raw : clear implicits.
Arguments TrackedModule R Raw : clear implicits.
Arguments Env R : clear implicits.

(** ** The two trackers behind the common interface of [BaseTracker] *)

Inductive TrackerKind := CovarianceTracker | LambdaTracker.

Definition factor_names (t : TrackerKind) : list string :=
  match t with
  | CovarianceTracker => COVARIANCE_FACTOR_NAMES
  | LambdaTracker => LAMBDA_FACTOR_NAMES
  end.

Section Interface.
Context {R : Type} `{Scalar R} {Raw : Type}.
Context (env : Env R).

Definition exist (t : TrackerKind) : M (R:=R) (Raw:=Raw) bool :=
  match t with
  | CovarianceTracker => covariance_exist
  | LambdaTracker => lambda_exist
  end.

Definition synchronize (t : TrackerKind) (num_processes : nat)
  : M (R:=R) (Raw:=Raw) unit :=
  match t with
  | CovarianceTracker => covariance_synchronize env num_processes
  | LambdaTracker => lambda_synchronize env num_processes
  end.

Definition release_memory (t : TrackerKind) : M (R:=R) (Raw:=Raw) unit :=
  match t with
  | CovarianceTracker => covariance_release_memory
  | LambdaTracker => lambda_release_memory
  end.
End Interface.

(** ** Vocabulary of the statements *)

Section Vocabulary.
Context {R : Type} {Raw : Type}.
Implicit Types (st : Tracker R Raw) (k : string).

(** The dict has the key [k] (bound to a tensor or to None). *)
Definition has_keys (names : list string) st : Prop :=
  Forall (λ k, is_Some (storage st !! k)) names.

(** The entry [k] is not None. *)
Definition is_set st k : bool :=
  match storage st !! k with
  | Some (Some _) => true
  | _ => false
  end.

(** [storage[k] = None] *)
Definition unset k st : Tracker R Raw :=
  set_storage (<[k:=None]> (storage st)) st.

(** The tensors bound to [names], in order. *)
Definition entries st (names : list string) : list (Value R) :=
  omap (λ k, mjoin (storage st !! k)) names.

(** The effect of one [dist.reduce] on the entry [k]. *)
Definition reduced (env : Env R) k st : Tracker R Raw :=
  match storage st !! k with
  | Some (Some v) =>
      mkTracker (<[k:=Some (reduce_sum env v)]> (storage st))
        (cached_activations st) (cached_per_sample_gradient st)
        (collective_log st ++ [v])
  | _ => st
  end.

(** The entry [e'] is the entry [e], or, when [dt] is a dtype, [e] is a
    tensor and [e'] a tensor of dtype [dt] and of the shape of [e], as the
    [.to(dtype=dt)] copy of [e] is.  Nothing is said of the entries of the
    copy: the program rounds them to [dt]. *)
Definition kept_or_recast (dt : option Dtype)
  (e e' : option (option (Value R))) : Prop :=
  e' = e
  ∨ ∃ d t t', dt = Some d
      ∧ e = Some (Some (VTensor t)) ∧ e' = Some (Some (VTensor t'))
      ∧ dtype t' = d
      ∧ ncols (data t') = ncols (data t)
      ∧ nrows (data t') = nrows (data t).

Definition eigenvectors_kept (dt : option Dtype) st st' : Prop :=
  ∀ k, k ∈ EIGENDECOMPOSITION_FACTOR_NAMES →
    kept_or_recast dt (storage st !! k) (storage st' !! k).
End Vocabulary.

(** The operations of [LambdaTracker]. *)
Inductive LambdaOp {R Raw : Type} :=
| op_eigendecomposition_results_exist
| op_update_lambda_matrix (per_sample_gradient : Tensor (Batch R))
    (aliases_cache : bool)
| op_forward_hook (inputs : Tensor Raw)
| op_backward_hook (output_gradient : Tensor Raw)
| op_shared_backward_hook (output_gradient : Tensor Raw)
| op_finalize_iteration
| op_exist
| op_synchronize (num_processes : nat)
| op_release_memory.
Arguments LambdaOp R Raw : clear implicits.

Section CovarianceVocabulary.
Context {R : Type} `{Scalar R} {Raw : Type}.

(** [x^T x] for a matrix [x] with [d] columns, as [addmm_(x.t(), x)]
    computes it. *)
Definition gram (d : nat) (x : list (list R)) : list (list R) :=
  mm (transpose d x) x d.

Definition zsum (l : list Z) : Z := foldr Z.add 0%Z l.

(** The statements shared by [_update_activation_covariance_matrix] and
    [_update_gradient_covariance_matrix], after the flattening. *)
Definition update_covariance (num_name matrix_name : string)
  (flattened : Tensor (Matrix R)) (count : Z) : M (R:=R) (Raw:=Raw) unit :=
  bind (storage_get num_name) (λ n,
  bind (if n is None then
          bind (storage_set num_name (Some (VCount 0))) (λ _,
          let dimension := ncols (data flattened) in
          storage_set matrix_name
            (Some (VTensor (zeros dimension dimension (dtype flattened)))))
        else ret tt) (λ _,
  bind (storage_count_add_ num_name count) (λ _,
  bind (storage_matrix matrix_name) (λ self,
  bind (lift (addmm_ self (t_ flattened) flattened)) (λ r,
  storage_set matrix_name (Some (VTensor r))))))).

(** The flattened batches [xs], with their element counts, all have
    dtype [dt] and [d] columns, and the counts are non-negative with a
    total that fits in an int64. *)
Definition batches_ok (dt : Dtype) (d : nat)
  (xs : list (Tensor (Matrix R) * Z)) : Prop :=
  Forall (λ xc, dtype xc.1 = dt ∧ ncols (data xc.1) = d
                ∧ matrix_wf (data xc.1) ∧ (0 ≤ xc.2)%Z) xs
  ∧ (zsum (snd <$> xs) ≤ int64_max)%Z.

(** The count entry once the batches [xs] are processed. *)
Definition count_after (xs : list (Tensor (Matrix R) * Z))
  : option (Value R) :=
  match xs with
  | [] => None
  | _ => Some (VCount (zsum (snd <$> xs)))
  end.

(** The covariance entry once the batches [xs] are processed: the sum of
    [x^T x] over the batches. *)
Definition covariance_after (xs : list (Tensor (Matrix R) * Z))
  : option (Value R) :=
  match xs with
  | [] => None
  | (x, _) :: _ =>
      let d := ncols (data x) in
      Some (VTensor
              (mkTensor (dtype x)
                 (mkMatrix d
                    (foldr madd (mzeros d d)
                       ((λ xc, gram d (mrows (data xc.1))) <$> xs)))))
  end.
End CovarianceVocabulary.

(** A hook firing of the covariance tracker. *)
Inductive Firing {Raw : Type} :=
| forward_firing (inputs : Tensor Raw)
| backward_firing (output_gradient : Tensor Raw).
Arguments Firing Raw : clear implicits.

Section CovarianceRuns.
Context {R : Type} `{Scalar R} {Raw : Type}.
Context (module : TrackedModule R Raw).

Definition fire_covariance (f : Firing Raw) : M (R:=R) (Raw:=Raw) unit :=
  match f with
  | forward_firing inputs =>
      bind (covariance_forward_hook module inputs) (λ _, ret tt)
  | backward_firing output_gradient =>
      covariance_backward_hook module output_gradient
  end.

(** The flattened activations of the forward firings, in order. *)
Definition flattened_activations (fs : list (Firing Raw))
  : list (Tensor (Matrix R) * Z) :=
  omap (λ f, match f with
             | forward_firing inputs =>
                 Some (get_flattened_activation module
                         (to_dtype (activation_covariance_dtype
                                      (factor_args module)) inputs))
             | backward_firing _ => None
             end) fs.

(** The flattened gradients of the backward firings, in order. *)
Definition flattened_gradients (fs : list (Firing Raw))
  : list (Tensor (Matrix R) * Z) :=
  omap (λ f, match f with
             | forward_firing _ => None
             | backward_firing output_gradient =>
                 Some (get_flattened_gradient module
                         (_scale_output_gradient module output_gradient
                            (gradient_covariance_dtype
                               (factor_args module))))
             end) fs.
End CovarianceRuns.

Section LambdaVocabulary.
Context {R : Type} `{Scalar R} {Raw : Type}.

(** The module with [use_iterative_lambda_aggregation] set to [b]. *)
Definition with_iterative (b : bool) (m : TrackedModule R Raw)
  : TrackedModule R Raw :=
  let fa := factor_args m in
  mkTrackedModule
    (mkFactorArguments (strategy fa) b (has_shared_parameters fa)
       (offload_activations_to_cpu fa) (activation_covariance_dtype fa)
       (gradient_covariance_dtype fa) (per_sample_gradient_dtype fa)
       (lambda_dtype fa))
    (get_flattened_activation m) (get_flattened_gradient m)
    (compute_per_sample_gradient m) (rescale m).

(** What a batch adds to the Lambda matrix in the eigenbasis: the sum over
    the samples [s] of the elementwise square of [G^T (s A)]. *)
Definition lambda_increment (A G : Matrix R) (p : Batch R)
  : list (list R) :=
  foldr madd (mzeros (ncols G) (ncols A))
    ((λ s, msquare (mm (transpose (ncols G) (mrows G))
                      (mm s (mrows A) (ncols A)) (ncols A)))
       <$> samples p).

(** The count and the Lambda matrix an update of shape (r, c) and dtype
    [dt] starts from: the stored ones, or zeros when the count is None. *)
Definition lambda_before (r c : nat) (dt : Dtype) (st : Tracker R Raw)
  : option (Z * Tensor (Matrix R)) :=
  match storage st !! NUM_LAMBDA_PROCESSED,
        storage st !! LAMBDA_MATRIX_NAME with
  | Some None, Some _ => Some (0%Z, zeros r c dt)
  | Some (Some (VCount n)), Some (Some (VTensor l)) => Some (n, l)
  | _, _ => None
  end.

(** The statements of [_update_lambda_matrix] after the count increment,
    under a strategy that requires the eigendecomposition. *)
Definition accumulate_in_eigenbasis (iterative : bool)
  (per_sample_gradient : Tensor (Batch R)) : M (R:=R) (Raw:=Raw) unit :=
  if iterative then
    bind (storage_operand ACTIVATION_EIGENVECTORS_NAME) (λ a,
    bind (lift (matmul_batch_r per_sample_gradient a)) (λ projected,
    for_each (seq 0 (batch_size (data per_sample_gradient))) (λ i,
      bind (storage_matrix GRADIENT_EIGENVECTORS_NAME) (λ g,
      bind (lift (index projected i)) (λ p,
      bind (lift (matmul (t_ g) p)) (λ sqrt_lambda,
      storage_add_ LAMBDA_MATRIX_NAME (square_ sqrt_lambda)))))))
  else
    bind (storage_matrix GRADIENT_EIGENVECTORS_NAME) (λ g,
    bind (storage_operand ACTIVATION_EIGENVECTORS_NAME) (λ a,
    bind (lift (matmul_batch_r per_sample_gradient a)) (λ p,
    bind (lift (matmul_batch_l (t_ g) p)) (λ projected,
    storage_add_ LAMBDA_MATRIX_NAME
      (sum_dim0 (square_batch_ projected)))))).
End LambdaVocabulary.

Section SharedPass.
Context {R : Type} `{Scalar R} {Raw : Type}.
Context (module : TrackedModule R Raw) (env : Env R).

(** The activation as the forward hook caches it. *)
Definition cached_copy (a : Tensor Raw) : Tensor Raw :=
  to_dtype (per_sample_gradient_dtype (factor_args module)) a.

(** The forward firings of one pass, in order; the result lists the hooks
    they register on their outputs. *)
Fixpoint forward_pass (acts : list (Tensor Raw))
  : M (R:=R) (Raw:=Raw) (list Hook) :=
  match acts with
  | [] => ret []
  | a :: acts' =>
      bind (lambda_forward_hook module a) (λ h,
      bind (forward_pass acts') (λ hs, ret (h :: hs)))
  end.

(** The backward firings of one pass: the host fires the hooks in [hooks]
    with the gradients of their outputs, in order. *)
Definition backward_pass (hooks : list Hook) (grads : list (Tensor Raw))
  : M (R:=R) (Raw:=Raw) unit :=
  for_each (zip hooks grads) (λ hg, fire module env hg.1 hg.2).

(** Backward firings that all run [shared_backward_hook]. *)
Definition shared_backward_pass (grads : list (Tensor Raw))
  : M (R:=R) (Raw:=Raw) unit :=
  for_each grads (shared_backward_hook module).

(** The per-sample gradient of the backward firing with gradient [g]
    paired with the forward firing with input [a]. *)
Definition paired_gradient (a g : Tensor Raw) : Tensor (Batch R) :=
  compute_per_sample_gradient module (cached_copy a)
    (_scale_output_gradient module g
       (per_sample_gradient_dtype (factor_args module))).

(** Last in, first out: the k-th backward firing is paired with the k-th
    forward firing counted from the end. *)
Definition lifo_gradients (acts grads : list (Tensor Raw))
  : list (Tensor (Batch R)) :=
  zip_with paired_gradient (reverse acts) grads.

(** One more contribution to the running sum, zeros at first. *)
Definition sum_step (acc : option (Tensor (Batch R)))
  (p : Tensor (Batch R)) : option (Tensor (Batch R)) :=
  let self := default (zeros_like p) acc in
  Some (mkTensor (dtype self)
          (mkBatch (brows (data self)) (bcols (data self))
             (badd (samples (data self)) (samples (data p))))).

Definition running_sum (ps : list (Tensor (Batch R)))
  : option (Tensor (Batch R)) :=
  foldl sum_step None ps.

(** The per-sample gradients [ps] all have shape (b, r, c). *)
Definition gradients_ok (b r c : nat) (ps : list (Tensor (Batch R)))
  : Prop :=
  Forall (λ p, batch_size (data p) = b ∧ batch_has_shape r c (data p)) ps.
End SharedPass.

Section LambdaOps.
Context {R : Type} `{Scalar R} {Raw : Type}.
Context (module : TrackedModule R Raw) (env : Env R).

Definition void {A} (m : M (R:=R) (Raw:=Raw) A) : M unit :=
  bind m (λ _, ret tt).

Definition run_lambda_op (op : LambdaOp R Raw) : M unit :=
  match op with
  | op_eigendecomposition_results_exist =>
      void _eigendecomposition_results_exist
  | op_update_lambda_matrix p aliases =>
      _update_lambda_matrix module env p aliases
  | op_forward_hook inputs => void (lambda_forward_hook module inputs)
  | op_backward_hook g => backward_hook module env g
  | op_shared_backward_hook g => shared_backward_hook module g
  | op_finalize_iteration => finalize_iteration module env
  | op_exist => void lambda_exist
  | op_synchronize n => lambda_synchronize env n
  | op_release_memory => lambda_release_memory
  end.



(** The state after the operations [ops], run one after the other whatever
    the outcome of each. *)
Definition after_ops (ops : list (LambdaOp R Raw)) (st : Tracker R Raw)
  : Tracker R Raw :=
  foldl (λ s op, (run_lambda_op op s).2) st ops.
End LambdaOps.

(** ** Concrete instances for the examples: integer entries *)

Module Examples.
#[local] Open Scope Z_scope.

(** The storage as the module wrapper initialises it: every factor name
    bound to None. *)
Definition fresh_storage : gmap string (option (Value Z)) :=
  list_to_map
    ((λ k, (k, None)) <$>
       COVARIANCE_FACTOR_NAMES ++ EIGENDECOMPOSITION_FACTOR_NAMES
       ++ LAMBDA_FACTOR_NAMES).

Definition fresh : Tracker Z (list (list Z)) :=
  mkTracker fresh_storage None None [].

Definition mat (dt : Dtype) (c : nat) (rows : list (list Z))
  : Value Z :=
  VTensor (mkTensor dt (mkMatrix c rows)).

(** A storage in which every factor is present. *)
Definition full_storage : gmap string (option (Value Z)) :=
  <[ACTIVATION_COVARIANCE_MATRIX_NAME := Some (mat float32 2%nat [[1; 0]; [0; 1]])]>
  (<[GRADIENT_COVARIANCE_MATRIX_NAME := Some (mat float32 2%nat [[2; 0]; [0; 2]])]>
  (<[NUM_ACTIVATION_COVARIANCE_PROCESSED := Some (VCount 1)]>
  (<[NUM_GRADIENT_COVARIANCE_PROCESSED := Some (VCount 1)]>
  (<[ACTIVATION_EIGENVECTORS_NAME := Some (mat float32 2%nat [[0; 1]; [1; 0]])]>
  (<[GRADIENT_EIGENVECTORS_NAME := Some (mat float32 2%nat [[1; 0]; [0; 1]])]>
  (<[LAMBDA_MATRIX_NAME := Some (mat float32 2%nat [[3; 4]; [5; 6]])]>
  (<[NUM_LAMBDA_PROCESSED := Some (VCount 7)]> fresh_storage))))))).

Definition full : Tracker Z (list (list Z)) :=
  mkTracker full_storage None None [].

Definition args (shared iterative : bool) (dt : Dtype) : FactorArguments :=
  mkFactorArguments "ekfac" iterative shared false dt dt dt dt.

(** A linear layer without bias: an activation is a list of input rows, a
    gradient a list of output rows, the flattened tensors are the tensors
    themselves with one element per row, and the per-sample gradient is
    the outer product of the output row with the input row. *)
Definition flatten (c : nat) (a : Tensor (list (list Z)))
  : Tensor (Matrix Z) * Z :=
  (mkTensor (dtype a) (mkMatrix c (data a)), Z.of_nat (length (data a))).

Definition outer (u v : list Z) : list (list Z) :=
  (λ x, (λ y, x * y) <$> v) <$> u.

Definition linear (shared iterative : bool) (dt : Dtype)
  : TrackedModule Z (list (list Z)) :=
  mkTrackedModule (args shared iterative dt) (flatten 2) (flatten 2)
    (λ a g, mkTensor (dtype g)
              (mkBatch 2 2 (zip_with outer (data g) (data a))))
    id.

(** Two processes holding the same tensors: the sum doubles the entries. *)
Definition double (v : Value Z) : Value Z :=
  match v with
  | VCount n => VCount (n + n)
  | VTensor t =>
      VTensor (mkTensor (dtype t)
                 (mkMatrix (ncols (data t))
                    (madd (mrows (data t)) (mrows (data t)))))
  end.

Definition env (requires dist cuda : bool) : Env Z :=
  mkEnv (λ _, requires) dist cuda double.

(** A per-sample gradient batch of shape (2, 2, 2). *)
Definition psg (dt : Dtype) : Tensor (Batch Z) :=
  mkTensor dt (mkBatch 2 2 [[[1; 2]; [3; 4]]; [[0; 1]; [1; 0]]]).


End Examples.

(** ** Vocabulary of the further properties *)

Section Relations.
Context {R : Type} {Raw : Type}.
Implicit Types (st : Tracker R Raw) (k : string).

(** Every run of [m], however it ends, relates the state it starts from to
    the state it reaches. *)
Definition relates (rel : Tracker R Raw → Tracker R Raw → Prop) {A}
  (m : M (R:=R) (Raw:=Raw) A) : Prop :=
  ∀ st o st', m st = (o, st') → rel st st'.

(** Every exception that [m] raises satisfies [P]. *)
Definition raises_only (P : Exn → Prop) {A} (m : M (R:=R) (Raw:=Raw) A)
  : Prop :=
  ∀ st e st', m st = (Raise e, st') → P e.

(** The storage entries outside [keys] are the same in both states. *)
Definition storage_outside (keys : list string) st st' : Prop :=
  ∀ k, k ∉ keys → storage st' !! k = storage st !! k.

(** The caches of the tracker are the same in both states. *)
Definition caches_kept st st' : Prop :=
  cached_activations st' = cached_activations st
  ∧ cached_per_sample_gradient st' = cached_per_sample_gradient st.

(** An entry is None in one state exactly when it is in the other. *)
Definition same_setness st st' : Prop :=
  ∀ k, is_set st' k = is_set st k.

(** The entries that are set stay set. *)
Definition set_stays st st' : Prop :=
  ∀ k, is_set st k = true → is_set st' k = true.

(** A matrix and its count are both None or both set. *)
Definition paired (matrix_name num_name : string) st : Prop :=
  is_set st matrix_name = is_set st num_name.

(** The run does not break the pairing of a matrix with its count. *)
Definition pairing_kept (matrix_name num_name : string) st st' : Prop :=
  paired matrix_name num_name st → paired matrix_name num_name st'.

(** The keys of the dict stay. *)
Definition keys_stay st st' : Prop :=
  ∀ k, is_Some (storage st !! k) → is_Some (storage st' !! k).

(** The entry [k] is not None: it is set, or the dict lacks the key. *)
Definition not_None k st : Prop := storage st !! k ≠ Some None.

Definition not_None_kept k st st' : Prop := not_None k st → not_None k st'.

Definition is_FactorsNotFoundError (e : Exn) : Prop :=
  match e with FactorsNotFoundError _ => True | _ => False end.
End Relations.

(** The operations of [CovarianceTracker]. *)
Inductive CovarianceOp {Raw : Type} :=
| cov_forward_hook (inputs : Tensor Raw)
| cov_backward_hook (output_gradient : Tensor Raw)
| cov_exist
| cov_synchronize (num_processes : nat)
| cov_release_memory.
Arguments CovarianceOp Raw : clear implicits.

Section CovarianceOps.
Context {R : Type} `{Scalar R} {Raw : Type}.
Context (module : TrackedModule R Raw) (env : Env R).

Definition run_covariance_op (op : CovarianceOp Raw)
  : M (R:=R) (Raw:=Raw) unit :=
  match op with
  | cov_forward_hook inputs => void (covariance_forward_hook module inputs)
  | cov_backward_hook g => covariance_backward_hook module g
  | cov_exist => void covariance_exist
  | cov_synchronize n => covariance_synchronize env n
  | cov_release_memory => covariance_release_memory
  end.
End CovarianceOps.

Section MoreTensors.
Context {R : Type} `{Scalar R}.

(** The identity matrix of size [n]. *)
Fixpoint identity (n : nat) : list (list R) :=
  match n with
  | 0 => []
  | S n' => (s1 :: vzeros n') :: (cons s0 <$> identity n')
  end.

(** The sum over the samples of a batch of their elementwise squares, as
    [p.square_().sum(dim=0)] computes it. *)
Definition squares_sum (p : Batch R) : list (list R) :=
  foldr madd (mzeros (brows p) (bcols p)) (msquare <$> samples p).

(** A square matrix equal to its transpose. *)
Definition symmetric (m : Matrix R) : Prop :=
  nrows m = ncols m ∧ matrix_wf m
  ∧ transpose (ncols m) (mrows m) = mrows m.

(** [torch.cat([p, q], dim=0)] for batches of the same sample shape and
    dtype. *)
Definition cat (p q : Tensor (Batch R)) : Tensor (Batch R) :=
  mkTensor (dtype p)
    (mkBatch (brows (data p)) (bcols (data p))
       (samples (data p) ++ samples (data q))).

(** The batch [p] with the samples [ss]. *)
Definition with_samples (p : Tensor (Batch R)) (ss : list (list (list R)))
  : Tensor (Batch R) :=
  mkTensor (dtype p) (mkBatch (brows (data p)) (bcols (data p)) ss).
End MoreTensors.

Section Symmetry.
Context {R : Type} `{Scalar R} {Raw : Type}.
Implicit Types (st : Tracker R Raw) (k : string).

(** The entry [k], when it is a matrix, is symmetric. *)
Definition symmetric_entry st k : Prop :=
  ∀ t, storage st !! k = Some (Some (VTensor t)) → symmetric (data t).

Definition symmetry_kept k st st' : Prop :=
  symmetric_entry st k → symmetric_entry st' k.
End Symmetry.

(** ** Further concrete instances *)

Module MoreExamples.
#[local] Open Scope Z_scope.

(** The Lambda matrix is there, the dict lacks the key of its count. *)
Definition lambda_count_missing : Tracker Z (list (list Z)) :=
  mkTracker (delete NUM_LAMBDA_PROCESSED Examples.full_storage) None None [].

(** Identity matrices as eigenvectors, Lambda factors not yet allocated. *)
Definition with_identity_eigenvectors : Tracker Z (list (list Z)) :=
  mkTracker
    (<[ACTIVATION_EIGENVECTORS_NAME :=
         Some (Examples.mat float32 2%nat [[1; 0]; [0; 1]])]>
    (<[GRADIENT_EIGENVECTORS_NAME :=
         Some (Examples.mat float32 2%nat [[1; 0]; [0; 1]])]>
       Examples.fresh_storage)) None None [].

(** The samples of [Examples.psg] in the other order. *)
Definition psg_samples_reversed : list (list (list Z)) :=
  [[[0; 1]; [1; 0]]; [[1; 2]; [3; 4]]].

End MoreExamples.

(** * Algebra of rows and matrices *)

Section ListLemmas.
Context {A : Type} (f : A → A → A).

Lemma zip_with_assoc_same :
  (∀ x y z, f x (f y z) = f (f x y) z) →
  ∀ u v w, zip_with f u (zip_with f v w) = zip_with f (zip_with f u v) w.
Proof.
  intros Hf. induction u as [|x u IH]; intros [|y v] [|z w]; simpl;
    try done.
  by rewrite Hf, IH.
Qed.

Lemma zip_with_comm_same :
  (∀ x y, f x y = f y x) → ∀ u v, zip_with f u v = zip_with f v u.
Proof.
  intros Hf. induction u as [|x u IH]; intros [|y v]; simpl; try done.
  by rewrite Hf, IH.
Qed.

Lemma zip_with_replicate_r_id e u n :
  length u = n → Forall (λ x, f x e = x) u →
  zip_with f u (replicate n e) = u.
Proof.
  intros <- Hu. induction Hu as [|x u Hx _ IH]; simpl; [done|].
  by rewrite Hx, IH.
Qed.

Lemma zip_with_replicate_l_id e u n :
  length u = n → Forall (λ x, f e x = x) u →
  zip_with f (replicate n e) u = u.
Proof.
  intros <- Hu. induction Hu as [|x u Hx _ IH]; simpl; [done|].
  by rewrite Hx, IH.
Qed.
End ListLemmas.

Section TensorLemmas.
Context {R : Type} `{Scalar R}.
Implicit Types (x y z : R) (u v w : list R) (a b : list (list R)).

Lemma sadd_0_l x : sadd s0 x = x.
Proof. apply (SRadd_0_l scalar_sring). Qed.
Lemma sadd_comm x y : sadd x y = sadd y x.
Proof. apply (SRadd_comm scalar_sring). Qed.
Lemma sadd_assoc x y z : sadd x (sadd y z) = sadd (sadd x y) z.
Proof. apply (SRadd_assoc scalar_sring). Qed.
Lemma sadd_0_r x : sadd x s0 = x.
Proof. by rewrite sadd_comm, sadd_0_l. Qed.

(** Shapes *)

Lemma length_vadd u v c :
  length u = c → length v = c → length (vadd u v) = c.
Proof. intros Hu Hv. unfold vadd. rewrite length_zip_with. lia. Qed.

Lemma rows_wf_madd a b c :
  rows_wf c a → rows_wf c b → rows_wf c (madd a b).
Proof.
  unfold rows_wf, madd. intros Ha. revert b.
  induction Ha as [|u a Hu _ IH]; intros b Hb; simpl; [constructor|].
  destruct Hb as [|v b Hv Hb]; constructor; [by apply length_vadd|].
  by apply IH.
Qed.

Lemma length_madd a b r :
  length a = r → length b = r → length (madd a b) = r.
Proof. intros Ha Hb. unfold madd. rewrite length_zip_with. lia. Qed.

Lemma rows_wf_mzeros r c : rows_wf c (mzeros r c).
Proof.
  unfold rows_wf, mzeros. apply Forall_replicate. unfold vzeros.
  apply length_replicate.
Qed.

Lemma length_mzeros r c : length (mzeros r c) = r.
Proof. apply length_replicate. Qed.

Lemma rows_wf_msquare a c : rows_wf c a → rows_wf c (msquare a).
Proof.
  unfold rows_wf, msquare. intros Ha. apply Forall_fmap.
  eapply Forall_impl; [exact Ha|]. intros u Hu. simpl.
  unfold vsquare. by rewrite length_fmap.
Qed.

Lemma length_msquare a : length (msquare a) = length a.
Proof. apply length_fmap. Qed.

Lemma length_transpose c a : rows_wf c a → length (transpose c a) = c.
Proof.
  unfold transpose. induction 1 as [|u a Hu _ IH]; simpl.
  - apply length_replicate.
  - rewrite length_zip_with. lia.
Qed.

Lemma rows_wf_transpose c a :
  rows_wf c a → rows_wf (length a) (transpose c a).
Proof.
  unfold transpose, rows_wf. induction 1 as [|u a Hu Ha IH]; simpl.
  - by apply Forall_replicate.
  - clear Ha. revert u Hu. generalize dependent c. intros c.
    generalize (foldr (zip_with cons) (replicate c []) a).
    intros l Hl. intros u _. revert u.
    induction Hl as [|w l Hw _ IHl]; intros [|x u]; simpl;
      constructor; [simpl; by rewrite Hw|apply IHl].
Qed.

Lemma length_mm a b cb : length (mm a b cb) = length a.
Proof. apply length_fmap. Qed.

Lemma rows_wf_mm a b cb : rows_wf cb b → rows_wf cb (mm a b cb).
Proof.
  intros Hb. unfold rows_wf, mm. apply Forall_fmap, Forall_forall.
  intros u _. simpl. rewrite length_fmap. by apply length_transpose.
Qed.

(** Sums *)

Lemma vadd_assoc u v w : vadd u (vadd v w) = vadd (vadd u v) w.
Proof. apply zip_with_assoc_same, sadd_assoc. Qed.

Lemma madd_assoc a b d : madd a (madd b d) = madd (madd a b) d.
Proof. apply zip_with_assoc_same, vadd_assoc. Qed.

Lemma vadd_comm u v : vadd u v = vadd v u.
Proof. apply zip_with_comm_same, sadd_comm. Qed.

Lemma madd_comm a b : madd a b = madd b a.
Proof. apply zip_with_comm_same, vadd_comm. Qed.

Lemma vadd_zeros_r u c : length u = c → vadd u (vzeros c) = u.
Proof.
  intros Hu. apply zip_with_replicate_r_id; [done|].
  apply Forall_forall. intros x _. apply sadd_0_r.
Qed.

Lemma madd_zeros_r a r c :
  length a = r → rows_wf c a → madd a (mzeros r c) = a.
Proof.
  intros Ha Hwf. apply zip_with_replicate_r_id; [done|].
  eapply Forall_impl; [exact Hwf|]. intros u Hu. by apply vadd_zeros_r.
Qed.

Lemma madd_zeros_l a r c :
  length a = r → rows_wf c a → madd (mzeros r c) a = a.
Proof. intros Ha Hwf. rewrite madd_comm. by apply madd_zeros_r. Qed.

(** The sum of a list of matrices of shape (r, c), as [sum(dim=0)]
    computes it. *)
Lemma msum_shape r c (ms : list (list (list R))) :
  Forall (λ s, length s = r ∧ rows_wf c s) ms →
  length (foldr madd (mzeros r c) ms) = r
  ∧ rows_wf c (foldr madd (mzeros r c) ms).
Proof.
  induction 1 as [|s ms [Hs Hwf] _ [IHl IHwf]]; simpl.
  - split; [apply length_mzeros|apply rows_wf_mzeros].
  - split; [by apply length_madd|by apply rows_wf_madd].
Qed.

(** Adding the matrices one by one onto [a] is adding their sum. *)
Lemma foldl_madd_msum r c a (ms : list (list (list R))) :
  length a = r → rows_wf c a →
  Forall (λ s, length s = r ∧ rows_wf c s) ms →
  foldl madd a ms = madd a (foldr madd (mzeros r c) ms).
Proof.
  intros Ha Hwf Hms. revert a Ha Hwf.
  induction Hms as [|s ms [Hs Hswf] _ IH]; intros a Ha Hwf; simpl.
  - by rewrite madd_zeros_r.
  - rewrite IH; [|by apply length_madd|by apply rows_wf_madd].
    by rewrite madd_assoc.
Qed.

(** Broadcasting a tensor that already has the target shape. *)
Lemma broadcast_same {A} n (l : list A) :
  length l = n → broadcast n l = Some l.
Proof. intros Hl. unfold broadcast. by rewrite decide_True. Qed.

Lemma broadcast_matrix_same r c a :
  length a = r → rows_wf c a → broadcast_matrix r c a = Some a.
Proof.
  intros Ha Hwf. unfold broadcast_matrix.
  assert (mapM (broadcast c) a = Some a) as ->.
  { apply mapM_Some. apply Forall2_same_length_lookup. split; [done|].
    intros i x y Hx Hy. simplify_eq. apply broadcast_same.
    eapply Forall_lookup in Hwf; eauto. }
  simpl. by apply broadcast_same.
Qed.

Lemma broadcast_batch_same n r c (p : list (list (list R))) :
  length p = n → Forall (λ s, length s = r ∧ rows_wf c s) p →
  broadcast_batch n r c p = Some p.
Proof.
  intros Hp Hwf. unfold broadcast_batch.
  assert (mapM (broadcast_matrix r c) p = Some p) as ->.
  { apply mapM_Some. apply Forall2_same_length_lookup. split; [done|].
    intros i x y Hx Hy. simplify_eq.
    eapply Forall_lookup in Hwf as [? ?]; eauto.
    by apply broadcast_matrix_same. }
  simpl. by apply broadcast_same.
Qed.
(** Gram matrices *)

Lemma foldr_sadd_acc x l : foldr sadd x l = sadd (foldr sadd s0 l) x.
Proof.
  induction l as [|y l IH]; simpl; [by rewrite sadd_0_l|].
  by rewrite IH, sadd_assoc.
Qed.

Lemma dot_app u1 u2 v1 v2 :
  length u1 = length v1 →
  dot (u1 ++ u2) (v1 ++ v2) = sadd (dot u1 v1) (dot u2 v2).
Proof.
  intros Hlen. unfold dot. rewrite zip_with_app; [|done].
  by rewrite foldr_app, foldr_sadd_acc.
Qed.

Lemma zip_with_cons_app u (t1 t2 : list (list R)) :
  zip_with cons u (zip_with app t1 t2)
  = zip_with app (zip_with cons u t1) t2.
Proof.
  revert t1 t2. induction u as [|x u IH]; intros [|w1 t1] [|w2 t2];
    simpl; try done.
  by rewrite IH.
Qed.

Lemma transpose_app d a b :
  rows_wf d b →
  transpose d (a ++ b)
  = zip_with app (transpose d a) (transpose d b).
Proof.
  intros Hb. induction a as [|u a IH]; simpl.
  - symmetry. apply (zip_with_replicate_l_id app).
    + by apply length_transpose.
    + by apply Forall_forall.
  - unfold transpose in *. simpl. rewrite IH. apply zip_with_cons_app.
Qed.

Lemma dot_row_app n t1 t2 (s1 s2 : list (list R)) :
  length t1 = n → rows_wf n s1 → length s1 = length s2 →
  dot (t1 ++ t2) <$> zip_with app s1 s2
  = vadd (dot t1 <$> s1) (dot t2 <$> s2).
Proof.
  intros Ht Hs1. revert s2.
  induction Hs1 as [|w1 s1 Hw1 _ IH]; intros [|w2 s2] Hlen; simpl in *;
    try done.
  rewrite dot_app; [|congruence]. f_equal. apply IH. lia.
Qed.

Lemma mm_rows_app n (t1 t2 s1 s2 : list (list R)) :
  rows_wf n t1 → rows_wf n s1 →
  length t1 = length t2 → length s1 = length s2 →
  (λ u, dot u <$> zip_with app s1 s2) <$> zip_with app t1 t2
  = madd ((λ u, dot u <$> s1) <$> t1) ((λ u, dot u <$> s2) <$> t2).
Proof.
  intros Ht1 Hs1. revert t2.
  induction Ht1 as [|w1 t1 Hw1 _ IH]; intros [|w2 t2] Hlen Hlen';
    simpl in *; try done.
  f_equal; [by eapply dot_row_app|]. apply IH; [lia|done].
Qed.

Lemma gram_shape d a :
  rows_wf d a → length (gram d a) = d ∧ rows_wf d (gram d a).
Proof.
  intros Ha. unfold gram. split.
  - by rewrite length_mm, length_transpose.
  - by apply rows_wf_mm.
Qed.

Lemma gram_nil d : gram d [] = mzeros d d.
Proof.
  unfold gram, mm, transpose, mzeros, vzeros. simpl.
  by rewrite !fmap_replicate.
Qed.

(** Splitting a batch: [(a ++ b)^T (a ++ b) = a^T a + b^T b]. *)
Lemma gram_app d a b :
  rows_wf d a → rows_wf d b →
  gram d (a ++ b) = madd (gram d a) (gram d b).
Proof.
  intros Ha Hb. unfold gram, mm. rewrite transpose_app; [|done].
  apply (mm_rows_app (length a)).
  - by apply rows_wf_transpose.
  - by apply rows_wf_transpose.
  - by rewrite !length_transpose.
  - by rewrite !length_transpose.
Qed.

(** The sum of the Gram matrices of the batches is the Gram matrix of all
    the rows. *)
Lemma msum_gram_concat d (xs : list (list (list R))) :
  Forall (rows_wf d) xs →
  foldr madd (mzeros d d) (gram d <$> xs) = gram d (concat xs).
Proof.
  induction 1 as [|a xs Ha Hxs IH].
  - simpl. by rewrite gram_nil.
  - rewrite fmap_cons. cbn [foldr concat].
    rewrite IH, gram_app; [done..|]. by apply Forall_concat.
Qed.
End TensorLemmas.

(** * Running the monad *)

Section MonadLemmas.
Context {R : Type} {Raw : Type}.
Implicit Types (st : Tracker R Raw) (k : string).

Lemma bind_Ok {A B} (m : M A) (f : A → M B) st a st' :
  m st = (Ok a, st') → bind m f st = f a st'.
Proof. unfold bind. by intros ->. Qed.

Lemma bind_Raise {A B} (m : M A) (f : A → M B) st e st' :
  m st = (Raise e, st') → bind m f st = (Raise e, st').
Proof. unfold bind. by intros ->. Qed.

Lemma storage_get_Some k v st :
  storage st !! k = Some v → storage_get k st = (Ok v, st).
Proof. unfold storage_get. by intros ->. Qed.

Lemma storage_get_None k st :
  storage st !! k = None → storage_get k st = (Raise (KeyError k), st).
Proof. unfold storage_get. by intros ->. Qed.

Lemma tracker_eq st1 st2 :
  storage st1 = storage st2 →
  cached_activations st1 = cached_activations st2 →
  cached_per_sample_gradient st1 = cached_per_sample_gradient st2 →
  collective_log st1 = collective_log st2 →
  st1 = st2.
Proof. destruct st1, st2. simpl. by intros -> -> -> ->. Qed.

Lemma set_storage_id st : set_storage (storage st) st = st.
Proof. by destruct st. Qed.

Lemma unset_id k st : storage st !! k = Some None → unset k st = st.
Proof.
  intros Hk. unfold unset. rewrite insert_id; [|done]. apply set_storage_id.
Qed.

Lemma has_keys_unset names k st :
  has_keys names st → has_keys names (unset k st).
Proof.
  unfold has_keys. intros Hks. eapply Forall_impl; [exact Hks|].
  intros k' Hk'. simpl.
  destruct (decide (k = k')) as [->|Hne].
  - rewrite lookup_insert_eq. eauto.
  - by rewrite lookup_insert_ne.
Qed.

Lemma all_present_spec names st :
  has_keys names st →
  all_present names st = (Ok (forallb (is_set st) names), st).
Proof.
  induction 1 as [|k names [v Hk] _ IH]; [done|].
  simpl. erewrite bind_Ok; [|by apply storage_get_Some].
  unfold is_set at 1. rewrite Hk. by destruct v.
Qed.

Lemma release_factor_spec k st :
  is_Some (storage st !! k) → release_factor k st = (Ok tt, unset k st).
Proof.
  intros [v Hk]. unfold release_factor, bind, storage_del, storage_set.
  rewrite Hk. simpl. unfold unset. by rewrite insert_delete_eq.
Qed.

Lemma release_all_spec names st :
  has_keys names st →
  for_each names release_factor st
  = (Ok tt, foldl (λ s k, unset k s) st names).
Proof.
  intros Hk. revert st Hk.
  induction names as [|k names IH]; intros st Hk; [done|].
  apply Forall_cons in Hk as [Hk Hks]. simpl.
  erewrite bind_Ok; [|by apply release_factor_spec].
  apply IH. by apply has_keys_unset.
Qed.

Lemma storage_unset_all names st :
  storage (foldl (λ s k, unset k s) st names)
  = foldl (λ m k, <[k:=None]> m) (storage st) names.
Proof.
  revert st. induction names as [|k names IH]; intros st; [done|].
  simpl. by rewrite IH.
Qed.

Lemma lookup_unset_all names (m : gmap string (option (Value R))) k :
  foldl (λ m k, <[k:=None]> m) m names !! k
  = if decide (k ∈ names) then Some None else m !! k.
Proof.
  revert m. induction names as [|k' names IH]; intros m; cbn [foldl].
  - case_decide; [set_solver|done].
  - rewrite IH.
    destruct (decide (k ∈ names)) as [Hin|Hnin];
      destruct (decide (k ∈ k' :: names)) as [Hin'|Hnin'];
      [done | destruct Hnin'; by right | | ].
    + apply elem_of_cons in Hin' as [->|?]; [|done]. by rewrite lookup_insert_eq.
    + rewrite lookup_insert_ne; [done|]. intros ->. destruct Hnin'. by left.
Qed.
End MonadLemmas.

(** * The tracker interface: [exist] and [release_memory] *)

Section InterfaceProofs.
Context {R : Type} {Raw : Type}.
Implicit Types (st : Tracker R Raw) (k : string) (t : TrackerKind).

Lemma exist_spec t st :
  has_keys (factor_names t) st →
  exist t st = (Ok (forallb (is_set st) (factor_names t)), st).
Proof. destruct t; apply all_present_spec. Qed.

Lemma is_set_unset k st : is_set (unset k st) k = false.
Proof. unfold is_set, unset. simpl. by rewrite lookup_insert_eq. Qed.

(** C7: [exist()] returns true exactly when every factor of the tracker's
    group is non-None in the storage; and from a state where it returns
    true, setting any one entry of the group to None makes it return
    false. *)
Theorem exist_iff_all_factors_set t st :
  has_keys (factor_names t) st →
  ∃ b, exist t st = (Ok b, st)
     ∧ (b = true ↔ ∀ k, k ∈ factor_names t → is_set st k = true)
     ∧ (b = true → ∀ k, k ∈ factor_names t →
          exist t (unset k st) = (Ok false, unset k st)).
Proof.
  intros Hk. exists (forallb (is_set st) (factor_names t)).
  split; [by apply exist_spec|]. split.
  - rewrite forallb_forall. split; intros Hall k Hin; apply Hall.
    + by apply list_elem_of_In.
    + by apply list_elem_of_In.
  - intros _ k Hin. rewrite exist_spec; [|by apply has_keys_unset].
    do 2 f_equal. apply not_true_is_false. rewrite forallb_forall.
    intros Hall. apply list_elem_of_In in Hin.
    specialize (Hall k Hin). by rewrite is_set_unset in Hall.
Qed.

Lemma clear_all_cache_spec st :
  clear_all_cache st
  = (Ok tt, mkTracker (storage st) None None (collective_log st)).
Proof. done. Qed.

Lemma release_memory_spec t st :
  has_keys (factor_names t) st →
  ∃ st', release_memory t st = (Ok tt, st')
    ∧ storage st'
      = foldl (λ m k, <[k:=None]> m) (storage st) (factor_names t)
    ∧ match t with
      | CovarianceTracker =>
          cached_activations st' = cached_activations st
          ∧ cached_per_sample_gradient st' = cached_per_sample_gradient st
      | LambdaTracker =>
          cached_activations st' = None
          ∧ cached_per_sample_gradient st' = None
      end
    ∧ collective_log st' = collective_log st.
Proof.
  intros Hk. destruct t; simpl.
  - unfold covariance_release_memory. rewrite release_all_spec; [|done].
    eexists. split; [done|]. rewrite storage_unset_all.
    split; [done|].
    assert (∀ names st0,
      cached_activations (foldl (λ s k, unset k s) st0 names)
        = cached_activations st0
      ∧ cached_per_sample_gradient (foldl (λ s k, unset k s) st0 names)
        = cached_per_sample_gradient st0
      ∧ collective_log (foldl (λ s k, unset k s) st0 names)
        = collective_log st0) as Hframe.
    { induction names as [|k names IH]; intros st0; [done|].
      simpl. destruct (IH (unset k st0)) as (-> & -> & ->). done. }
    destruct (Hframe COVARIANCE_FACTOR_NAMES st) as (-> & -> & ->). done.
  - unfold lambda_release_memory.
    erewrite bind_Ok; [|apply clear_all_cache_spec].
    rewrite release_all_spec; [|done].
    eexists. split; [done|]. rewrite storage_unset_all. done.
Qed.

(** C9: from any storage holding the tracker's keys, [release_memory()]
    returns normally and leaves every factor of the group None (matrices
    and counts together), touching no other entry; a second call returns
    normally in the same state; on factors that are all None already the
    storage is left as it is. *)
Theorem release_memory_idempotent t st :
  has_keys (factor_names t) st →
  ∃ st', release_memory t st = (Ok tt, st')
    ∧ (∀ k, k ∈ factor_names t → storage st' !! k = Some None)
    ∧ (∀ k, k ∉ factor_names t → storage st' !! k = storage st !! k)
    ∧ release_memory t st' = (Ok tt, st')
    ∧ ((∀ k, k ∈ factor_names t → storage st !! k = Some None) →
       storage st' = storage st).
Proof.
  intros Hk. destruct (release_memory_spec t st Hk)
    as (st' & Hrun & Hsto & Hcache & Hlog).
  exists st'. split; [done|].
  assert (∀ k, k ∈ factor_names t → storage st' !! k = Some None) as Hnone.
  { intros k Hin. rewrite Hsto, lookup_unset_all. by rewrite decide_True. }
  assert (∀ k, k ∉ factor_names t → storage st' !! k = storage st !! k)
    as Hother.
  { intros k Hin. rewrite Hsto, lookup_unset_all. by rewrite decide_False. }
  split; [done|]. split; [done|]. split.
  - assert (has_keys (factor_names t) st') as Hk'.
    { apply Forall_forall. intros k Hin. rewrite Hnone; eauto. }
    destruct (release_memory_spec t st' Hk')
      as (st'' & Hrun' & Hsto' & Hcache' & Hlog').
    rewrite Hrun'. f_equal.
    assert (storage st'' = storage st') as Heq.
    { apply map_eq. intros k. rewrite Hsto', lookup_unset_all.
      case_decide; [by rewrite Hnone|done]. }
    apply tracker_eq; [done| | |congruence];
      destruct t, Hcache as [? ?], Hcache' as [? ?]; congruence.
  - intros Hall. apply map_eq. intros k.
    destruct (decide (k ∈ factor_names t)) as [Hin|Hnin].
    + by rewrite Hnone, Hall.
    + by apply Hother.
Qed.
End InterfaceProofs.

(** * [synchronize] *)

Section SynchronizeProofs.
Context {R : Type} {Raw : Type} (env : Env R).
Implicit Types (st : Tracker R Raw) (k : string) (t : TrackerKind).

Lemma reduce_factor_spec k st :
  is_set st k = true → reduce_factor env k st = (Ok tt, reduced env k st).
Proof.
  unfold is_set, reduce_factor, reduced, bind, storage_get, storage_set,
    dist_reduce.
  destruct (storage st !! k) as [[v|]|] eqn:Hk; [|done..]. intros _.
  simpl. by rewrite insert_insert_eq.
Qed.

Lemma is_set_reduced k k' st :
  is_set st k' = true → is_set (reduced env k st) k' = true.
Proof.
  unfold is_set, reduced.
  destruct (storage st !! k) as [[v|]|] eqn:Hk; [|done..]. simpl.
  destruct (decide (k = k')) as [->|Hne].
  - by rewrite lookup_insert_eq.
  - by rewrite lookup_insert_ne.
Qed.

Lemma reduce_all_spec names st :
  forallb (is_set st) names = true →
  for_each names (reduce_factor env) st
  = (Ok tt, foldl (λ s k, reduced env k s) st names).
Proof.
  revert st. induction names as [|k names IH]; intros st Hset; [done|].
  simpl in Hset. apply andb_true_iff in Hset as [Hk Hks]. simpl.
  erewrite bind_Ok; [|by apply reduce_factor_spec].
  apply IH. apply forallb_forall. intros k' Hin. apply is_set_reduced.
  by eapply forallb_forall in Hks.
Qed.

Lemma reduced_all_frame names st :
  cached_activations (foldl (λ s k, reduced env k s) st names)
  = cached_activations st
  ∧ cached_per_sample_gradient (foldl (λ s k, reduced env k s) st names)
    = cached_per_sample_gradient st.
Proof.
  revert st. induction names as [|k names IH]; intros st; [done|].
  simpl. destruct (IH (reduced env k st)) as [-> ->].
  unfold reduced. by destruct (storage st !! k) as [[v|]|].
Qed.

Lemma reduced_all_lookup names st k :
  NoDup names →
  storage (foldl (λ s k, reduced env k s) st names) !! k
  = if decide (k ∈ names)
    then fmap (reduce_sum env) <$> storage st !! k
    else storage st !! k.
Proof.
  intros Hnd. revert st.
  induction Hnd as [|k' names Hnin Hnd IH]; intros st; cbn [foldl].
  - case_decide as Hin; [by apply elem_of_nil in Hin|done].
  - rewrite IH. unfold reduced.
    destruct (decide (k ∈ names)) as [Hin|Hnin'];
      destruct (decide (k ∈ k' :: names)) as [Hin'|Hnin''].
    + assert (k' ≠ k) by (by intros ->).
      destruct (storage st !! k') as [[v|]|]; [|done..]. simpl.
      by rewrite lookup_insert_ne.
    + destruct Hnin''. by right.
    + apply elem_of_cons in Hin' as [->|?]; [|done].
      destruct (storage st !! k') as [[v|]|] eqn:Hk; simpl.
      * by rewrite lookup_insert_eq.
      * by rewrite Hk.
      * by rewrite Hk.
    + assert (k' ≠ k) by (intros ->; destruct Hnin''; by left).
      destruct (storage st !! k') as [[v|]|]; [|done..]. simpl.
      by rewrite lookup_insert_ne.
Qed.

Lemma entries_reduced_other names k st :
  k ∉ names → entries (reduced env k st) names = entries st names.
Proof.
  intros Hnin. unfold entries.
  induction names as [|k' names IH]; [done|].
  apply not_elem_of_cons in Hnin as [Hne Hnin]. csimpl.
  rewrite IH; [|done]. unfold reduced.
  destruct (storage st !! k) as [[v|]|]; [|done..]. simpl.
  by rewrite lookup_insert_ne.
Qed.

Lemma reduced_all_log names st :
  NoDup names →
  collective_log (foldl (λ s k, reduced env k s) st names)
  = collective_log st ++ entries st names.
Proof.
  intros Hnd. revert st.
  induction Hnd as [|k names Hnin Hnd IH]; intros st; cbn [foldl].
  - unfold entries. simpl. by rewrite app_nil_r.
  - rewrite IH, entries_reduced_other; [|done].
    unfold reduced, entries. csimpl.
    destruct (storage st !! k) as [[v|]|]; simpl; [|done..].
    by rewrite <-app_assoc.
Qed.

Lemma entries_length names st :
  forallb (is_set st) names = true →
  length (entries st names) = length names.
Proof.
  unfold entries. induction names as [|k names IH]; [done|]. csimpl.
  intros [Hk Hks]%andb_true_iff. unfold is_set in Hk.
  destruct (storage st !! k) as [[v|]|]; [|done..]. simpl. by rewrite IH.
Qed.

Lemma factor_names_NoDup t : NoDup (factor_names t).
Proof. destruct t; compute_done. Qed.

(** C8: [synchronize] returns normally; when a process group is
    initialised, CUDA is available and every factor of the group is set,
    it hands every factor of the group to the sum-reduction (to process 0)
    in order and keeps the reduced tensors; in every other case, also when
    only some factors are set, it reduces nothing and leaves the state as
    it is. *)
Theorem synchronize_reduces_iff_ready t num_processes st :
  has_keys (factor_names t) st →
  let ready := dist_is_initialized env && cuda_is_available env
               && forallb (is_set st) (factor_names t) in
  ∃ st', synchronize env t num_processes st = (Ok tt, st')
    ∧ (exist t st = (Ok true, st) ↔
       forallb (is_set st) (factor_names t) = true)
    ∧ (ready = true →
         collective_log st'
         = collective_log st ++ entries st (factor_names t)
         ∧ length (entries st (factor_names t)) = length (factor_names t)
         ∧ (∀ k, k ∈ factor_names t →
              storage st' !! k = fmap (reduce_sum env) <$> storage st !! k)
         ∧ (∀ k, k ∉ factor_names t → storage st' !! k = storage st !! k)
         ∧ cached_activations st' = cached_activations st
         ∧ cached_per_sample_gradient st' = cached_per_sample_gradient st)
    ∧ (ready = false → st' = st)
    ∧ (collective_log st' ≠ collective_log st ↔ ready = true).
Proof.
  intros Hk ready.
  assert (synchronize env t num_processes st
          = if ready
            then (Ok tt, foldl (λ s k, reduced env k s) st (factor_names t))
            else (Ok tt, st)) as Hrun.
  { subst ready.
    destruct t; cbn [synchronize factor_names];
      unfold covariance_synchronize, lambda_synchronize;
      destruct (dist_is_initialized env && cuda_is_available env);
      cbn [andb]; try done.
    - erewrite bind_Ok; [|by apply (exist_spec CovarianceTracker)].
      cbn [factor_names].
      destruct (forallb (is_set st) COVARIANCE_FACTOR_NAMES) eqn:Hset;
        [|done].
      by apply reduce_all_spec.
    - erewrite bind_Ok; [|by apply (exist_spec LambdaTracker)].
      cbn [factor_names].
      destruct (forallb (is_set st) LAMBDA_FACTOR_NAMES) eqn:Hset; [|done].
      by apply reduce_all_spec. }
  pose proof (factor_names_NoDup t) as Hnd.
  assert (exist t st = (Ok true, st) ↔
          forallb (is_set st) (factor_names t) = true) as Hexist.
  { rewrite exist_spec by done. split; [by intros [= ->]|by intros ->]. }
  destruct ready eqn:Hready.
  - eexists. split; [exact Hrun|]. split; [exact Hexist|].
    assert (forallb (is_set st) (factor_names t) = true) as Hset.
    { subst ready. by apply andb_true_iff in Hready as [_ ?]. }
    pose proof (entries_length _ _ Hset) as Hlen.
    split; [|split; [done|]].
    + intros _. rewrite reduced_all_log; [|done].
      split; [done|]. split; [done|].
      destruct (reduced_all_frame (factor_names t) st) as [-> ->].
      repeat split.
      * intros k Hin. rewrite reduced_all_lookup; [|done].
        by rewrite decide_True.
      * intros k Hin. rewrite reduced_all_lookup; [|done].
        by rewrite decide_False.
    + split; [done|]. intros _. rewrite reduced_all_log; [|done].
      intros Heq. rewrite <-(app_nil_r (collective_log st)) in Heq at 2.
      apply app_inv_head in Heq. rewrite Heq in Hlen.
      by destruct t.
  - exists st. split; [exact Hrun|]. split; [exact Hexist|].
    split; [done|]. split; [done|].
    split; [|done]. by intros [].
Qed.
End SynchronizeProofs.

(** * Cache ordering and [finalize_iteration] *)

Section CacheProofs.
Context {R : Type} `{Scalar R} {Raw : Type}.
Context (module : TrackedModule R Raw) (env : Env R).
Implicit Types (st : Tracker R Raw) (g : Tensor Raw).

(** C6: a backward firing of the Lambda tracker that finds no cached
    activation raises at once and updates nothing: the non-shared hook on
    a None cache, the shared hook on a None cache or on an empty list. *)
Theorem backward_firing_without_cache_raises g st :
  (cached_activations st = None →
     backward_hook module env g st = (Raise CacheNotFound, st))
  ∧ (cached_activations st = None →
       shared_backward_hook module g st = (Raise AttributeError, st))
  ∧ (cached_activations st = Some (Activations []) →
       shared_backward_hook module g st = (Raise IndexError, st)).
Proof.
  repeat split; intros Hc.
  - unfold backward_hook, bind, get_cached_activations. by rewrite Hc.
  - unfold shared_backward_hook, pop_cached_activation, bind,
      get_cached_activations. by rewrite Hc.
  - unfold shared_backward_hook, pop_cached_activation, bind,
      get_cached_activations. by rewrite Hc.
Qed.

(** C10: [finalize_iteration] reads [cached_per_sample_gradient] before it
    looks at [has_shared_parameters]: on a None cache it raises for every
    module; it returns normally only from a non-None cache; and for a
    module without shared parameters it then clears the caches and leaves
    the storage alone. *)
Theorem finalize_iteration_needs_cached_gradient st :
  (cached_per_sample_gradient st = None →
     finalize_iteration module env st = (Raise AttributeError, st))
  ∧ (∀ st', finalize_iteration module env st = (Ok tt, st') →
       cached_per_sample_gradient st ≠ None)
  ∧ (has_shared_parameters (factor_args module) = false →
     ∀ p, cached_per_sample_gradient st = Some p →
       finalize_iteration module env st
       = (Ok tt, mkTracker (storage st) None None (collective_log st))).
Proof.
  unfold finalize_iteration, bind, get_cached_per_sample_gradient.
  repeat split.
  - by intros ->.
  - intros st' Hrun Hc. by rewrite Hc in Hrun.
  - intros Hs p Hc. by rewrite Hc, Hs.
Qed.
End CacheProofs.

(** * The Lambda update *)

Section UpdateLambdaSteps.
Context {R : Type} {Raw : Type}.
Implicit Types (st : Tracker R Raw) (k : string).

Lemma storage_matrix_Some k t st :
  storage st !! k = Some (Some (VTensor t)) →
  storage_matrix k st = (Ok t, st).
Proof. unfold storage_matrix, bind, storage_get. by intros ->. Qed.

Lemma storage_operand_Some k t st :
  storage st !! k = Some (Some (VTensor t)) →
  storage_operand k st = (Ok t, st).
Proof. unfold storage_operand, bind, storage_get. by intros ->. Qed.

Lemma storage_count_add_Some k n c st :
  storage st !! k = Some (Some (VCount n)) →
  in_int64 c = true →
  storage_count_add_ k c st
  = (Ok tt,
     set_storage (<[k:=Some (VCount (wrap_int64 (n + c)))]> (storage st)) st).
Proof.
  unfold storage_count_add_, bind, storage_get, lift, count_add_,
    storage_set.
  by intros -> ->.
Qed.

Lemma storage_set_storage (m : gmap string (option (Value R))) st :
  storage (set_storage m st) = m.
Proof. done. Qed.

Lemma set_storage_twice (m m' : gmap string (option (Value R))) st :
  set_storage m (set_storage m' st) = set_storage m st.
Proof. done. Qed.

Lemma is_set_insert_ne k k' v st :
  k ≠ k' → is_set (set_storage (<[k:=v]> (storage st)) st) k' = is_set st k'.
Proof. intros Hne. unfold is_set. simpl. by rewrite lookup_insert_ne. Qed.

Lemma has_keys_insert names k v st :
  has_keys names st →
  has_keys names (set_storage (<[k:=v]> (storage st)) st).
Proof.
  unfold has_keys. intros Hks. eapply Forall_impl; [exact Hks|].
  intros k' Hk'. simpl. destruct (decide (k = k')) as [->|Hne].
  - rewrite lookup_insert_eq. eauto.
  - by rewrite lookup_insert_ne.
Qed.
End UpdateLambdaSteps.

Section MissingEigenvectors.
Context {R : Type} `{Scalar R} {Raw : Type}.
Context (module : TrackedModule R Raw) (env : Env R).
Implicit Types (st : Tracker R Raw) (p : Tensor (Batch R)).

(** C1, amended: under a strategy that requires the eigendecomposition,
    the first Lambda update (count still None) with an eigenvector set
    absent raises [FactorsNotFoundError] with the message naming the
    strategy; nothing is accumulated, and the Lambda factors are left
    allocated as a zero matrix and a zero count, every other entry and the
    caches as they were. *)
Theorem update_lambda_without_eigenvectors p aliases st :
  requires_eigendecomposition_for_lambda env (strategy (factor_args module))
    = true →
  storage st !! NUM_LAMBDA_PROCESSED = Some None →
  has_keys EIGENDECOMPOSITION_FACTOR_NAMES st →
  is_set st ACTIVATION_EIGENVECTORS_NAME = false
    ∨ is_set st GRADIENT_EIGENVECTORS_NAME = false →
  _update_lambda_matrix module env p aliases st
  = (Raise (FactorsNotFoundError
              (not_found_message (strategy (factor_args module)))),
     set_storage
       (<[LAMBDA_MATRIX_NAME :=
            Some (VTensor (zeros (brows (data p)) (bcols (data p))
                             (dtype p)))]>
          (<[NUM_LAMBDA_PROCESSED := Some (VCount 0)]> (storage st))) st).
Proof.
  intros Hreq Hnum Hkeys Hmiss. unfold _update_lambda_matrix.
  rewrite Hreq.
  erewrite bind_Ok; [|by apply storage_get_Some].
  apply bind_Raise. unfold storage_set at 1 2.
  unfold bind at 1. unfold bind at 1.
  unfold _eigendecomposition_results_exist.
  erewrite bind_Ok;
    [|apply all_present_spec; by do 2 apply has_keys_insert].
  rewrite set_storage_twice.
  replace (forallb _ _) with false; [done|].
  symmetry. apply not_true_is_false. intros Hall.
  cbn [forallb EIGENDECOMPOSITION_FACTOR_NAMES] in Hall.
  apply andb_true_iff in Hall as [Ha [Hg _]%andb_true_iff].
  unfold is_set in Ha, Hg, Hmiss. simpl in Ha, Hg.
  rewrite !lookup_insert_ne in Ha by done.
  rewrite !lookup_insert_ne in Hg by done.
  destruct Hmiss as [Hm|Hm]; congruence.
Qed.
End MissingEigenvectors.

(** * Iterative and batched aggregation *)

Section Aggregation.
Context {R : Type} `{Scalar R} {Raw : Type}.
Implicit Types (st : Tracker R Raw) (p : Tensor (Batch R))
  (A G L : Tensor (Matrix R)).

Lemma storage_add_Some k L other r c st :
  storage st !! k = Some (Some (VTensor L)) →
  has_shape r c (data L) →
  has_shape r c (data other) →
  storage_add_ k other st
  = (Ok tt,
     set_storage
       (<[k := Some (VTensor
                       (mkTensor (dtype L)
                          (mkMatrix (ncols (data L))
                             (madd (mrows (data L))
                                (mrows (data other))))))]>
          (storage st)) st).
Proof.
  intros Hk (Hr & Hc & Hwf) (Hr' & Hc' & Hwf'). unfold storage_add_.
  erewrite bind_Ok; [|by apply storage_matrix_Some].
  unfold bind, lift, add_. unfold nrows in *.
  rewrite broadcast_matrix_same; [done|congruence|].
  unfold matrix_wf in Hwf'. congruence.
Qed.

Lemma sq_proj_shape G r c s :
  has_shape r r (data G) → rows_wf c s →
  has_shape r c
    (mkMatrix c
       (msquare (mm (transpose (ncols (data G)) (mrows (data G))) s c))).
Proof.
  intros (Hr & Hc & Hwf) Hs. unfold has_shape, nrows, matrix_wf. simpl.
  split; [|split; [done|]].
  - rewrite length_msquare, length_mm, length_transpose; [done..|].
    done.
  - by apply rows_wf_msquare, rows_wf_mm.
Qed.

Lemma iterative_loop G L proj done todo r c st :
  storage st !! GRADIENT_EIGENVECTORS_NAME = Some (Some (VTensor G)) →
  storage st !! LAMBDA_MATRIX_NAME = Some (Some (VTensor L)) →
  samples (data proj) = done ++ todo →
  dtype G = dtype proj → bcols (data proj) = c →
  has_shape r r (data G) → has_shape r c (data L) →
  Forall (λ s, length s = r ∧ rows_wf c s) todo →
  for_each (seq (length done) (length todo)) (λ i,
    bind (storage_matrix GRADIENT_EIGENVECTORS_NAME) (λ g,
    bind (lift (index proj i)) (λ q,
    bind (lift (matmul (t_ g) q)) (λ sqrt_lambda,
    storage_add_ LAMBDA_MATRIX_NAME (square_ sqrt_lambda))))) st
  = (Ok tt,
     set_storage
       (<[LAMBDA_MATRIX_NAME :=
            Some (VTensor
                    (mkTensor (dtype L)
                       (mkMatrix (ncols (data L))
                          (foldl madd (mrows (data L))
                             ((λ s, msquare
                                      (mm (transpose (ncols (data G))
                                             (mrows (data G))) s c))
                                <$> todo)))))]>
          (storage st)) st).
Proof.
  intros HG HL Hsamples Hdt <- HGs HLs Htodo.
  revert done L st HG HL Hsamples HLs.
  induction Htodo as [|s todo [Hs Hswf] _ IH];
    intros done L st HG HL Hsamples HLs.
  - simpl. destruct L as [dt [c' rows]]. simpl in *.
    rewrite insert_id; [|done]. by rewrite set_storage_id.
  - cbn [length seq for_each fmap list_fmap foldl].
    erewrite bind_Ok; cycle 1.
    { erewrite bind_Ok; [|by apply storage_matrix_Some].
      unfold index. rewrite Hsamples, list_lookup_middle; [|done].
      unfold bind at 1, lift at 1.
      unfold matmul. rewrite decide_True; cycle 1.
      { destruct HGs as (HGr & _). unfold t_, nrows in *. simpl.
        split; [done|congruence]. }
      unfold bind at 1, lift at 1.
      eapply storage_add_Some; [exact HL|exact HLs|].
      simpl. by apply sq_proj_shape. }
    set (L2 := mkTensor (dtype L) _).
    specialize (IH (done ++ [s]) L2
      (set_storage (<[LAMBDA_MATRIX_NAME := Some (VTensor L2)]> (storage st))
         st)).
    rewrite length_app, Nat.add_1_r in IH.
    rewrite IH; clear IH.
    + rewrite storage_set_storage, set_storage_twice, insert_insert_eq.
      by subst L2.
    + by rewrite storage_set_storage, lookup_insert_ne.
    + by rewrite storage_set_storage, lookup_insert_eq.
    + by rewrite <-app_assoc.
    + destruct HLs as (HLr & HLc & HLwf).
      destruct (sq_proj_shape G r _ s HGs Hswf) as (Hqr & _ & Hqwf).
      unfold has_shape, nrows, matrix_wf in *. subst L2. simpl in *.
      split; [by apply length_madd|]. split; [done|].
      rewrite HLc in *. by apply rows_wf_madd.
Qed.

Lemma projected_shape A r c (ss : list (list (list R))) :
  has_shape c c (data A) →
  Forall (λ s, length s = r ∧ rows_wf c s) ss →
  Forall (λ s, length s = r ∧ rows_wf c s)
    ((λ s, mm s (mrows (data A)) c) <$> ss).
Proof.
  intros (HAr & HAc & HAwf) Hss. apply Forall_fmap.
  eapply Forall_impl; [exact Hss|]. intros s [Hs Hwf]. simpl.
  split; [by rewrite length_mm|]. apply rows_wf_mm.
  unfold matrix_wf in HAwf. congruence.
Qed.

Lemma squared_shape G r c (ss : list (list (list R))) :
  has_shape r r (data G) →
  Forall (λ s, length s = r ∧ rows_wf c s) ss →
  Forall (λ s, length s = r ∧ rows_wf c s)
    ((λ s, msquare (mm (transpose (ncols (data G)) (mrows (data G))) s c))
       <$> ss).
Proof.
  intros HG Hss. apply Forall_fmap.
  eapply Forall_impl; [exact Hss|]. intros s [Hs Hwf]. simpl.
  destruct (sq_proj_shape G r c s HG Hwf) as (Hr & _ & Hwf'). done.
Qed.

(** Both branches of the accumulation add [lambda_increment] to the
    Lambda matrix. *)
Lemma accumulate_in_eigenbasis_spec A G L p r c st iterative :
  storage st !! ACTIVATION_EIGENVECTORS_NAME = Some (Some (VTensor A)) →
  storage st !! GRADIENT_EIGENVECTORS_NAME = Some (Some (VTensor G)) →
  storage st !! LAMBDA_MATRIX_NAME = Some (Some (VTensor L)) →
  dtype A = dtype p → dtype G = dtype p →
  batch_has_shape r c (data p) →
  has_shape c c (data A) → has_shape r r (data G) →
  has_shape r c (data L) →
  accumulate_in_eigenbasis iterative p st
  = (Ok tt,
     set_storage
       (<[LAMBDA_MATRIX_NAME :=
            Some (VTensor
                    (mkTensor (dtype L)
                       (mkMatrix (ncols (data L))
                          (madd (mrows (data L))
                             (lambda_increment (data A) (data G)
                                (data p))))))]>
          (storage st)) st).
Proof.
  intros HA HG HL HdA HdG (Hpr & Hpc & Hpwf) HAs HGs HLs.
  pose proof HAs as (HAr & HAc & HAwf).
  pose proof HGs as (HGr & HGc & HGwf).
  pose proof HLs as (HLr & HLc & HLwf).
  unfold batch_wf in Hpwf. rewrite Hpr, Hpc in Hpwf.
  assert (lambda_increment (data A) (data G) (data p)
          = foldr madd (mzeros r c)
              ((λ s, msquare (mm (transpose (ncols (data G))
                                    (mrows (data G))) s c))
                 <$> ((λ s, mm s (mrows (data A)) c) <$> samples (data p))))
    as Hinc.
  { unfold lambda_increment. rewrite HGc, HAc.
    by rewrite <-list_fmap_compose. }
  pose proof (projected_shape A r c _ HAs Hpwf) as Hproj.
  pose proof (squared_shape G r c _ HGs Hproj) as Hsq.
  unfold accumulate_in_eigenbasis. destruct iterative.
  - erewrite bind_Ok; [|by apply storage_operand_Some].
    unfold matmul_batch_r. rewrite decide_True; cycle 1.
    { unfold nrows in *. split; congruence. }
    unfold bind at 1, lift at 1.
    set (proj := mkTensor (dtype p) _).
    unfold batch_size.
    replace (length (samples (data p)))
      with (length (samples (data proj)))
      by (subst proj; simpl; apply length_fmap).
    etrans;
      [apply (iterative_loop G L proj [] (samples (data proj)) r c st);
       try done|].
    + subst proj. simpl. by rewrite HAc.
    + do 6 f_equal. rewrite Hinc. subst proj. simpl. rewrite HAc.
      unfold matrix_wf in HLwf. rewrite HLc in HLwf.
      f_equal. by apply foldl_madd_msum.
  - erewrite bind_Ok; [|by apply storage_matrix_Some].
    erewrite bind_Ok; [|by apply storage_operand_Some].
    unfold matmul_batch_r. rewrite decide_True; cycle 1.
    { unfold nrows in *. split; congruence. }
    unfold bind at 1, lift at 1.
    unfold matmul_batch_l. rewrite decide_True; cycle 1.
    { unfold t_, nrows in *. simpl. split; congruence. }
    unfold bind at 1, lift at 1.
    erewrite (storage_add_Some _ L _ r c); [| done | done |].
    + do 6 f_equal. rewrite Hinc. unfold t_, nrows. simpl.
      rewrite length_transpose; [|done]. rewrite HGc, HAc.
      by rewrite <-list_fmap_compose.
    + unfold has_shape, nrows, matrix_wf, t_. simpl.
      rewrite length_transpose; [|done]. rewrite HGc, HAc.
      rewrite <-list_fmap_compose.
      destruct (msum_shape r c _ Hsq) as [Hl Hwf].
      rewrite HGc in Hl, Hwf. done.
Qed.
End Aggregation.

Section IterativeVsBatched.
Context {R : Type} `{Scalar R} {Raw : Type}.
Context (module : TrackedModule R Raw) (env : Env R).
Implicit Types (st : Tracker R Raw) (p : Tensor (Batch R))
  (A G L : Tensor (Matrix R)).

Lemma wrap_int64_id z : in_int64 z = true → wrap_int64 z = z.
Proof.
  unfold in_int64, wrap_int64, int64_min, int64_max.
  intros [Hlo Hhi]%andb_true_iff.
  apply Z.leb_le in Hlo, Hhi. rewrite Z.mod_small; lia.
Qed.

Ltac lookup_tac :=
  rewrite ?storage_set_storage;
  repeat (rewrite lookup_insert_eq || rewrite lookup_insert_ne by done);
  try done.

(** The whole update, for either value of the flag. *)
Lemma update_lambda_in_eigenbasis iterative p aliases st r c A G n L :
  requires_eigendecomposition_for_lambda env (strategy (factor_args module))
    = true →
  batch_has_shape r c (data p) →
  storage st !! ACTIVATION_EIGENVECTORS_NAME = Some (Some (VTensor A)) →
  has_shape c c (data A) →
  storage st !! GRADIENT_EIGENVECTORS_NAME = Some (Some (VTensor G)) →
  has_shape r r (data G) →
  lambda_before r c (dtype p) st = Some (n, L) →
  has_shape r c (data L) →
  (storage st !! NUM_LAMBDA_PROCESSED ≠ Some None →
     dtype A = dtype p ∧ dtype G = dtype p) →
  in_int64 (Z.of_nat (batch_size (data p))) = true →
  in_int64 (n + Z.of_nat (batch_size (data p))) = true →
  ∃ st',
    _update_lambda_matrix (with_iterative iterative module) env p aliases st
    = (Ok tt, st')
    ∧ st' = set_storage
        (<[LAMBDA_MATRIX_NAME :=
             Some (VTensor
                     (mkTensor (dtype L)
                        (mkMatrix (ncols (data L))
                           (madd (mrows (data L))
                              (lambda_increment (data A) (data G)
                                 (data p))))))]>
           (<[NUM_LAMBDA_PROCESSED :=
                Some (VCount (n + Z.of_nat (batch_size (data p))))]>
              (match storage st !! NUM_LAMBDA_PROCESSED with
               | Some None =>
                   <[GRADIENT_EIGENVECTORS_NAME :=
                       Some (VTensor (to_dtype (dtype p) G))]>
                   (<[ACTIVATION_EIGENVECTORS_NAME :=
                        Some (VTensor (to_dtype (dtype p) A))]>
                    (<[LAMBDA_MATRIX_NAME := Some (VTensor L)]>
                     (<[NUM_LAMBDA_PROCESSED := Some (VCount 0)]>
                        (storage st))))
               | _ => storage st
               end))) st.
Proof.
  intros Hreq Hp HA HAs HG HGs Hbefore HLs Hdt Hb Hnb.
  eexists. split; [|reflexivity].
  unfold _update_lambda_matrix. cbn [with_iterative factor_args strategy
    use_iterative_lambda_aggregation]. rewrite Hreq.
  unfold lambda_before in Hbefore.
  destruct (storage st !! NUM_LAMBDA_PROCESSED) as [[[n0|?]|]|] eqn:Hnum;
    [| done | | done].
  - (* the factors are allocated *)
    destruct (storage st !! LAMBDA_MATRIX_NAME) as [[[?|L0]|]|] eqn:Hlam;
      try done.
    injection Hbefore as -> ->.
    destruct Hdt as [HdA HdG]; [done|].
    erewrite bind_Ok; [|by apply storage_get_Some].
    unfold bind at 1, ret at 1.
    erewrite bind_Ok; [|by apply storage_count_add_Some].
    rewrite (wrap_int64_id _ Hnb).
    etrans; [apply (accumulate_in_eigenbasis_spec A G L p r c);
             lookup_tac|].
    by rewrite storage_set_storage, set_storage_twice.
  - (* first update: lazy allocation *)
    destruct (storage st !! LAMBDA_MATRIX_NAME) as [lam|] eqn:Hlam;
      [|done].
    injection Hbefore as <- <-.
    erewrite bind_Ok; [|by apply storage_get_Some].
    erewrite bind_Ok; cycle 1.
    { unfold storage_set at 1 2. unfold bind at 1. unfold bind at 1.
      unfold _eigendecomposition_results_exist.
      erewrite bind_Ok; cycle 1.
      { apply all_present_spec. do 2 apply has_keys_insert.
        repeat constructor; eauto. }
      replace (forallb _ _) with true; cycle 1.
      { symmetry. cbn [forallb EIGENDECOMPOSITION_FACTOR_NAMES].
        unfold is_set. lookup_tac. by rewrite HA, HG. }
      unfold bind at 1, ret at 1.
      erewrite bind_Ok; [|apply storage_matrix_Some; lookup_tac].
      unfold storage_set at 1. unfold bind at 1.
      erewrite bind_Ok; [|apply storage_matrix_Some; lookup_tac].
      reflexivity. }
    erewrite bind_Ok; cycle 1.
    { apply storage_count_add_Some; [lookup_tac|done]. }
    rewrite (wrap_int64_id _ Hnb).
    etrans;
      [apply (accumulate_in_eigenbasis_spec (to_dtype (dtype p) A)
                (to_dtype (dtype p) G) (zeros r c (dtype p)) p r c);
       lookup_tac|].
    + destruct Hp as (-> & -> & _). lookup_tac.
    + rewrite !storage_set_storage, !set_storage_twice.
      by destruct Hp as (-> & -> & _).
Qed.

(** C2: under a strategy that requires the eigendecomposition, with both
    eigenvector matrices in the storage and shapes that fit (gradient
    batch (b, r, c), activation eigenvectors (c, c), gradient eigenvectors
    (r, r), Lambda matrix (r, c) or not allocated yet), the update with
    [use_iterative_lambda_aggregation] set returns normally in the very
    state that the update with the flag cleared reaches: the count is
    incremented by the batch size and the Lambda matrix by the sum over the
    samples of the squared projections. *)
Theorem lambda_iterative_agrees_with_batched p aliases st r c A G n L :
  requires_eigendecomposition_for_lambda env (strategy (factor_args module))
    = true →
  batch_has_shape r c (data p) →
  storage st !! ACTIVATION_EIGENVECTORS_NAME = Some (Some (VTensor A)) →
  has_shape c c (data A) →
  storage st !! GRADIENT_EIGENVECTORS_NAME = Some (Some (VTensor G)) →
  has_shape r r (data G) →
  lambda_before r c (dtype p) st = Some (n, L) →
  has_shape r c (data L) →
  (storage st !! NUM_LAMBDA_PROCESSED ≠ Some None →
     dtype A = dtype p ∧ dtype G = dtype p) →
  in_int64 (Z.of_nat (batch_size (data p))) = true →
  in_int64 (n + Z.of_nat (batch_size (data p))) = true →
  ∃ st',
    _update_lambda_matrix (with_iterative true module) env p aliases st
    = (Ok tt, st')
    ∧ _update_lambda_matrix (with_iterative false module) env p aliases st
      = (Ok tt, st')
    ∧ storage st' !! NUM_LAMBDA_PROCESSED
      = Some (Some (VCount (n + Z.of_nat (batch_size (data p)))))
    ∧ storage st' !! LAMBDA_MATRIX_NAME
      = Some (Some (VTensor
                      (mkTensor (dtype L)
                         (mkMatrix c
                            (madd (mrows (data L))
                               (lambda_increment (data A) (data G)
                                  (data p))))))).
Proof.
  intros Hreq Hp HA HAs HG HGs Hbefore HLs Hdt Hb Hnb.
  destruct (update_lambda_in_eigenbasis true p aliases st r c A G n L)
    as (st1 & Hrun1 & Hst1); try done.
  destruct (update_lambda_in_eigenbasis false p aliases st r c A G n L)
    as (st2 & Hrun2 & Hst2); try done.
  exists st1. split; [done|]. split; [congruence|].
  rewrite Hst1. destruct HLs as (_ & -> & _). split; lookup_tac.
Qed.
End IterativeVsBatched.

(** * Covariance accumulation *)

Section CovarianceSteps.
Context {R : Type} `{Scalar R} {Raw : Type}.
Implicit Types (st : Tracker R Raw) (x : Tensor (Matrix R))
  (xs : list (Tensor (Matrix R) * Z)).

Lemma zsum_app l1 l2 : zsum (l1 ++ l2) = (zsum l1 + zsum l2)%Z.
Proof. unfold zsum. induction l1 as [|z l1 IH]; simpl; lia. Qed.

Lemma zsum_nonneg l : Forall (λ z, (0 ≤ z)%Z) l → (0 ≤ zsum l)%Z.
Proof. unfold zsum. induction 1; simpl; lia. Qed.

Lemma batches_ok_counts dt d xs :
  batches_ok dt d xs → Forall (λ z, (0 ≤ z)%Z) (snd <$> xs).
Proof.
  intros [Hxs _]. apply Forall_fmap. eapply Forall_impl; [exact Hxs|].
  by intros xc (_ & _ & _ & ?).
Qed.

Lemma batches_ok_prefix dt d xs ys :
  batches_ok dt d (xs ++ ys) → batches_ok dt d xs.
Proof.
  intros Hok. pose proof (batches_ok_counts _ _ _ Hok) as Hnn.
  destruct Hok as [Hall Hsum].
  apply Forall_app in Hall as [Hxs Hys]. split; [done|].
  rewrite fmap_app in Hsum, Hnn. rewrite zsum_app in Hsum.
  apply Forall_app in Hnn as [_ Hnn]. apply zsum_nonneg in Hnn. lia.
Qed.

Lemma msum_snoc d (gs : list (list (list R))) g :
  Forall (λ s, length s = d ∧ rows_wf d s) gs →
  length g = d → rows_wf d g →
  foldr madd (mzeros d d) (gs ++ [g])
  = madd (foldr madd (mzeros d d) gs) g.
Proof.
  intros Hgs Hg Hwf. induction Hgs as [|s gs [Hs Hswf] _ IH]; simpl.
  - rewrite madd_zeros_r, madd_zeros_l; done.
  - by rewrite IH, madd_assoc.
Qed.

Lemma grams_shape dt d xs :
  batches_ok dt d xs →
  Forall (λ s, length s = d ∧ rows_wf d s)
    ((λ xc, gram d (mrows (data xc.1))) <$> xs).
Proof.
  intros [Hxs _]. apply Forall_fmap. eapply Forall_impl; [exact Hxs|].
  intros [x c] (_ & Hd & Hwf & _). simpl in *. apply gram_shape.
  unfold matrix_wf in Hwf. by rewrite Hd in Hwf.
Qed.

Lemma covariance_after_snoc dt d x0 c0 xs x c :
  batches_ok dt d (((x0, c0) :: xs) ++ [(x, c)]) →
  covariance_after (((x0, c0) :: xs) ++ [(x, c)])
  = Some (VTensor
            (mkTensor dt
               (mkMatrix d
                  (madd
                     (foldr madd (mzeros d d)
                        ((λ xc, gram d (mrows (data xc.1)))
                           <$> (x0, c0) :: xs))
                     (gram d (mrows (data x))))))).
Proof.
  intros Hok. pose proof (batches_ok_prefix _ _ _ _ Hok) as Hok0.
  pose proof (grams_shape _ _ _ Hok0) as Hshape.
  destruct Hok as [Hall _]. apply Forall_app in Hall as [Hall Hx].
  apply Forall_cons in Hall as [(Hdt0 & Hd0 & _) _].
  apply Forall_cons in Hx as [(_ & Hd & Hwf & _) _].
  simpl in Hdt0, Hd0, Hd, Hwf.
  unfold matrix_wf in Hwf. rewrite Hd in Hwf.
  destruct (gram_shape d _ Hwf) as [Hl Hg].
  cbn [covariance_after app fst]. rewrite Hdt0, Hd0. do 4 f_equal.
  rewrite app_comm_cons, fmap_app.
  apply (msum_snoc d _ _ Hshape Hl Hg).
Qed.

Lemma addmm_gram self x d :
  dtype self = dtype x → has_shape d d (data self) →
  ncols (data x) = d → matrix_wf (data x) →
  addmm_ self (t_ x) x
  = Ok (mkTensor (dtype self)
          (mkMatrix d (madd (mrows (data self))
                         (gram d (mrows (data x)))))).
Proof.
  intros Hdt (Hr & Hc & Hwf) Hd Hx. unfold addmm_.
  unfold matrix_wf in Hx. rewrite Hd in Hx.
  rewrite decide_True; cycle 1.
  { unfold t_, nrows in *. simpl. rewrite Hd, length_transpose by done.
    done. }
  unfold t_, gram. simpl. by rewrite Hc, Hd.
Qed.

Lemma update_covariance_step num mat dt d xs x c st :
  num ≠ mat →
  storage st !! num = Some (count_after xs) →
  storage st !! mat = Some (covariance_after xs) →
  batches_ok dt d (xs ++ [(x, c)]) →
  update_covariance num mat x c st
  = (Ok tt,
     set_storage
       (<[mat := covariance_after (xs ++ [(x, c)])]>
          (<[num := count_after (xs ++ [(x, c)])]> (storage st))) st).
Proof.
  intros Hne Hnum Hmat Hok.
  pose proof (batches_ok_counts _ _ _ Hok) as Hnn.
  pose proof (batches_ok_prefix _ _ _ _ Hok) as Hok0.
  pose proof (grams_shape _ _ _ Hok0) as Hshape.
  pose proof Hok as [Hall Hsum].
  rewrite fmap_app in Hnn, Hsum. rewrite zsum_app in Hsum.
  apply Forall_app in Hnn as [Hnn0 [Hc _]%Forall_cons].
  apply zsum_nonneg in Hnn0.
  apply Forall_app in Hall as [Hall0 [(Hdt & Hd & Hwf & _) _]%Forall_cons].
  simpl in Hdt, Hd, Hwf, Hc. unfold zsum at 2 in Hsum. simpl in Hsum.
  assert (in_int64 c = true) as Hcr.
  { unfold in_int64, int64_min, int64_max in *.
    apply andb_true_iff. split; apply Z.leb_le; lia. }
  assert (in_int64 (zsum (snd <$> xs) + c) = true) as Hncr.
  { unfold in_int64, int64_min, int64_max in *.
    apply andb_true_iff. split; apply Z.leb_le; lia. }
  unfold update_covariance.
  erewrite bind_Ok; [|by apply storage_get_Some].
  destruct xs as [|[x0 c0] xs].
  - (* first firing: lazy allocation *)
    cbn [count_after covariance_after] in *.
    unfold storage_set at 1 2. unfold bind at 1. unfold bind at 1.
    erewrite bind_Ok; cycle 1.
    { apply (storage_count_add_Some _ 0); [|done].
      rewrite !storage_set_storage.
      rewrite lookup_insert_ne by done. by rewrite lookup_insert_eq. }
    erewrite bind_Ok; cycle 1.
    { apply storage_matrix_Some. rewrite !storage_set_storage.
      rewrite lookup_insert_ne by done. by rewrite lookup_insert_eq. }
    rewrite (addmm_gram _ x d); try done; cycle 1.
    { unfold has_shape, nrows, matrix_wf, zeros. simpl. rewrite Hd.
      split; [apply length_mzeros|]. split; [done|apply rows_wf_mzeros]. }
    unfold bind at 1, lift at 1. unfold storage_set.
    rewrite !storage_set_storage, !set_storage_twice. do 2 f_equal.
    rewrite wrap_int64_id by done.
    simpl. rewrite Hd. unfold zsum. simpl. rewrite Z.add_0_r.
    rewrite madd_comm.
    apply map_eq. intros k.
    repeat (rewrite lookup_insert; case_decide; subst); done.
  - (* later firings *)
    rewrite (covariance_after_snoc dt d) by done.
    rewrite <-app_comm_cons. cbn [count_after].
    cbn [count_after covariance_after] in Hnum, Hmat.
    unfold bind at 1, ret at 1.
    erewrite bind_Ok; [|by apply storage_count_add_Some].
    erewrite bind_Ok; cycle 1.
    { apply storage_matrix_Some. rewrite !storage_set_storage.
      by rewrite lookup_insert_ne. }
    apply Forall_cons in Hall0 as [(Hdt0 & Hd0 & Hwf0 & _) _].
    simpl in Hdt0, Hd0, Hwf0.
    destruct (msum_shape d d _ Hshape) as [Hl Hrows].
    rewrite (addmm_gram _ x d); try done; cycle 1.
    { simpl. congruence. }
    { unfold has_shape, nrows, matrix_wf. simpl. by rewrite Hd0. }
    unfold bind at 1, lift at 1. unfold storage_set.
    rewrite !storage_set_storage, !set_storage_twice. do 2 f_equal.
    rewrite wrap_int64_id by done.
    rewrite app_comm_cons, fmap_app, zsum_app. simpl.
    unfold zsum at 2. simpl. rewrite Z.add_0_r. rewrite Hdt0, Hd0. done.
Qed.
End CovarianceSteps.

Section CovarianceTheorem.
Context {R : Type} `{Scalar R} {Raw : Type}.
Context (module : TrackedModule R Raw).
Implicit Types (st : Tracker R Raw) (fs : list (Firing Raw)).

Lemma activation_update_eq a st :
  _update_activation_covariance_matrix module a st
  = update_covariance NUM_ACTIVATION_COVARIANCE_PROCESSED
      ACTIVATION_COVARIANCE_MATRIX_NAME
      (get_flattened_activation module a).1
      (get_flattened_activation module a).2 st.
Proof.
  unfold _update_activation_covariance_matrix, update_covariance.
  by destruct (get_flattened_activation module a).
Qed.

Lemma gradient_update_eq g st :
  _update_gradient_covariance_matrix module g st
  = update_covariance NUM_GRADIENT_COVARIANCE_PROCESSED
      GRADIENT_COVARIANCE_MATRIX_NAME
      (get_flattened_gradient module g).1
      (get_flattened_gradient module g).2 st.
Proof.
  unfold _update_gradient_covariance_matrix, update_covariance.
  by destruct (get_flattened_gradient module g).
Qed.

Lemma flattened_activations_forward a fs :
  flattened_activations module (forward_firing a :: fs)
  = get_flattened_activation module
      (to_dtype (activation_covariance_dtype (factor_args module)) a)
    :: flattened_activations module fs.
Proof. done. Qed.

Lemma flattened_activations_backward g fs :
  flattened_activations module (backward_firing g :: fs)
  = flattened_activations module fs.
Proof. done. Qed.

Lemma flattened_gradients_forward a fs :
  flattened_gradients module (forward_firing a :: fs)
  = flattened_gradients module fs.
Proof. done. Qed.

Lemma flattened_gradients_backward g fs :
  flattened_gradients module (backward_firing g :: fs)
  = get_flattened_gradient module
      (_scale_output_gradient module g
         (gradient_covariance_dtype (factor_args module)))
    :: flattened_gradients module fs.
Proof. done. Qed.

Lemma run_firings dta da dtg dg fs : ∀ acts grads st,
  storage st !! NUM_ACTIVATION_COVARIANCE_PROCESSED
    = Some (count_after acts) →
  storage st !! ACTIVATION_COVARIANCE_MATRIX_NAME
    = Some (covariance_after acts) →
  storage st !! NUM_GRADIENT_COVARIANCE_PROCESSED
    = Some (count_after grads) →
  storage st !! GRADIENT_COVARIANCE_MATRIX_NAME
    = Some (covariance_after grads) →
  batches_ok dta da (acts ++ flattened_activations module fs) →
  batches_ok dtg dg (grads ++ flattened_gradients module fs) →
  ∃ st', for_each fs (fire_covariance module) st = (Ok tt, st')
    ∧ storage st' !! NUM_ACTIVATION_COVARIANCE_PROCESSED
      = Some (count_after (acts ++ flattened_activations module fs))
    ∧ storage st' !! ACTIVATION_COVARIANCE_MATRIX_NAME
      = Some (covariance_after (acts ++ flattened_activations module fs))
    ∧ storage st' !! NUM_GRADIENT_COVARIANCE_PROCESSED
      = Some (count_after (grads ++ flattened_gradients module fs))
    ∧ storage st' !! GRADIENT_COVARIANCE_MATRIX_NAME
      = Some (covariance_after (grads ++ flattened_gradients module fs)).
Proof.
  induction fs as [|f fs IH]; intros acts grads st Hna Hma Hng Hmg Hoa Hog.
  - exists st. unfold flattened_activations, flattened_gradients. simpl.
    by rewrite !app_nil_r.
  - destruct f as [a|g].
    + rewrite flattened_activations_forward in Hoa |- *.
      rewrite flattened_gradients_forward in Hog |- *.
      set (xc := get_flattened_activation module _) in *.
      rewrite cons_middle, app_assoc in Hoa |- *.
      pose proof (batches_ok_prefix _ _ _ _ Hoa) as Hstep.
      destruct xc as [x c] eqn:Hxc.
      edestruct (IH (acts ++ [(x, c)]) grads) as (st' & Hrun & Hres);
        [..|exact Hoa|exact Hog|].
      5: { exists st'. split; [|exact Hres].
           cbn [for_each fire_covariance]. unfold covariance_forward_hook.
           erewrite bind_Ok; [exact Hrun|].
           erewrite bind_Ok; [reflexivity|].
           erewrite bind_Ok; [reflexivity|].
           rewrite activation_update_eq. fold xc. rewrite Hxc. simpl.
           by eapply update_covariance_step. }
      all: rewrite storage_set_storage.
      * rewrite lookup_insert_ne by done. by rewrite lookup_insert_eq.
      * by rewrite lookup_insert_eq.
      * by rewrite !lookup_insert_ne.
      * by rewrite !lookup_insert_ne.
    + rewrite flattened_activations_backward in Hoa |- *.
      rewrite flattened_gradients_backward in Hog |- *.
      set (xc := get_flattened_gradient module _) in *.
      rewrite cons_middle, app_assoc in Hog |- *.
      pose proof (batches_ok_prefix _ _ _ _ Hog) as Hstep.
      destruct xc as [x c] eqn:Hxc.
      edestruct (IH acts (grads ++ [(x, c)])) as (st' & Hrun & Hres);
        [..|exact Hoa|exact Hog|].
      5: { exists st'. split; [|exact Hres].
           cbn [for_each fire_covariance]. unfold covariance_backward_hook.
           erewrite bind_Ok; [exact Hrun|].
           rewrite gradient_update_eq. fold xc. rewrite Hxc. simpl.
           by eapply update_covariance_step. }
      all: rewrite storage_set_storage.
      * by rewrite !lookup_insert_ne.
      * by rewrite !lookup_insert_ne.
      * rewrite lookup_insert_ne by done. by rewrite lookup_insert_eq.
      * by rewrite lookup_insert_eq.
Qed.
Lemma batches_rows_wf dt d (xs : list (Tensor (Matrix R) * Z)) :
  batches_ok dt d xs →
  Forall (rows_wf d) ((λ xc, mrows (data xc.1)) <$> xs).
Proof.
  intros [Hxs _]. apply Forall_fmap. eapply Forall_impl; [exact Hxs|].
  intros [x c] (_ & Hd & Hwf & _). simpl in *.
  unfold matrix_wf in Hwf. by rewrite Hd in Hwf.
Qed.

Lemma grams_of_batches d (xs : list (Tensor (Matrix R) * Z)) :
  (λ xc, gram d (mrows (data xc.1))) <$> xs
  = gram d <$> ((λ xc, mrows (data xc.1)) <$> xs).
Proof. by rewrite <-list_fmap_compose. Qed.

(** C4: without parameter sharing, from a storage whose covariance factors
    are all None and for any sequence of forward and backward firings
    (flattened batches of one dtype and width per side, non-negative
    element counts whose totals fit in an int64), the run returns
    normally; the activation covariance is the sum of [x^T x] over the
    flattened activations and its count the sum of their element counts;
    the gradient covariance and its own count are the same sums over the
    flattened gradients; and each sum is the Gram matrix of all the rows
    processed, whatever the split into batches. *)
Theorem covariance_is_sum_over_firings dta da dtg dg fs st :
  (∀ k, k ∈ COVARIANCE_FACTOR_NAMES → storage st !! k = Some None) →
  batches_ok dta da (flattened_activations module fs) →
  batches_ok dtg dg (flattened_gradients module fs) →
  ∃ st', for_each fs (fire_covariance module) st = (Ok tt, st')
    ∧ storage st' !! ACTIVATION_COVARIANCE_MATRIX_NAME
      = Some (covariance_after (flattened_activations module fs))
    ∧ storage st' !! NUM_ACTIVATION_COVARIANCE_PROCESSED
      = Some (count_after (flattened_activations module fs))
    ∧ storage st' !! GRADIENT_COVARIANCE_MATRIX_NAME
      = Some (covariance_after (flattened_gradients module fs))
    ∧ storage st' !! NUM_GRADIENT_COVARIANCE_PROCESSED
      = Some (count_after (flattened_gradients module fs))
    ∧ foldr madd (mzeros da da)
        ((λ xc, gram da (mrows (data xc.1)))
           <$> flattened_activations module fs)
      = gram da (concat ((λ xc, mrows (data xc.1))
                           <$> flattened_activations module fs))
    ∧ foldr madd (mzeros dg dg)
        ((λ xc, gram dg (mrows (data xc.1)))
           <$> flattened_gradients module fs)
      = gram dg (concat ((λ xc, mrows (data xc.1))
                           <$> flattened_gradients module fs)).
Proof.
  intros Hnone Hoa Hog.
  destruct (run_firings dta da dtg dg fs [] [] st)
    as (st' & Hrun & Hna & Hma & Hng & Hmg); try done.
  1-4: apply Hnone; compute_done.
  exists st'. repeat (split; [done|]). split.
  - rewrite grams_of_batches. apply msum_gram_concat.
    by eapply batches_rows_wf.
  - rewrite grams_of_batches. apply msum_gram_concat.
    by eapply batches_rows_wf.
Qed.
End CovarianceTheorem.

(** * Shared parameters: last-in-first-out pairing *)

Section SharedPassProofs.
Context {R : Type} `{Scalar R} {Raw : Type}.
Context (module : TrackedModule R Raw) (env : Env R).
Implicit Types (st : Tracker R Raw) (a g : Tensor Raw)
  (l acts grads : list (Tensor Raw)).

Hypothesis shared : has_shared_parameters (factor_args module) = true.

Lemma forward_pass_spec acts : ∀ l st,
  cached_activations st = Some (Activations l) →
  forward_pass module acts st
  = (Ok (replicate (length acts) shared_backward_hook_id),
     mkTracker (storage st)
       (Some (Activations (l ++ (cached_copy module <$> acts))))
       (cached_per_sample_gradient st) (collective_log st)).
Proof.
  induction acts as [|a acts IH]; intros l st Hc.
  - simpl. unfold ret. rewrite app_nil_r, <-Hc. by destruct st.
  - cbn [forward_pass].
    erewrite bind_Ok; cycle 1.
    { unfold lambda_forward_hook. rewrite shared.
      unfold bind, get_cached_activations, set_cached_activations, ret.
      rewrite Hc. reflexivity. }
    erewrite bind_Ok; [|by apply (IH (l ++ [cached_copy module a]))].
    unfold ret. simpl. by rewrite <-app_assoc.
Qed.

Lemma forward_pass_fresh a acts st :
  cached_activations st = None →
  forward_pass module (a :: acts) st
  = (Ok (replicate (length (a :: acts)) shared_backward_hook_id),
     mkTracker (storage st)
       (Some (Activations (cached_copy module <$> a :: acts)))
       (cached_per_sample_gradient st) (collective_log st)).
Proof.
  intros Hc. cbn [forward_pass].
  erewrite bind_Ok; cycle 1.
  { unfold lambda_forward_hook. rewrite shared.
    unfold bind, get_cached_activations, set_cached_activations, ret.
    rewrite Hc. reflexivity. }
  erewrite bind_Ok; [|by apply (forward_pass_spec acts [cached_copy module a])].
  done.
Qed.

Lemma backward_pass_shared n grads st :
  length grads ≤ n →
  backward_pass module env (reverse (replicate n shared_backward_hook_id))
    grads st
  = shared_backward_pass module grads st.
Proof.
  rewrite reverse_replicate. unfold backward_pass, shared_backward_pass.
  revert n st. induction grads as [|g grads IH]; intros n st Hlen.
  - by destruct n.
  - destruct n as [|n]; [simpl in Hlen; lia|]. simpl in Hlen.
    cbn [replicate zip zip_with for_each fst snd fire].
    unfold bind. destruct (shared_backward_hook module g st) as [[[]|e] st1];
      [|done].
    apply IH. lia.
Qed.

Lemma shared_backward_hook_step g l a acc b r c st :
  cached_activations st = Some (Activations (l ++ [a])) →
  cached_per_sample_gradient st = acc →
  from_option (λ s, batch_size (data s) = b ∧ brows (data s) = r
                    ∧ bcols (data s) = c) True acc →
  let p := compute_per_sample_gradient module a
             (_scale_output_gradient module g
                (per_sample_gradient_dtype (factor_args module))) in
  batch_size (data p) = b → batch_has_shape r c (data p) →
  shared_backward_hook module g st
  = (Ok tt,
     mkTracker (storage st) (Some (Activations l)) (sum_step acc p)
       (collective_log st)).
Proof.
  intros Hc Hacc Hok p <- (<- & <- & Hwf).
  unfold shared_backward_hook, pop_cached_activation.
  unfold bind at 1. unfold bind at 1.
  unfold get_cached_activations at 1. rewrite Hc, last_snoc.
  unfold bind at 1, set_cached_activations at 1, ret at 1.
  rewrite removelast_last. fold p.
  unfold bind at 1, get_cached_per_sample_gradient at 1.
  cbn [cached_per_sample_gradient]. rewrite Hacc.
  unfold batch_wf in Hwf.
  destruct acc as [s|]; simpl in Hok.
  - destruct Hok as (Hsb & Hsr & Hsc).
    unfold bind, ret, get_cached_per_sample_gradient,
      set_cached_per_sample_gradient, lift, add_batch_. simpl.
    rewrite Hsb, Hsr, Hsc, broadcast_batch_same; [|done..].
    unfold sum_step. simpl. by rewrite Hsr, Hsc.
  - unfold bind, ret, get_cached_per_sample_gradient,
      set_cached_per_sample_gradient, lift, add_batch_, zeros_like,
      batch_size.
    cbn [cached_per_sample_gradient data samples brows bcols dtype].
    rewrite length_replicate, broadcast_batch_same; done.
Qed.
Lemma sum_step_shape acc p b r c :
  from_option (λ s, batch_size (data s) = b ∧ brows (data s) = r
                    ∧ bcols (data s) = c) True acc →
  batch_size (data p) = b → batch_has_shape r c (data p) →
  from_option (λ s, batch_size (data s) = b ∧ brows (data s) = r
                    ∧ bcols (data s) = c) True (sum_step acc p).
Proof.
  intros Hacc Hb (Hr & Hc & _). unfold sum_step, batch_size in *.
  destruct acc as [s|]; simpl in *.
  - destruct Hacc as (Hsb & Hsr & Hsc). unfold badd.
    rewrite length_zip_with. split; [lia|done].
  - unfold badd. rewrite length_zip_with, length_replicate.
    unfold batch_size. split; [lia|done].
Qed.

Lemma shared_backward_pass_spec b r c grads : ∀ l acc st,
  cached_activations st = Some (Activations l) →
  cached_per_sample_gradient st = acc →
  from_option (λ s, batch_size (data s) = b ∧ brows (data s) = r
                    ∧ bcols (data s) = c) True acc →
  length grads ≤ length l →
  gradients_ok b r c
    (zip_with (λ a g, compute_per_sample_gradient module a
                        (_scale_output_gradient module g
                           (per_sample_gradient_dtype (factor_args module))))
       (reverse l) grads) →
  shared_backward_pass module grads st
  = (Ok tt,
     mkTracker (storage st)
       (Some (Activations (take (length l - length grads) l)))
       (foldl sum_step acc
          (zip_with (λ a g, compute_per_sample_gradient module a
                              (_scale_output_gradient module g
                                 (per_sample_gradient_dtype
                                    (factor_args module))))
             (reverse l) grads))
       (collective_log st)).
Proof.
  induction grads as [|g grads IH]; intros l acc st Hc Hacc Hok Hlen Hps.
  - simpl. rewrite Nat.sub_0_r, firstn_all, <-Hc, <-Hacc.
    destruct (reverse l); by destruct st.
  - destruct l as [|a l _] using rev_ind; [simpl in Hlen; lia|].
    rewrite reverse_snoc in Hps |- *. cbn [zip_with] in Hps |- *.
    apply Forall_cons in Hps as [[Hpb Hpshape] Hps].
    unfold shared_backward_pass in *. cbn [for_each foldl].
    erewrite bind_Ok; [|by eapply shared_backward_hook_step].
    rewrite length_app in Hlen |- *. simpl in Hlen |- *.
    erewrite IH; [|reflexivity|reflexivity| |lia|done]; cycle 1.
    { by eapply sum_step_shape. }
    simpl. do 3 f_equal.
    replace (length l + 1 - S (length grads))
      with (length l - length grads) by lia.
    rewrite take_app_le; [done|lia].
Qed.
Lemma lifo_gradients_cached acts grads :
  zip_with (λ a g, compute_per_sample_gradient module a
                     (_scale_output_gradient module g
                        (per_sample_gradient_dtype (factor_args module))))
    (reverse (cached_copy module <$> acts)) grads
  = lifo_gradients module acts grads.
Proof.
  unfold lifo_gradients, paired_gradient.
  by rewrite <-fmap_reverse, zip_with_fmap_l.
Qed.

Lemma lifo_gradients_take acts grads j :
  lifo_gradients module acts (take j grads)
  = take j (lifo_gradients module acts grads).
Proof.
  unfold lifo_gradients. generalize (reverse acts). intros l.
  revert l grads. induction j as [|j IH]; intros l grads.
  - simpl. by destruct l.
  - destruct l as [|a l], grads as [|g grads]; simpl; try done.
    by rewrite IH.
Qed.

Lemma finalize_iteration_spec s st :
  cached_per_sample_gradient st = Some s →
  finalize_iteration module env st
  = bind (_update_lambda_matrix module env
            (to_dtype (lambda_dtype (factor_args module)) s) true)
      (λ _, clear_all_cache)
      (mkTracker (storage st) (cached_activations st)
         (Some (to_dtype (lambda_dtype (factor_args module)) s))
         (collective_log st)).
Proof.
  intros Hs. unfold finalize_iteration.
  unfold bind at 1, get_cached_per_sample_gradient at 1. rewrite Hs.
  unfold bind at 1, set_cached_per_sample_gradient at 1. by rewrite shared.
Qed.

Lemma finalize_iteration_Ok s st st3 :
  cached_per_sample_gradient st = Some s →
  _update_lambda_matrix module env
    (to_dtype (lambda_dtype (factor_args module)) s) true
    (mkTracker (storage st) (cached_activations st)
       (Some (to_dtype (lambda_dtype (factor_args module)) s))
       (collective_log st))
  = (Ok tt, st3) →
  finalize_iteration module env st
  = (Ok tt, mkTracker (storage st3) None None (collective_log st3)).
Proof.
  intros Hs Hup. rewrite (finalize_iteration_spec s) by done.
  unfold bind. by rewrite Hup.
Qed.

(** C3: for a module with shared parameters, in a pass of n >= 1 forward
    firings followed by k <= n backward firings, started with empty
    caches (and per-sample gradients of one shape): the forward firings
    push the cached copies in order; the j-th backward firing (counted
    from 0) pops the copy pushed by the forward firing n - 1 - j;
    [cached_per_sample_gradient] is the running sum, zeros at first, of
    the per-sample gradients of the pairs processed so far, and the
    storage is untouched; [finalize_iteration] then casts the sum to the
    Lambda dtype, runs the Lambda update on it once and clears the
    caches. *)
Theorem shared_pass_is_last_in_first_out a acts grads b r c st :
  cached_activations st = None →
  cached_per_sample_gradient st = None →
  length grads ≤ length (a :: acts) →
  gradients_ok b r c (lifo_gradients module (a :: acts) grads) →
  let n := length (a :: acts) in
  let hooks := replicate n shared_backward_hook_id in
  ∃ st1 st2,
    forward_pass module (a :: acts) st = (Ok hooks, st1)
    ∧ cached_activations st1
      = Some (Activations (cached_copy module <$> a :: acts))
    ∧ backward_pass module env (reverse hooks) grads st1 = (Ok tt, st2)
    ∧ cached_activations st2
      = Some (Activations
                (cached_copy module <$> take (n - length grads) (a :: acts)))
    ∧ cached_per_sample_gradient st2
      = running_sum (lifo_gradients module (a :: acts) grads)
    ∧ storage st2 = storage st
    ∧ (∀ j x, j < length grads → (a :: acts) !! (n - 1 - j) = Some x →
         ∃ stj, backward_pass module env (reverse hooks) (take j grads) st1
                = (Ok tt, stj)
                ∧ (pop_cached_activation stj).1 = Ok (cached_copy module x))
    ∧ (∀ s, cached_per_sample_gradient st2 = Some s →
         finalize_iteration module env st2
         = bind (_update_lambda_matrix module env
                   (to_dtype (lambda_dtype (factor_args module)) s) true)
             (λ _, clear_all_cache)
             (mkTracker (storage st2) (cached_activations st2)
                (Some (to_dtype (lambda_dtype (factor_args module)) s))
                (collective_log st2)))
    ∧ (∀ s st3, cached_per_sample_gradient st2 = Some s →
         _update_lambda_matrix module env
           (to_dtype (lambda_dtype (factor_args module)) s) true
           (mkTracker (storage st2) (cached_activations st2)
              (Some (to_dtype (lambda_dtype (factor_args module)) s))
              (collective_log st2))
         = (Ok tt, st3) →
         finalize_iteration module env st2
         = (Ok tt, mkTracker (storage st3) None None (collective_log st3))).
Proof.
  intros Hca Hcp Hlen Hok n hooks.
  set (l := cached_copy module <$> a :: acts).
  assert (length l = n) as Hl by (subst l n; by rewrite length_fmap).
  eexists _, _. split; [by apply forward_pass_fresh|].
  split; [done|].
  assert (∀ gs, length gs ≤ n →
            gradients_ok b r c (lifo_gradients module (a :: acts) gs) →
            shared_backward_pass module gs
              (mkTracker (storage st) (Some (Activations l))
                 (cached_per_sample_gradient st) (collective_log st))
            = (Ok tt,
               mkTracker (storage st)
                 (Some (Activations (take (n - length gs) l)))
                 (running_sum (lifo_gradients module (a :: acts) gs))
                 (collective_log st))) as Hback.
  { intros gs Hgs Hgok.
    pose proof (lifo_gradients_cached (a :: acts) gs) as Hzip.
    fold l in Hzip.
    erewrite (shared_backward_pass_spec b r c gs l None);
      [|done|by rewrite Hcp|done|lia|by rewrite Hzip].
    by rewrite Hl, Hzip. }
  split; [subst hooks; rewrite backward_pass_shared by done; by apply Hback|].
  cbn [cached_activations cached_per_sample_gradient storage].
  split; [by subst l; rewrite fmap_take|].
  split; [done|]. split; [done|]. split.
  - intros j x Hj Hx. eexists. split.
    + subst hooks. rewrite backward_pass_shared by (rewrite length_take; lia).
      apply Hback.
      * rewrite length_take. lia.
      * rewrite lifo_gradients_take. by apply Forall_take.
    + unfold pop_cached_activation, bind, get_cached_activations.
      cbn [cached_activations]. rewrite length_take.
      replace (n - j `min` length grads) with (S (n - 1 - j)) by lia.
      assert (l !! (n - 1 - j) = Some (cached_copy module x)) as Hlx.
      { subst l. by rewrite list_lookup_fmap, Hx. }
      rewrite last_lookup, length_take.
      replace (Init.Nat.pred (S (n - 1 - j) `min` length l))
        with (n - 1 - j) by lia.
      rewrite lookup_take_lt by lia. by rewrite Hlx.
  - split.
    + intros s Hs. by apply finalize_iteration_spec.
    + intros s st3 Hs Hup. by eapply finalize_iteration_Ok.
Qed.
End SharedPassProofs.

(** * The theorems on concrete runs *)

(** The tensor operations on small inputs. *)

Example transpose_2x3 :
  transpose 3 [[1; 2; 3]; [4; 5; 6]]%Z = [[1; 4]; [2; 5]; [3; 6]]%Z.
Proof. reflexivity. Qed.

Example mm_2x2 :
  mm [[1; 2]; [3; 4]]%Z [[0; 1]; [1; 0]]%Z 2 = [[2; 1]; [4; 3]]%Z.
Proof. reflexivity. Qed.

Example gram_2x2 :
  gram 2 [[1; 2]; [3; 4]]%Z = [[10; 14]; [14; 20]]%Z.
Proof. reflexivity. Qed.

Example gram_no_rows : gram 2 ([] : list (list Z)) = [[0; 0]; [0; 0]]%Z.
Proof. reflexivity. Qed.

Example matmul_shape_mismatch :
  matmul (mkTensor float32 (mkMatrix 2 [[1; 2]]%Z))
    (mkTensor float32 (mkMatrix 1 [[1]]%Z))
  = Raise RuntimeError.
Proof. reflexivity. Qed.

Example matmul_dtype_mismatch :
  matmul (mkTensor float32 (mkMatrix 1 [[1]]%Z))
    (mkTensor bfloat16 (mkMatrix 1 [[1]]%Z))
  = Raise RuntimeError.
Proof. reflexivity. Qed.

Example add_broadcasts_a_row :
  add_ (mkTensor float32 (mkMatrix 2 [[1; 2]; [3; 4]]%Z))
    (mkTensor float32 (mkMatrix 2 [[10; 20]]%Z))
  = Ok (mkTensor float32 (mkMatrix 2 [[11; 22]; [13; 24]]%Z)).
Proof. reflexivity. Qed.

Example add_shape_mismatch :
  add_ (mkTensor float32 (mkMatrix 2 [[1; 2]; [3; 4]]%Z))
    (mkTensor float32 (mkMatrix 3 [[1; 2; 3]; [4; 5; 6]]%Z))
  = Raise RuntimeError.
Proof. reflexivity. Qed.

Example count_add_wraps :
  count_add_ int64_max 1 = Ok int64_min.
Proof. reflexivity. Qed.

Example count_add_refuses_large_operand :
  count_add_ 0 (2 ^ 63) = Raise RuntimeError.
Proof. reflexivity. Qed.

(** The scenario of the specification: four samples whose per-sample
    gradients are all ones, no parameter sharing, a strategy that takes the
    eigenbasis as the identity; after one pass every entry of the Lambda
    matrix is 4 and the count is 4. *)
Example lambda_of_all_ones :
  let m := Examples.linear false false float32 in
  let e := Examples.env false false false in
  let ones := mkTensor float32 (replicate 4 [1; 1]%Z) in
  let run :=
    bind (lambda_forward_hook m ones) (λ h, fire m e h ones) Examples.fresh in
  run.1 = Ok tt
  ∧ storage run.2 !! LAMBDA_MATRIX_NAME
    = Some (Some (Examples.mat float32 2 [[4; 4]; [4; 4]]%Z))
  ∧ storage run.2 !! NUM_LAMBDA_PROCESSED = Some (Some (VCount 4))
  ∧ cached_activations run.2 = None.
Proof. repeat split; vm_compute; reflexivity. Qed.

Lemma has_keys_check {R Raw : Type} names (st : Tracker R Raw) :
  forallb (λ k, bool_decide (is_Some (storage st !! k))) names = true →
  has_keys names st.
Proof.
  intros Hall. apply Forall_forall. intros k Hk.
  rewrite forallb_forall in Hall. apply list_elem_of_In in Hk.
  specialize (Hall k Hk). by apply bool_decide_eq_true in Hall.
Qed.

Lemma exist_iff_all_factors_set_witness :
  ∃ b, exist LambdaTracker Examples.full = (Ok b, Examples.full)
     ∧ (b = true ↔
        ∀ k, k ∈ factor_names LambdaTracker → is_set Examples.full k = true)
     ∧ (b = true → ∀ k, k ∈ factor_names LambdaTracker →
          exist LambdaTracker (unset k Examples.full)
          = (Ok false, unset k Examples.full)).
Proof.
  apply exist_iff_all_factors_set. apply has_keys_check.
  vm_compute. reflexivity.
Defined.

Lemma release_memory_idempotent_witness :
  ∃ st', release_memory CovarianceTracker Examples.full = (Ok tt, st')
    ∧ (∀ k, k ∈ factor_names CovarianceTracker →
         storage st' !! k = Some None)
    ∧ (∀ k, k ∉ factor_names CovarianceTracker →
         storage st' !! k = storage Examples.full !! k)
    ∧ release_memory CovarianceTracker st' = (Ok tt, st')
    ∧ ((∀ k, k ∈ factor_names CovarianceTracker →
          storage Examples.full !! k = Some None) →
       storage st' = storage Examples.full).
Proof.
  apply release_memory_idempotent. apply has_keys_check.
  vm_compute. reflexivity.
Defined.

Lemma synchronize_reduces_iff_ready_witness :
  let env := Examples.env true true true in
  let st := Examples.full in
  ∃ st', synchronize env LambdaTracker 2 st = (Ok tt, st')
    ∧ collective_log st' ≠ collective_log st
    ∧ storage st' !! NUM_LAMBDA_PROCESSED = Some (Some (VCount 14)).
Proof.
  intros env st.
  destruct (synchronize_reduces_iff_ready env LambdaTracker 2 st)
    as (st' & Hrun & _ & Hready & _ & Hiff).
  { apply has_keys_check. vm_compute. reflexivity. }
  exists st'. split; [exact Hrun|]. split.
  - apply Hiff. vm_compute. reflexivity.
  - destruct Hready as (_ & _ & Hk & _); [vm_compute; reflexivity|].
    rewrite (Hk NUM_LAMBDA_PROCESSED); [vm_compute; reflexivity|].
    right. left.
Defined.

Lemma backward_firing_without_cache_raises_witness :
  backward_hook (Examples.linear false false float32)
    (Examples.env false false false) (mkTensor float32 [[1; 2]%Z])
    Examples.full
  = (Raise CacheNotFound, Examples.full).
Proof.
  apply (backward_firing_without_cache_raises
           (Examples.linear false false float32)
           (Examples.env false false false)). reflexivity.
Defined.

Lemma finalize_iteration_needs_cached_gradient_witness :
  finalize_iteration (Examples.linear false false float32)
    (Examples.env false false false) Examples.full
  = (Raise AttributeError, Examples.full).
Proof.
  apply (finalize_iteration_needs_cached_gradient
           (Examples.linear false false float32)
           (Examples.env false false false)). reflexivity.
Defined.

(** C1 as written does not hold: the first update under a strategy that
    requires the eigendecomposition, with the eigenvectors absent, raises
    [FactorsNotFoundError] but has already replaced the None Lambda factors
    by a zero matrix and a zero count. *)
Lemma failed_lambda_update_allocates_factors :
  let m := Examples.linear false false float32 in
  let e := Examples.env true false false in
  let run :=
    _update_lambda_matrix m e (Examples.psg float32) false Examples.fresh in
  run.1 = Raise (FactorsNotFoundError
                   "The strategy ekfac requires eigendecomposition results for Lambda computations, but they are not found.")
  ∧ storage Examples.fresh !! ACTIVATION_EIGENVECTORS_NAME = Some None
  ∧ storage Examples.fresh !! LAMBDA_MATRIX_NAME = Some None
  ∧ storage run.2 !! LAMBDA_MATRIX_NAME
    = Some (Some (Examples.mat float32 2 [[0; 0]; [0; 0]]%Z))
  ∧ storage Examples.fresh !! NUM_LAMBDA_PROCESSED = Some None
  ∧ storage run.2 !! NUM_LAMBDA_PROCESSED = Some (Some (VCount 0))
  ∧ storage run.2 !! LAMBDA_MATRIX_NAME
    ≠ storage Examples.fresh !! LAMBDA_MATRIX_NAME.
Proof.
  intros m e run. repeat split; try (vm_compute; reflexivity).
  vm_compute. discriminate.
Qed.

(** Once the Lambda count is allocated the eigenvectors are not checked
    again: with the activation eigenvectors absent the update increments the
    count and then fails on the product, with another exception. *)
Lemma later_lambda_update_skips_the_check :
  let m := Examples.linear false true float32 in
  let e := Examples.env true false false in
  let st := unset ACTIVATION_EIGENVECTORS_NAME Examples.full in
  let run := _update_lambda_matrix m e (Examples.psg float32) false st in
  run.1 = Raise TypeError
  ∧ storage st !! NUM_LAMBDA_PROCESSED = Some (Some (VCount 7))
  ∧ storage run.2 !! NUM_LAMBDA_PROCESSED = Some (Some (VCount 9)).
Proof. intros m e st run. repeat split; vm_compute; reflexivity. Qed.

Lemma update_lambda_without_eigenvectors_witness :
  let m := Examples.linear false false float32 in
  let e := Examples.env true false false in
  let p := Examples.psg float32 in
  _update_lambda_matrix m e p false Examples.fresh
  = (Raise (FactorsNotFoundError
              (not_found_message (strategy (factor_args m)))),
     set_storage
       (<[LAMBDA_MATRIX_NAME :=
            Some (VTensor (zeros (brows (data p)) (bcols (data p))
                             (dtype p)))]>
          (<[NUM_LAMBDA_PROCESSED := Some (VCount 0)]>
             (storage Examples.fresh))) Examples.fresh).
Proof.
  intros m e p. apply update_lambda_without_eigenvectors.
  - reflexivity.
  - vm_compute. reflexivity.
  - apply has_keys_check. vm_compute. reflexivity.
  - left. vm_compute. reflexivity.
Defined.


Lemma lambda_iterative_agrees_with_batched_witness :
  let m := Examples.linear false false float32 in
  let e := Examples.env true false false in
  let p := Examples.psg float32 in
  ∃ st',
    _update_lambda_matrix (with_iterative true m) e p false Examples.full
    = (Ok tt, st')
    ∧ _update_lambda_matrix (with_iterative false m) e p false Examples.full
      = (Ok tt, st')
    ∧ storage st' !! NUM_LAMBDA_PROCESSED = Some (Some (VCount 9))
    ∧ storage st' !! LAMBDA_MATRIX_NAME
      = Some (Some (Examples.mat float32 2 [[8; 5]; [21; 16]]%Z)).
Proof.
  intros m e p.
  destruct (lambda_iterative_agrees_with_batched m e p false Examples.full
              2 2
              (mkTensor float32 (mkMatrix 2 [[0; 1]; [1; 0]]%Z))
              (mkTensor float32 (mkMatrix 2 [[1; 0]; [0; 1]]%Z))
              7%Z
              (mkTensor float32 (mkMatrix 2 [[3; 4]; [5; 6]]%Z)))
    as (st' & Hit & Hba & Hnum & Hlam).
  - reflexivity.
  - vm_compute. repeat constructor.
  - vm_compute. reflexivity.
  - vm_compute. repeat constructor.
  - vm_compute. reflexivity.
  - vm_compute. repeat constructor.
  - vm_compute. reflexivity.
  - vm_compute. repeat constructor.
  - intros _. split; reflexivity.
  - vm_compute. reflexivity.
  - vm_compute. reflexivity.
  - exists st'. split; [exact Hit|]. split; [exact Hba|].
    split; [rewrite Hnum|rewrite Hlam]; vm_compute; reflexivity.
Defined.

Lemma covariance_is_sum_over_firings_witness :
  let m := Examples.linear false false float32 in
  let fs := [forward_firing (mkTensor float32 [[1; 2]; [3; 4]]%Z);
             backward_firing (mkTensor float32 [[1; 0]]%Z);
             forward_firing (mkTensor float32 [[1; 1]]%Z)] in
  ∃ st', for_each fs (fire_covariance m) Examples.fresh = (Ok tt, st')
    ∧ storage st' !! ACTIVATION_COVARIANCE_MATRIX_NAME
      = Some (Some (Examples.mat float32 2 [[11; 15]; [15; 21]]%Z))
    ∧ storage st' !! NUM_ACTIVATION_COVARIANCE_PROCESSED
      = Some (Some (VCount 3))
    ∧ storage st' !! GRADIENT_COVARIANCE_MATRIX_NAME
      = Some (Some (Examples.mat float32 2 [[1; 0]; [0; 0]]%Z))
    ∧ storage st' !! NUM_GRADIENT_COVARIANCE_PROCESSED
      = Some (Some (VCount 1)).
Proof.
  intros m fs.
  destruct (covariance_is_sum_over_firings m float32 2 float32 2 fs
              Examples.fresh)
    as (st' & Hrun & Ha & Hna & Hg & Hng & _).
  - intros k Hk.
    repeat (apply elem_of_cons in Hk as [->|Hk];
            [vm_compute; reflexivity|]).
    by apply elem_of_nil in Hk.
  - split; [vm_compute; repeat constructor; discriminate|].
    vm_compute. discriminate.
  - split; [vm_compute; repeat constructor; discriminate|].
    vm_compute. discriminate.
  - exists st'. split; [exact Hrun|].
    rewrite Ha, Hna, Hg, Hng. repeat split; vm_compute; reflexivity.
Defined.

Lemma shared_pass_is_last_in_first_out_witness :
  let m := Examples.linear true false float32 in
  let e := Examples.env false false false in
  let a1 := mkTensor float32 [[1; 2]; [3; 4]]%Z in
  let a2 := mkTensor float32 [[0; 1]; [1; 0]]%Z in
  let g1 := mkTensor float32 [[1; 0]; [0; 1]]%Z in
  let g2 := mkTensor float32 [[1; 1]; [2; 2]]%Z in
  let hooks := [shared_backward_hook_id; shared_backward_hook_id] in
  ∃ st1 st2,
    forward_pass m [a1; a2] Examples.fresh = (Ok hooks, st1)
    ∧ backward_pass m e (reverse hooks) [g1; g2] st1 = (Ok tt, st2)
    ∧ cached_activations st2 = Some (Activations [])
    ∧ cached_per_sample_gradient st2
      = Some (mkTensor float32
                (mkBatch 2 2 [[[1; 3]; [1; 2]]; [[6; 8]; [7; 8]]]%Z)).
Proof.
  intros m e a1 a2 g1 g2 hooks.
  destruct (shared_pass_is_last_in_first_out m e eq_refl a1 [a2] [g1; g2]
              2 2 2 Examples.fresh)
    as (st1 & st2 & Hf & _ & Hb & Hca & Hcp & _).
  - reflexivity.
  - reflexivity.
  - simpl. lia.
  - vm_compute. repeat constructor.
  - exists st1, st2. split; [exact Hf|]. split; [exact Hb|].
    rewrite Hca, Hcp. split; vm_compute; reflexivity.
Defined.

(** * Further properties of the trackers *)

Section RelatesLemmas.
Context {R : Type} {Raw : Type}.
Context (rel : Tracker R Raw → Tracker R Raw → Prop).
Context `{!Reflexive rel, !Transitive rel}.

Lemma relates_unchanged {A} (m : M A) :
  (∀ st, ∃ o, m st = (o, st)) → relates rel m.
Proof.
  intros Hm st o st' Hrun. destruct (Hm st) as [o' Ho].
  rewrite Ho in Hrun. by injection Hrun as _ <-.
Qed.

Lemma relates_ret {A} (a : A) : relates rel (ret a).
Proof. apply relates_unchanged. intros st. by eexists. Qed.

Lemma relates_raise {A} e : relates rel (raise (A:=A) e).
Proof. apply relates_unchanged. intros st. by eexists. Qed.

Lemma relates_lift {A} (x : Outcome A) : relates rel (lift x).
Proof. apply relates_unchanged. intros st. by eexists. Qed.

Lemma relates_storage_get k : relates rel (storage_get k).
Proof.
  apply relates_unchanged. intros st. unfold storage_get.
  destruct (storage st !! k); by eexists.
Qed.

Lemma relates_bind {A B} (m : M A) (f : A → M B) :
  relates rel m → (∀ a, relates rel (f a)) → relates rel (bind m f).
Proof.
  intros Hm Hf st o st' Hrun. unfold bind in Hrun.
  destruct (m st) as [[a|e] st1] eqn:Hm1.
  - transitivity st1; [by eapply Hm|by eapply Hf].
  - injection Hrun as <- <-. by eapply Hm.
Qed.

Lemma relates_for_each {A} (l : list A) (body : A → M unit) :
  (∀ x, relates rel (body x)) → relates rel (for_each l body).
Proof.
  intros Hbody. induction l as [|x l IH]; simpl.
  - apply relates_ret.
  - apply relates_bind; [apply Hbody|by intros _].
Qed.

Lemma relates_storage_matrix k : relates rel (storage_matrix k).
Proof.
  apply relates_bind; [apply relates_storage_get|].
  intros [[n|t]|]; (apply relates_ret || apply relates_raise).
Qed.

Lemma relates_storage_operand k : relates rel (storage_operand k).
Proof.
  apply relates_bind; [apply relates_storage_get|].
  intros [[n|t]|]; (apply relates_ret || apply relates_raise).
Qed.

Lemma relates_all_present names : relates rel (all_present names).
Proof.
  induction names as [|k names IH]; simpl; [apply relates_ret|].
  apply relates_bind; [apply relates_storage_get|].
  intros [v|]; [done|apply relates_ret].
Qed.

Lemma relates_ext {A} (m m' : M A) :
  (∀ st, m st = m' st) → relates rel m → relates rel m'.
Proof. intros Heq Hm st o st' Hrun. eapply Hm. by rewrite Heq. Qed.
End RelatesLemmas.

Section RaisesLemmas.
Context {R : Type} {Raw : Type}.
Context (P : Exn → Prop).

Lemma raises_only_ret {A} (a : A) :
  raises_only (R:=R) (Raw:=Raw) P (ret a).
Proof. by intros st e st'. Qed.

Lemma raises_only_raise {A} e :
  P e → raises_only (R:=R) (Raw:=Raw) P (raise (A:=A) e).
Proof. intros He st e' st' [= <- _]. done. Qed.

Lemma raises_only_bind {A B} (m : M A) (f : A → M B) :
  raises_only (R:=R) (Raw:=Raw) P m → (∀ a, raises_only P (f a)) →
  raises_only P (bind m f).
Proof.
  intros Hm Hf st e st' Hrun. unfold bind in Hrun.
  destruct (m st) as [[a|e1] st1] eqn:Hm1.
  - by eapply Hf.
  - injection Hrun as <- <-. by eapply Hm.
Qed.

Lemma raises_only_for_each {A} (l : list A) (body : A → M unit) :
  (∀ x, raises_only (R:=R) (Raw:=Raw) P (body x)) →
  raises_only P (for_each l body).
Proof.
  intros Hbody. induction l as [|x l IH]; simpl.
  - apply raises_only_ret.
  - apply raises_only_bind; [apply Hbody|by intros _].
Qed.

Lemma raises_only_never {A} (m : M A) :
  (∀ st : Tracker R Raw, ∃ a st', m st = (Ok a, st')) → raises_only P m.
Proof.
  intros Hm st e st' Hrun. destruct (Hm st) as (a & st1 & Ho). congruence.
Qed.
End RaisesLemmas.

(** ** The interface operations when keys are missing *)

Section InterfaceEdges.
Context {R : Type} {Raw : Type}.
Implicit Types (st : Tracker R Raw) (k : string).

Lemma all_present_find names st :
  all_present names st
  = (match find (λ k, negb (is_set st k)) names with
     | None => Ok true
     | Some k =>
         if storage st !! k is None then Raise (KeyError k) else Ok false
     end, st).
Proof.
  induction names as [|k names IH]; [done|].
  simpl. unfold bind, storage_get, is_set.
  destruct (storage st !! k) as [[v|]|] eqn:Hk; simpl.
  - apply IH.
  - by rewrite Hk.
  - by rewrite Hk.
Qed.


Lemma for_each_app {A} (l1 l2 : list A) (body : A → M unit) st :
  for_each (l1 ++ l2) body st
  = bind (for_each l1 body) (λ _, for_each l2 body) st.
Proof.
  revert st. induction l1 as [|x l1 IH]; intros st; [done|].
  simpl. unfold bind. destruct (body x st) as [[[]|e] st1]; [|done].
  rewrite IH. done.
Qed.

Lemma release_all_keys names st st' :
  for_each names release_factor st = (Ok tt, st') → has_keys names st.
Proof.
  revert st. induction names as [|k names IH]; intros st Hrun.
  - constructor.
  - simpl in Hrun. unfold bind at 1 in Hrun.
    destruct (storage st !! k) as [v|] eqn:Hk.
    + rewrite release_factor_spec in Hrun by (by rewrite Hk).
      constructor; [by rewrite Hk|].
      apply IH in Hrun. unfold has_keys in *.
      eapply Forall_impl; [exact Hrun|]. intros k' Hk'. simpl in Hk'.
      destruct (decide (k' = k)) as [->|Hne]; [by rewrite Hk|].
      by rewrite lookup_insert_ne in Hk'.
    + unfold release_factor, bind, storage_del in Hrun.
      rewrite Hk in Hrun. done.
Qed.

(** X1: [exist] never changes the tracker, and its outcome is decided by
    the first factor name of the group, in order, that is not bound to a
    tensor: True when there is none, False when that name is bound to
    None, [KeyError] when the dict lacks it. The names after it are not
    looked up, so a missing key behind a None entry goes unnoticed. *)
Theorem exist_first_unset t st :
  exist t st
  = (match find (λ k, negb (is_set st k)) (factor_names t) with
     | None => Ok true
     | Some k =>
         if storage st !! k is None then Raise (KeyError k) else Ok false
     end, st).
Proof.
  assert (Hnames : ∀ names : list string,
            all_present names st
            = (match find (λ k, negb (is_set st k)) names with
               | None => Ok true
               | Some k =>
                   if storage st !! k is None then Raise (KeyError k)
                   else Ok false
               end, st)).
  { induction names as [|k names IH]; [done|].
    simpl. unfold bind, storage_get, is_set.
    destruct (storage st !! k) as [[v|]|] eqn:Hk; simpl.
    - apply IH.
    - by rewrite Hk.
    - by rewrite Hk. }
  destruct t; apply Hnames.
Qed.

(** X2: [release_memory] returns normally exactly when the dict has
    every factor name of the group as a key. *)
Theorem release_memory_returns_iff_keys t st :
  (∃ st', release_memory t st = (Ok tt, st'))
  ↔ has_keys (factor_names t) st.
Proof.
  split.
  - intros [st' Hrun]. destruct t; simpl in Hrun.
    + by eapply release_all_keys.
    + unfold lambda_release_memory in Hrun.
      erewrite bind_Ok in Hrun by apply clear_all_cache_spec.
      apply release_all_keys in Hrun. exact Hrun.
  - intros Hkeys.
    destruct (release_memory_spec t st Hkeys) as (st' & Hrun & _).
    by exists st'.
Qed.

(** X3: [release_memory] is not atomic. When the dict lacks the factor
    name [k] and has the names before it, the call raises [KeyError] for
    [k] after the factors before [k] are set to None (and, for the Lambda
    tracker, the caches cleared); the factors after [k] are as they
    were. *)
Theorem release_memory_missing_key t st pre k post :
  factor_names t = pre ++ k :: post →
  has_keys pre st →
  storage st !! k = None →
  ∃ st', release_memory t st = (Raise (KeyError k), st')
    ∧ storage st' = foldl (λ m k, <[k:=None]> m) (storage st) pre
    ∧ match t with
      | CovarianceTracker =>
          cached_activations st' = cached_activations st
          ∧ cached_per_sample_gradient st' = cached_per_sample_gradient st
      | LambdaTracker =>
          cached_activations st' = None
          ∧ cached_per_sample_gradient st' = None
      end.
Proof.
  intros Hnames Hpre Hk.
  assert (Hloop : ∀ s : Tracker R Raw, has_keys pre s →
            storage s !! k = None →
            for_each (pre ++ k :: post) release_factor s
            = (Raise (KeyError k), foldl (λ s k, unset k s) s pre)).
  { intros s Hs Hsk. rewrite for_each_app.
    erewrite bind_Ok by (by apply release_all_spec).
    simpl. apply bind_Raise. unfold release_factor. apply bind_Raise.
    unfold storage_del.
    rewrite storage_unset_all, lookup_unset_all.
    destruct (decide (k ∈ pre)) as [Hin|Hnin].
    - unfold has_keys in Hs. rewrite Forall_forall in Hs.
      apply Hs in Hin. rewrite Hsk in Hin. by destruct Hin.
    - by rewrite Hsk. }
  assert (Hcaches : ∀ (names : list string) (s : Tracker R Raw),
            cached_activations (foldl (λ s k, unset k s) s names)
            = cached_activations s
            ∧ cached_per_sample_gradient (foldl (λ s k, unset k s) s names)
              = cached_per_sample_gradient s).
  { induction names as [|x names IH]; intros s; simpl; [done|].
    destruct (IH (unset x s)) as [-> ->]. done. }
  destruct t; cbn [release_memory factor_names] in *.
  - unfold covariance_release_memory. eexists. rewrite Hnames. split; [by apply Hloop|].
    split; [apply storage_unset_all|apply Hcaches].
  - unfold lambda_release_memory.
    erewrite bind_Ok by apply clear_all_cache_spec.
    eexists. rewrite Hnames. split; [by apply Hloop|].
    split; [by rewrite storage_unset_all|].
    destruct (Hcaches pre
                (mkTracker (storage st) None None (collective_log st)))
      as [-> ->].
    done.
Qed.
End InterfaceEdges.

Section SynchronizeEdges.
Context {R : Type} {Raw : Type} (env : Env R).
Implicit Types (st : Tracker R Raw) (k : string).

(** X4: with a factor of the group unset, [synchronize] reaches no
    [.cuda()] and no [dist.reduce]. If [k] is the first factor name, in
    order, that is not bound to a tensor, the call leaves the tracker as it
    is; it raises the [KeyError] of [k] when a distributed context and an
    accelerator are there and the dict lacks [k], and returns normally
    otherwise: without a distributed context or an accelerator a missing
    key goes unnoticed, as it does behind a None entry. *)
Theorem synchronize_without_all_factors t num_processes st k :
  find (λ k, negb (is_set st k)) (factor_names t) = Some k →
  synchronize env t num_processes st
  = (if dist_is_initialized env && cuda_is_available env
     then (if storage st !! k is None then Raise (KeyError k) else Ok tt)
     else Ok tt, st).
Proof.
  intros Hfind.
  assert (Hgen : ∀ names : list string,
            find (λ k, negb (is_set st k)) names = Some k →
            (if dist_is_initialized env && cuda_is_available env
             then bind (all_present names)
                    (λ e : bool, if e then for_each names (reduce_factor env)
                                 else ret tt)
             else ret tt) st
            = (if dist_is_initialized env && cuda_is_available env
               then (if storage st !! k is None then Raise (KeyError k)
                     else Ok tt)
               else Ok tt, st)).
  { intros names Hn.
    destruct (dist_is_initialized env && cuda_is_available env); [|done].
    unfold bind. rewrite all_present_find, Hn.
    by destruct (storage st !! k). }
  destruct t; apply Hgen; exact Hfind.
Qed.
End SynchronizeEdges.

(** ** What the operations leave alone *)

Ltac relates_step prim :=
  first
    [ apply relates_ret; typeclasses eauto
    | apply relates_raise; typeclasses eauto
    | apply relates_lift; typeclasses eauto
    | apply relates_storage_get; typeclasses eauto
    | apply relates_storage_matrix; typeclasses eauto
    | apply relates_storage_operand; typeclasses eauto
    | apply relates_all_present; typeclasses eauto
    | prim
    | apply relates_for_each; [typeclasses eauto..|intros ?]
    | apply relates_bind; [typeclasses eauto| |intros ?]
    | match goal with
      | |- relates _ (match ?x with _ => _ end) => destruct x
      end ].

Section FrameLemmas.
Context {R : Type} {Raw : Type}.
Implicit Types (st : Tracker R Raw) (k : string) (keys : list string).

#[local] Instance storage_outside_refl keys :
  Reflexive (storage_outside (R:=R) (Raw:=Raw) keys).
Proof. by intros st k _. Qed.

#[local] Instance storage_outside_trans keys :
  Transitive (storage_outside (R:=R) (Raw:=Raw) keys).
Proof.
  intros st1 st2 st3 H12 H23 k Hk. by rewrite H23, H12.
Qed.

#[local] Instance caches_kept_refl : Reflexive (caches_kept (R:=R) (Raw:=Raw)).
Proof. by intros st. Qed.

#[local] Instance caches_kept_trans :
  Transitive (caches_kept (R:=R) (Raw:=Raw)).
Proof.
  intros st1 st2 st3 [Ha Hg] [Ha' Hg']. split; congruence.
Qed.

Lemma outside_storage_set keys k (v : option (Value R)) :
  k ∈ keys → relates (storage_outside keys) (storage_set (Raw:=Raw) k v).
Proof.
  intros Hin st o st' [= _ <-] k' Hk'. simpl.
  apply lookup_insert_ne. by intros ->.
Qed.

Lemma outside_storage_del keys k :
  k ∈ keys → relates (storage_outside keys) (storage_del (R:=R) (Raw:=Raw) k).
Proof.
  intros Hin st o st' Hrun k' Hk'. unfold storage_del in Hrun.
  destruct (storage st !! k); injection Hrun as _ <-; [|done].
  simpl. apply lookup_delete_ne. by intros ->.
Qed.

Lemma outside_same_storage keys {A} (m : M A) :
  (∀ st, storage (m st).2 = storage st) →
  relates (storage_outside keys) m.
Proof.
  intros Hm st o st' Hrun k _. specialize (Hm st).
  rewrite Hrun in Hm. simpl in Hm. by rewrite Hm.
Qed.

Lemma caches_same_caches {A} (m : M A) :
  (∀ st, cached_activations (m st).2 = cached_activations st
         ∧ cached_per_sample_gradient (m st).2
           = cached_per_sample_gradient st) →
  relates caches_kept m.
Proof.
  intros Hm st o st' Hrun. specialize (Hm st).
  rewrite Hrun in Hm. exact Hm.
Qed.

Lemma caches_storage_del k :
  relates caches_kept (storage_del (R:=R) (Raw:=Raw) k).
Proof.
  apply caches_same_caches. intros st. unfold storage_del.
  by destruct (storage st !! k).
Qed.
End FrameLemmas.

Ltac outside_prim :=
  first
    [ apply outside_storage_set; compute_done
    | apply outside_storage_del; compute_done
    | apply outside_same_storage; intros ?; reflexivity ].

Ltac caches_prim :=
  first
    [ apply caches_storage_del
    | apply caches_same_caches; intros ?; split; reflexivity ].

Section Frames.
Context {R : Type} `{Scalar R} {Raw : Type}.
Context (module : TrackedModule R Raw) (env : Env R).
Implicit Types (st : Tracker R Raw).

#[local] Existing Instance storage_outside_refl.
#[local] Existing Instance storage_outside_trans.
#[local] Existing Instance caches_kept_refl.
#[local] Existing Instance caches_kept_trans.

(** X5: the covariance tracker touches nothing but its own factors:
    however an operation ends, the storage entries outside the covariance
    group (the eigenvectors and the Lambda factors among them) and the
    caches of the tracker are as before. *)
Theorem covariance_tracker_frame (op : CovarianceOp Raw) st o st' :
  run_covariance_op module env op st = (o, st') →
  storage_outside COVARIANCE_FACTOR_NAMES st st' ∧ caches_kept st st'.
Proof.
  intros Hrun. split; revert st o st' Hrun.
  - change (relates (storage_outside COVARIANCE_FACTOR_NAMES)
              (run_covariance_op module env op)).
    destruct op; simpl;
      unfold void, covariance_forward_hook, covariance_backward_hook,
        _update_activation_covariance_matrix,
        _update_gradient_covariance_matrix, covariance_exist,
        covariance_synchronize, covariance_release_memory,
        storage_count_add_, reduce_factor, release_factor;
      simpl; repeat relates_step outside_prim.
  - change (relates caches_kept (run_covariance_op module env op)).
    destruct op; simpl;
      unfold void, covariance_forward_hook, covariance_backward_hook,
        _update_activation_covariance_matrix,
        _update_gradient_covariance_matrix, covariance_exist,
        covariance_synchronize, covariance_release_memory,
        storage_count_add_, reduce_factor, release_factor;
      simpl; repeat relates_step caches_prim.
Qed.

(** X6: the Lambda tracker touches no storage entry outside the Lambda
    group and the eigenvectors: however an operation ends, the covariance
    factors and every other entry of the dict are as before. *)
Theorem lambda_tracker_frame (op : LambdaOp R Raw) st o st' :
  run_lambda_op module env op st = (o, st') →
  storage_outside (LAMBDA_FACTOR_NAMES ++ EIGENDECOMPOSITION_FACTOR_NAMES)
    st st'.
Proof.
  revert st o st'.
  change (relates (storage_outside
                     (LAMBDA_FACTOR_NAMES ++ EIGENDECOMPOSITION_FACTOR_NAMES))
            (run_lambda_op module env op)).
  destruct op; simpl;
    unfold void, _update_lambda_matrix, _eigendecomposition_results_exist,
      lambda_forward_hook, backward_hook, shared_backward_hook,
      pop_cached_activation, finalize_iteration, _update_lambda_matrix,
      lambda_exist, lambda_synchronize, lambda_release_memory,
      clear_all_cache, _raise_cache_not_found_exception,
      storage_count_add_, storage_add_, reduce_factor, release_factor;
    simpl; repeat relates_step outside_prim.
Qed.
End Frames.

(** ** Allocation and release of a matrix with its count *)

Section SetnessLemmas.
Context {R : Type} {Raw : Type}.
Implicit Types (st : Tracker R Raw) (k : string).

#[local] Instance set_stays_refl : Reflexive (set_stays (R:=R) (Raw:=Raw)).
Proof. intros st k Hk. exact Hk. Qed.

#[local] Instance set_stays_trans : Transitive (set_stays (R:=R) (Raw:=Raw)).
Proof. intros st1 st2 st3 H12 H23 k Hk. by apply H23, H12. Qed.

#[local] Instance pairing_kept_refl m n :
  Reflexive (pairing_kept (R:=R) (Raw:=Raw) m n).
Proof. intros st Hp. exact Hp. Qed.

#[local] Instance pairing_kept_trans m n :
  Transitive (pairing_kept (R:=R) (Raw:=Raw) m n).
Proof. intros st1 st2 st3 H12 H23 Hp. by apply H23, H12. Qed.

#[local] Instance keys_stay_refl : Reflexive (keys_stay (R:=R) (Raw:=Raw)).
Proof. intros st k Hk. exact Hk. Qed.

#[local] Instance keys_stay_trans : Transitive (keys_stay (R:=R) (Raw:=Raw)).
Proof. intros st1 st2 st3 H12 H23 k Hk. by apply H23, H12. Qed.

Lemma is_set_same_storage st st' k :
  storage st' = storage st → is_set st' k = is_set st k.
Proof. unfold is_set. by intros ->. Qed.

Lemma stays_storage_set k (v : Value R) :
  relates set_stays (storage_set (Raw:=Raw) k (Some v)).
Proof.
  intros st o st' [= _ <-] k' Hk'. unfold is_set in *. simpl.
  destruct (decide (k = k')) as [->|Hne].
  - by rewrite lookup_insert_eq.
  - by rewrite lookup_insert_ne.
Qed.

Lemma stays_same_storage {A} (m : M A) :
  (∀ st, storage (m st).2 = storage st) → relates set_stays m.
Proof.
  intros Hm st o st' Hrun k Hk. specialize (Hm st).
  rewrite Hrun in Hm. by rewrite (is_set_same_storage st st').
Qed.

Lemma pairing_same_storage m n {A} (c : M A) :
  (∀ st, storage (c st).2 = storage st) → relates (pairing_kept m n) c.
Proof.
  intros Hm st o st' Hrun. specialize (Hm st).
  rewrite Hrun in Hm. unfold pairing_kept, paired.
  by rewrite !(is_set_same_storage st st').
Qed.

Lemma keys_storage_set k (v : option (Value R)) :
  relates keys_stay (storage_set (Raw:=Raw) k v).
Proof.
  intros st o st' [= _ <-] k' Hk'. simpl.
  destruct (decide (k = k')) as [->|Hne].
  - by rewrite lookup_insert_eq.
  - by rewrite lookup_insert_ne.
Qed.

Lemma keys_same_storage {A} (m : M A) :
  (∀ st, storage (m st).2 = storage st) → relates keys_stay m.
Proof.
  intros Hm st o st' Hrun k Hk. specialize (Hm st).
  rewrite Hrun in Hm. simpl in Hm. by rewrite Hm.
Qed.

Lemma keys_release_factor k :
  relates keys_stay (release_factor (R:=R) (Raw:=Raw) k).
Proof.
  intros st o st' Hrun k' Hk'.
  destruct (storage st !! k) as [v|] eqn:Hk.
  - rewrite release_factor_spec in Hrun by (by rewrite Hk).
    injection Hrun as _ <-. simpl.
    destruct (decide (k = k')) as [->|Hne].
    + by rewrite lookup_insert_eq.
    + by rewrite lookup_insert_ne.
  - unfold release_factor, bind, storage_del in Hrun. rewrite Hk in Hrun.
    by injection Hrun as _ <-.
Qed.

(** Two assignments in a row, as in the lazy allocations. *)
Lemma bind_set_set {A B} k1 k2 (v1 v2 : option (Value R)) (rest : M A)
    (f : A → M B) st :
  bind (bind (storage_set k1 v1)
          (λ _, bind (storage_set k2 v2) (λ _, rest))) f st
  = bind rest f
      (set_storage (<[k2:=v2]> (<[k1:=v1]> (storage st))) st).
Proof. reflexivity. Qed.

Lemma bind_set_set_last {B} k1 k2 (v1 v2 : option (Value R))
    (f : unit → M B) st :
  bind (bind (storage_set k1 v1) (λ _, storage_set k2 v2)) f st
  = f tt (set_storage (<[k2:=v2]> (<[k1:=v1]> (storage st))) st).
Proof. reflexivity. Qed.
End SetnessLemmas.

Ltac stays_prim :=
  first
    [ apply stays_storage_set
    | apply stays_same_storage; intros ?; reflexivity ].

Ltac keys_prim :=
  first
    [ apply keys_storage_set
    | apply keys_release_factor
    | apply keys_same_storage; intros ?; reflexivity ].

Section RaisesPrimitives.
Context {R : Type} {Raw : Type}.
Context (P : Exn → Prop).

Lemma raises_only_lift {A} (x : Outcome A) :
  (∀ e, x = Raise e → P e) → raises_only (R:=R) (Raw:=Raw) P (lift x).
Proof. intros Hx st e st' [= -> _]. by apply Hx. Qed.

Lemma raises_only_storage_get k :
  P (KeyError k) → raises_only (R:=R) (Raw:=Raw) P (storage_get k).
Proof.
  intros Hk st e st' Hrun. unfold storage_get in Hrun.
  destruct (storage st !! k); [done|]. by injection Hrun as <- _.
Qed.

Lemma raises_only_storage_matrix k :
  P (KeyError k) → P AttributeError → P OutOfModel →
  raises_only (R:=R) (Raw:=Raw) P (storage_matrix k).
Proof.
  intros Hk Ha Ho. apply raises_only_bind.
  - by apply raises_only_storage_get.
  - intros [[n|t]|]; (apply raises_only_ret || by apply raises_only_raise).
Qed.

Lemma raises_only_storage_operand k :
  P (KeyError k) → P TypeError → P OutOfModel →
  raises_only (R:=R) (Raw:=Raw) P (storage_operand k).
Proof.
  intros Hk Ha Ho. apply raises_only_bind.
  - by apply raises_only_storage_get.
  - intros [[n|t]|]; (apply raises_only_ret || by apply raises_only_raise).
Qed.
End RaisesPrimitives.

Ltac raises_step side :=
  first
    [ apply raises_only_ret
    | apply raises_only_raise; side
    | apply raises_only_storage_get; side
    | apply raises_only_storage_matrix; side
    | apply raises_only_storage_operand; side
    | apply raises_only_lift; intros ?;
      unfold count_add_, matmul, matmul_batch_r, matmul_batch_l, index,
        add_, addmm_, add_batch_;
      repeat case_match; intros [= <-]; side
    | apply raises_only_never; intros ?; eexists _, _; reflexivity
    | apply raises_only_for_each; intros ?
    | apply raises_only_bind; [|intros ?]
    | match goal with
      | |- raises_only _ (match ?x with _ => _ end) => destruct x
      end ].

Section LambdaPairing.
Context {R : Type} `{Scalar R} {Raw : Type}.
Context (module : TrackedModule R Raw) (env : Env R).
Implicit Types (st : Tracker R Raw) (p : Tensor (Batch R)).

#[local] Existing Instance set_stays_refl.
#[local] Existing Instance set_stays_trans.
#[local] Existing Instance pairing_kept_refl.
#[local] Existing Instance pairing_kept_trans.

Lemma stays_update_lambda_matrix p aliases :
  relates set_stays (_update_lambda_matrix module env p aliases).
Proof.
  unfold _update_lambda_matrix, _eigendecomposition_results_exist,
    storage_count_add_, storage_add_.
  repeat relates_step stays_prim.
Qed.

(** Either the count's key is missing and nothing happens, or the count is
    set afterwards, and so is the Lambda matrix if it was set or the count
    was None. *)
Lemma update_lambda_outcome p aliases st o st' :
  _update_lambda_matrix module env p aliases st = (o, st') →
  (storage st !! NUM_LAMBDA_PROCESSED = None ∧ st' = st
   ∧ o = Raise (KeyError NUM_LAMBDA_PROCESSED))
  ∨ (is_Some (storage st !! NUM_LAMBDA_PROCESSED)
     ∧ is_set st' NUM_LAMBDA_PROCESSED = true
     ∧ (storage st !! NUM_LAMBDA_PROCESSED = Some None
        ∨ is_set st LAMBDA_MATRIX_NAME = true →
        is_set st' LAMBDA_MATRIX_NAME = true)).
Proof.
  intros Hrun.
  destruct (storage st !! NUM_LAMBDA_PROCESSED) as [[v|]|] eqn:Hn.
  - right. pose proof (stays_update_lambda_matrix _ _ _ _ _ Hrun) as Hst.
    split; [done|]. split.
    + apply Hst. unfold is_set. by rewrite Hn.
    + intros [?|HL]; [done|by apply Hst].
  - right. split; [done|]. unfold _update_lambda_matrix in Hrun.
    erewrite bind_Ok in Hrun by (by apply storage_get_Some).
    cbv beta iota in Hrun. rewrite bind_set_set in Hrun.
    match type of Hrun with
    | ?m ?s = _ =>
        assert (Hrel : relates set_stays m)
          by (unfold _eigendecomposition_results_exist, storage_count_add_,
                storage_add_; repeat relates_step stays_prim)
    end.
    apply Hrel in Hrun.
    split; [|intros _]; apply Hrun; unfold is_set; simpl.
    + rewrite lookup_insert_ne by done. by rewrite lookup_insert_eq.
    + by rewrite lookup_insert_eq.
  - left. unfold _update_lambda_matrix in Hrun.
    erewrite bind_Raise in Hrun by (by apply storage_get_None).
    by injection Hrun as <- <-.
Qed.

Lemma pairing_update_lambda_matrix p aliases :
  relates (pairing_kept LAMBDA_MATRIX_NAME NUM_LAMBDA_PROCESSED)
    (_update_lambda_matrix module env p aliases).
Proof.
  intros st o st' Hrun Hp. unfold paired in *.
  destruct (update_lambda_outcome _ _ _ _ _ Hrun)
    as [(_ & -> & _)|(Hkey & Hn & HL)]; [done|].
  rewrite Hn. apply HL.
  unfold is_set in Hp |- *.
  destruct (storage st !! NUM_LAMBDA_PROCESSED) as [[v|]|];
    [by right|by left|by destruct Hkey].
Qed.

Lemma release_factor_missing k st :
  storage st !! k = None →
  release_factor k st = (Raise (KeyError k), st).
Proof.
  intros Hk. unfold release_factor. apply bind_Raise.
  unfold storage_del. by rewrite Hk.
Qed.

Lemma pairing_release_all :
  relates (R:=R) (Raw:=Raw)
    (pairing_kept LAMBDA_MATRIX_NAME NUM_LAMBDA_PROCESSED)
    (for_each LAMBDA_FACTOR_NAMES release_factor).
Proof.
  intros st o st' Hrun Hp. cbn [for_each LAMBDA_FACTOR_NAMES] in Hrun.
  destruct (storage st !! LAMBDA_MATRIX_NAME) as [l|] eqn:HL.
  - erewrite bind_Ok in Hrun
      by (apply release_factor_spec; by rewrite HL).
    destruct (storage st !! NUM_LAMBDA_PROCESSED) as [n|] eqn:HN.
    + erewrite bind_Ok in Hrun
        by (apply release_factor_spec; simpl;
            rewrite lookup_insert_ne by done; by rewrite HN).
      injection Hrun as _ <-. unfold paired, is_set. simpl.
      rewrite lookup_insert_eq.
      rewrite lookup_insert_ne by done. by rewrite lookup_insert_eq.
    + erewrite bind_Raise in Hrun
        by (apply release_factor_missing; simpl;
            rewrite lookup_insert_ne by done; exact HN).
      injection Hrun as _ <-. unfold paired, is_set. simpl.
      rewrite lookup_insert_eq.
      rewrite lookup_insert_ne by done. by rewrite HN.
  - erewrite bind_Raise in Hrun by (by apply release_factor_missing).
    by injection Hrun as _ <-.
Qed.

Lemma setness_reduce_factor k :
  relates (R:=R) (Raw:=Raw) same_setness (reduce_factor env k).
Proof.
  intros st o st' Hrun k'.
  destruct (storage st !! k) as [[v|]|] eqn:Hk.
  - rewrite reduce_factor_spec in Hrun
      by (unfold is_set; by rewrite Hk).
    injection Hrun as _ <-. unfold reduced. rewrite Hk.
    unfold is_set. simpl.
    destruct (decide (k = k')) as [<-|Hne].
    + by rewrite lookup_insert_eq, Hk.
    + by rewrite lookup_insert_ne.
  - unfold reduce_factor in Hrun.
    erewrite bind_Ok in Hrun by (by apply storage_get_Some).
    by injection Hrun as _ <-.
  - unfold reduce_factor in Hrun.
    erewrite bind_Raise in Hrun by (by apply storage_get_None).
    by injection Hrun as _ <-.
Qed.

Lemma pairing_reduce_factor m n k :
  relates (R:=R) (Raw:=Raw) (pairing_kept m n) (reduce_factor env k).
Proof.
  intros st o st' Hrun. apply setness_reduce_factor in Hrun.
  unfold pairing_kept, paired. by rewrite !Hrun.
Qed.

(** X7: the Lambda matrix and its count are allocated and released
    together. If they are both None or both set before an operation of
    the Lambda tracker, they are so after it, however it ends; no key of
    the dict need be there. *)
Theorem lambda_factors_stay_paired (op : LambdaOp R Raw) st o st' :
  paired LAMBDA_MATRIX_NAME NUM_LAMBDA_PROCESSED st →
  run_lambda_op module env op st = (o, st') →
  paired LAMBDA_MATRIX_NAME NUM_LAMBDA_PROCESSED st'.
Proof.
  intros Hp Hrun. revert Hp. revert st o st' Hrun.
  change (relates (pairing_kept LAMBDA_MATRIX_NAME NUM_LAMBDA_PROCESSED)
            (run_lambda_op module env op)).
  destruct op; cbn [run_lambda_op];
    unfold void, _eigendecomposition_results_exist, lambda_forward_hook,
      backward_hook, shared_backward_hook, pop_cached_activation,
      finalize_iteration, lambda_exist, lambda_synchronize,
      lambda_release_memory, clear_all_cache,
      _raise_cache_not_found_exception;
    repeat first
      [ apply pairing_update_lambda_matrix
      | apply pairing_release_all
      | apply pairing_reduce_factor
      | relates_step
          ltac:(apply pairing_same_storage; intros ?; reflexivity) ].
Qed.

Lemma update_lambda_no_FactorsNotFoundError p aliases st e st' :
  is_set st NUM_LAMBDA_PROCESSED = true →
  _update_lambda_matrix module env p aliases st = (Raise e, st') →
  ¬ is_FactorsNotFoundError e.
Proof.
  intros Hset Hrun. unfold is_set in Hset.
  destruct (storage st !! NUM_LAMBDA_PROCESSED) as [[v|]|] eqn:Hn;
    [|done..].
  unfold _update_lambda_matrix in Hrun.
  erewrite bind_Ok in Hrun by (by apply storage_get_Some).
  cbv beta iota in Hrun.
  match type of Hrun with
  | ?m ?s = _ =>
      assert (Hrel : raises_only (λ e, ¬ is_FactorsNotFoundError e) m)
        by (unfold storage_count_add_, storage_add_;
            repeat raises_step ltac:(try exact id))
  end.
  by apply Hrel in Hrun.
Qed.
End LambdaPairing.

Section CovariancePairing.
Context {R : Type} `{Scalar R} {Raw : Type}.
Context (module : TrackedModule R Raw) (env : Env R).
Implicit Types (st : Tracker R Raw).

#[local] Existing Instance set_stays_refl.
#[local] Existing Instance set_stays_trans.
#[local] Existing Instance pairing_kept_refl.
#[local] Existing Instance pairing_kept_trans.
#[local] Existing Instance keys_stay_refl.
#[local] Existing Instance keys_stay_trans.
#[local] Existing Instance storage_outside_refl.
#[local] Existing Instance storage_outside_trans.

Lemma stays_update_covariance num mat (x : Tensor (Matrix R)) c :
  relates (Raw:=Raw) set_stays (update_covariance num mat x c).
Proof.
  unfold update_covariance, storage_count_add_.
  repeat relates_step stays_prim.
Qed.

Lemma pairing_update_covariance num mat (x : Tensor (Matrix R)) c :
  num ≠ mat →
  relates (Raw:=Raw) (pairing_kept mat num) (update_covariance num mat x c).
Proof.
  intros Hne st o st' Hrun Hp. unfold paired in *.
  destruct (storage st !! num) as [[v|]|] eqn:Hn.
  - pose proof (stays_update_covariance _ _ _ _ _ _ _ Hrun) as Hst.
    assert (Hnum : is_set st num = true) by (unfold is_set; by rewrite Hn).
    rewrite (Hst num Hnum). apply Hst. by rewrite Hp.
  - unfold update_covariance in Hrun.
    erewrite bind_Ok in Hrun by (by apply storage_get_Some).
    cbv beta iota in Hrun. rewrite bind_set_set_last in Hrun.
    cbv beta in Hrun.
    match type of Hrun with
    | ?m ?s = _ =>
        assert (Hrel : relates set_stays m)
          by (unfold storage_count_add_; repeat relates_step stays_prim)
    end.
    apply Hrel in Hrun.
    rewrite (Hrun mat), (Hrun num); [done| |]; unfold is_set; simpl.
    + rewrite lookup_insert_ne by done. by rewrite lookup_insert_eq.
    + by rewrite lookup_insert_eq.
  - unfold update_covariance in Hrun.
    erewrite bind_Raise in Hrun by (by apply storage_get_None).
    by injection Hrun as _ <-.
Qed.

Lemma outside_update_covariance num mat (x : Tensor (Matrix R)) c :
  relates (Raw:=Raw) (storage_outside [num; mat])
    (update_covariance num mat x c).
Proof.
  unfold update_covariance, storage_count_add_.
  repeat relates_step
    ltac:(first [ apply outside_storage_set; set_solver
                | apply outside_same_storage; intros ?; reflexivity ]).
Qed.

Lemma pairing_outside keys m n st st' :
  m ∉ keys → n ∉ keys → storage_outside keys st st' →
  pairing_kept m n st st'.
Proof.
  intros Hm Hn Hout. unfold pairing_kept, paired, is_set.
  by rewrite (Hout m Hm), (Hout n Hn).
Qed.

(** Both pairs are kept by an update of one covariance matrix. *)
Lemma pairings_update_covariance num mat (x : Tensor (Matrix R)) c m n :
  num ≠ mat →
  (m = mat ∧ n = num) ∨ (m ≠ num ∧ m ≠ mat ∧ n ≠ num ∧ n ≠ mat) →
  relates (Raw:=Raw) (pairing_kept m n) (update_covariance num mat x c).
Proof.
  intros Hne [[-> ->]|(Hm1 & Hm2 & Hn1 & Hn2)].
  - by apply pairing_update_covariance.
  - intros st o st' Hrun.
    eapply (pairing_outside [num; mat]);
      [rewrite !not_elem_of_cons; split_and!; (done || apply not_elem_of_nil)..|].
    by eapply outside_update_covariance.
Qed.

Lemma pairings_covariance_op m n (op : CovarianceOp Raw) :
  (m = ACTIVATION_COVARIANCE_MATRIX_NAME
   ∧ n = NUM_ACTIVATION_COVARIANCE_PROCESSED)
  ∨ (m = GRADIENT_COVARIANCE_MATRIX_NAME
     ∧ n = NUM_GRADIENT_COVARIANCE_PROCESSED) →
  op ≠ cov_release_memory →
  relates (pairing_kept m n) (run_covariance_op module env op).
Proof.
  intros Hmn Hop.
  destruct op; cbn [run_covariance_op]; [| | | |done].
  - unfold void, covariance_forward_hook.
    apply relates_bind; [typeclasses eauto| |intros ?; apply relates_ret;
                                             typeclasses eauto].
    apply relates_bind; [typeclasses eauto| |intros ?; apply relates_ret;
                                             typeclasses eauto].
    eapply relates_ext; [intros st; symmetry; apply activation_update_eq|].
    apply pairings_update_covariance; [done|].
    destruct Hmn as [[-> ->]|[-> ->]]; [by left|right].
    repeat split; compute_done.
  - unfold covariance_backward_hook.
    eapply relates_ext; [intros st; symmetry; apply gradient_update_eq|].
    apply pairings_update_covariance; [done|].
    destruct Hmn as [[-> ->]|[-> ->]]; [right|by left].
    repeat split; compute_done.
  - unfold void, covariance_exist.
    repeat relates_step fail.
  - unfold covariance_synchronize, covariance_exist.
    repeat first [ apply pairing_reduce_factor | relates_step fail ].
Qed.

(** X9: each covariance matrix and its count are allocated and released
    together. When the dict has the keys of the covariance group and each
    matrix is None exactly when its count is, the same holds after any
    operation of the covariance tracker, however it ends. *)
Theorem covariance_factors_stay_paired (op : CovarianceOp Raw) st o st' :
  has_keys COVARIANCE_FACTOR_NAMES st →
  paired ACTIVATION_COVARIANCE_MATRIX_NAME
    NUM_ACTIVATION_COVARIANCE_PROCESSED st →
  paired GRADIENT_COVARIANCE_MATRIX_NAME
    NUM_GRADIENT_COVARIANCE_PROCESSED st →
  run_covariance_op module env op st = (o, st') →
  has_keys COVARIANCE_FACTOR_NAMES st'
  ∧ paired ACTIVATION_COVARIANCE_MATRIX_NAME
      NUM_ACTIVATION_COVARIANCE_PROCESSED st'
  ∧ paired GRADIENT_COVARIANCE_MATRIX_NAME
      NUM_GRADIENT_COVARIANCE_PROCESSED st'.
Proof.
  intros Hkeys Ha Hg Hrun. split.
  - assert (Hrel : relates keys_stay (run_covariance_op module env op)).
    { destruct op; cbn [run_covariance_op];
        unfold void, covariance_forward_hook, covariance_backward_hook,
          _update_activation_covariance_matrix,
          _update_gradient_covariance_matrix, covariance_exist,
          covariance_synchronize, covariance_release_memory,
          storage_count_add_, reduce_factor;
        repeat relates_step keys_prim. }
    apply Hrel in Hrun. unfold has_keys in *.
    eapply Forall_impl; [exact Hkeys|]. intros k Hk. by apply Hrun.
  - assert (Hdec : op = cov_release_memory ∨ op ≠ cov_release_memory)
      by (destruct op; (by left) || by right).
    destruct Hdec as [->|Hop].
    + destruct (release_memory_spec CovarianceTracker st Hkeys)
        as (st1 & Hrel & Hst & _).
      cbn [run_covariance_op release_memory] in Hrun, Hrel.
      rewrite Hrel in Hrun. injection Hrun as _ <-.
      unfold paired, is_set. rewrite Hst.
      rewrite !lookup_unset_all.
      split; rewrite !decide_True by compute_done; done.
    + split.
      * eapply (pairings_covariance_op _ _ op); [by left|done|exact Hrun|].
        exact Ha.
      * eapply (pairings_covariance_op _ _ op); [by right|done|exact Hrun|].
        exact Hg.
Qed.
End CovariancePairing.

(** ** Failures in the middle of a covariance update *)

Section CovarianceEdges.
Context {R : Type} `{Scalar R} {Raw : Type}.
Context (module : TrackedModule R Raw).
Implicit Types (st : Tracker R Raw).

(** X10: a covariance update is not atomic. When the flattened
    activation does not fit the stored activation covariance (another
    dtype or another width), the forward hook raises [RuntimeError] at
    [addmm_], after the count was incremented: the count is then ahead of
    the matrix, which is unchanged. *)
Theorem activation_update_mismatch inputs st n C x c :
  storage st !! NUM_ACTIVATION_COVARIANCE_PROCESSED
    = Some (Some (VCount n)) →
  storage st !! ACTIVATION_COVARIANCE_MATRIX_NAME
    = Some (Some (VTensor C)) →
  get_flattened_activation module
    (to_dtype (activation_covariance_dtype (factor_args module)) inputs)
    = (x, c) →
  in_int64 c = true →
  dtype C ≠ dtype x ∨ ncols (data C) ≠ ncols (data x) →
  covariance_forward_hook module inputs st
  = (Raise RuntimeError,
     set_storage
       (<[NUM_ACTIVATION_COVARIANCE_PROCESSED :=
            Some (VCount (wrap_int64 (n + c)))]> (storage st)) st).
Proof.
  intros Hnum Hmat Hflat Hc Hbad. unfold covariance_forward_hook.
  apply bind_Raise. rewrite activation_update_eq, Hflat.
  unfold update_covariance. cbn [fst snd].
  erewrite bind_Ok by (by apply storage_get_Some).
  cbv beta iota.
  erewrite bind_Ok by reflexivity.
  erewrite bind_Ok by (by apply storage_count_add_Some).
  erewrite bind_Ok
    by (apply storage_matrix_Some; rewrite storage_set_storage;
        rewrite lookup_insert_ne by done; exact Hmat).
  apply bind_Raise. unfold lift, addmm_.
  rewrite decide_False; [done|].
  intros (Hd1 & Hd2 & _ & _ & Hcols). simpl in *.
  destruct Hbad as [Hbad|Hbad]; [apply Hbad; congruence|done].
Qed.
End CovarianceEdges.

(** ** More algebra of rows and matrices *)

Section MoreTensorLemmas.
Context {R : Type} `{Scalar R}.
Implicit Types (x y z : R) (u v w : list R) (a b : list (list R)).

Lemma smul_comm x y : smul x y = smul y x.
Proof. apply (SRmul_comm scalar_sring). Qed.
Lemma smul_1_l x : smul s1 x = x.
Proof. apply (SRmul_1_l scalar_sring). Qed.
Lemma smul_0_l x : smul s0 x = s0.
Proof. apply (SRmul_0_l scalar_sring). Qed.
Lemma smul_1_r x : smul x s1 = x.
Proof. by rewrite smul_comm, smul_1_l. Qed.
Lemma smul_0_r x : smul x s0 = s0.
Proof. by rewrite smul_comm, smul_0_l. Qed.

Lemma dot_cons x u y v : dot (x :: u) (y :: v) = sadd (smul x y) (dot u v).
Proof. done. Qed.

Lemma dot_comm u v : dot u v = dot v u.
Proof.
  unfold dot. f_equal. apply zip_with_comm_same. apply smul_comm.
Qed.

Lemma dot_zeros_l n v : dot (vzeros n) v = s0.
Proof.
  revert v. induction n as [|n IH]; intros [|y v]; try done.
  cbn [vzeros replicate]. rewrite dot_cons. fold (vzeros n).
  by rewrite IH, smul_0_l, sadd_0_l.
Qed.

Lemma dot_zeros_r n u : dot u (vzeros n) = s0.
Proof. by rewrite dot_comm, dot_zeros_l. Qed.

(** Transposition *)

Lemma replicate_nil_fmap {A B} (l : list A) :
  replicate (length l) ([] : list B) = (λ _, []) <$> l.
Proof. induction l; simpl; by f_equal. Qed.

Lemma zip_with_fmap_same {A B} (f : A → B) (g : A → list B)
    (l : list A) :
  zip_with cons (f <$> l) (g <$> l) = (λ i, f i :: g i) <$> l.
Proof. induction l; simpl; by f_equal. Qed.

(** The transpose of a table of values [g u v]. *)
Lemma transpose_table {A B} (g : A → B → R) (l1 : list A) (l2 : list B) :
  transpose (length l2) ((λ i, g i <$> l2) <$> l1)
  = (λ j, (λ i, g i j) <$> l1) <$> l2.
Proof.
  unfold transpose. induction l1 as [|i l1 IH].
  - apply replicate_nil_fmap.
  - rewrite fmap_cons. cbn [foldr]. rewrite IH.
    apply (zip_with_fmap_same (g i)).
Qed.

Lemma gram_symmetric d a : rows_wf d a → transpose d (gram d a) = gram d a.
Proof.
  intros Ha. unfold gram, mm.
  rewrite <- (length_transpose d a Ha) at 1.
  rewrite transpose_table. apply list_fmap_ext. intros i v _.
  apply list_fmap_ext. intros j u _. apply dot_comm.
Qed.

Lemma zip_with_cons_vadd u v (ta tb : list (list R)) :
  zip_with cons (vadd u v) (madd ta tb)
  = madd (zip_with cons u ta) (zip_with cons v tb).
Proof.
  revert v ta tb.
  induction u as [|x u IH]; intros [|y v] [|ra ta] [|rb tb]; simpl;
    try done.
  f_equal. apply IH.
Qed.

Lemma madd_replicate_nil c :
  madd (replicate c []) (replicate c []) = replicate c ([] : list R).
Proof. induction c; simpl; by f_equal. Qed.

Lemma transpose_madd c a b :
  length a = length b →
  transpose c (madd a b) = madd (transpose c a) (transpose c b).
Proof.
  revert b. unfold transpose.
  induction a as [|u a IH]; intros [|v b] Hlen; simpl in *; try done.
  - by rewrite madd_replicate_nil.
  - rewrite <- zip_with_cons_vadd. f_equal. apply IH. lia.
Qed.

Lemma zip_with_cons_replicate {A} n (x : A) (l : list A) :
  zip_with cons (replicate n x) (replicate n l) = replicate n (x :: l).
Proof. induction n; simpl; by f_equal. Qed.

Lemma transpose_mzeros r c : transpose c (mzeros r c) = mzeros c r.
Proof.
  unfold transpose, mzeros, vzeros. induction r as [|r IH]; simpl.
  - done.
  - rewrite IH. apply zip_with_cons_replicate.
Qed.

Lemma symmetric_zeros d dt : symmetric (data (zeros d d dt)).
Proof.
  unfold symmetric, nrows, matrix_wf. simpl.
  split; [apply length_mzeros|]. split; [apply rows_wf_mzeros|].
  apply transpose_mzeros.
Qed.

Lemma symmetric_addmm (C x r : Tensor (Matrix R)) :
  symmetric (data C) → matrix_wf (data x) →
  addmm_ C (t_ x) x = Ok r → symmetric (data r).
Proof.
  intros (Hsq & Hwf & Hsym) Hx Hadd. unfold addmm_ in Hadd.
  case_decide as Hdec; [|done]. injection Hadd as <-.
  destruct Hdec as (_ & _ & _ & Hrows & Hcols). simpl in *.
  unfold nrows in *. simpl in *.
  rewrite length_transpose in Hrows by done.
  fold (gram (ncols (data x)) (mrows (data x))).
  destruct (gram_shape (ncols (data x)) (mrows (data x)) Hx) as [Hgl Hgw].
  unfold symmetric, nrows, matrix_wf in *. simpl. rewrite Hcols in *.
  split; [apply length_madd; congruence|].
  split; [by apply rows_wf_madd|].
  rewrite transpose_madd by congruence.
  by rewrite Hsym, gram_symmetric.
Qed.
End MoreTensorLemmas.

(** ** Symmetry of the covariance matrices *)

Section CovarianceSymmetry.
Context {R : Type} `{Scalar R} {Raw : Type}.
Context (module : TrackedModule R Raw).
Implicit Types (st : Tracker R Raw) (k : string).

#[local] Instance symmetry_kept_refl k :
  Reflexive (symmetry_kept (R:=R) (Raw:=Raw) k).
Proof. intros st Hs. exact Hs. Qed.

#[local] Instance symmetry_kept_trans k :
  Transitive (symmetry_kept (R:=R) (Raw:=Raw) k).
Proof. intros st1 st2 st3 H12 H23 Hs. by apply H23, H12. Qed.

#[local] Existing Instance storage_outside_refl.
#[local] Existing Instance storage_outside_trans.

Lemma symmetry_storage_set_ne k k' (v : option (Value R)) :
  k' ≠ k → relates (symmetry_kept k) (storage_set (Raw:=Raw) k' v).
Proof.
  intros Hne st o st' [= _ <-] Hs t. simpl.
  rewrite lookup_insert_ne by done. apply Hs.
Qed.

Lemma symmetry_storage_set_symmetric k k' (t : Tensor (Matrix R)) :
  symmetric (data t) →
  relates (symmetry_kept k) (storage_set (Raw:=Raw) k' (Some (VTensor t))).
Proof.
  intros Ht st o st' [= _ <-] Hs t'. simpl.
  destruct (decide (k' = k)) as [->|Hne].
  - rewrite lookup_insert_eq. by intros [= <-].
  - rewrite lookup_insert_ne by done. apply Hs.
Qed.

Lemma symmetry_accumulate mat (x : Tensor (Matrix R)) :
  matrix_wf (data x) →
  relates (Raw:=Raw) (symmetry_kept mat)
    (bind (storage_matrix mat) (λ self,
     bind (lift (addmm_ self (t_ x) x)) (λ r,
     storage_set mat (Some (VTensor r))))).
Proof.
  intros Hx st o st' Hrun Hs.
  unfold bind, storage_matrix, storage_get, bind, lift, storage_set in Hrun.
  destruct (storage st !! mat) as [[[n|C]|]|] eqn:Hmat; simpl in Hrun;
    try (by injection Hrun as _ <-).
  destruct (addmm_ C (t_ x) x) as [r|e] eqn:Hadd;
    injection Hrun as _ <-; [|done].
  intros t. simpl. rewrite lookup_insert_eq. intros [= <-].
  eapply symmetric_addmm; [|done|exact Hadd]. by apply Hs.
Qed.

Lemma symmetry_update_covariance num mat (x : Tensor (Matrix R)) c :
  num ≠ mat → matrix_wf (data x) →
  relates (Raw:=Raw) (symmetry_kept mat) (update_covariance num mat x c).
Proof.
  intros Hne Hx. unfold update_covariance, storage_count_add_.
  repeat first
    [ apply symmetry_accumulate; done
    | relates_step
        ltac:(first [ apply symmetry_storage_set_symmetric;
                      apply symmetric_zeros
                    | apply symmetry_storage_set_ne; done ]) ].
Qed.

Lemma symmetry_outside keys k st st' :
  k ∉ keys → storage_outside keys st st' → symmetry_kept k st st'.
Proof.
  intros Hk Hout Hs t. rewrite (Hout k Hk). apply Hs.
Qed.

(** X11: the covariance matrices stay symmetric. If the stored
    activation and gradient covariances are symmetric where they are set,
    they are so after a forward or backward firing of the covariance
    tracker, however it ends: a fresh matrix is all zeros and each update
    adds [x^T x]. *)
Theorem covariance_stays_symmetric (f : Firing Raw) st o st' :
  Forall (λ xc, matrix_wf (data xc.1))
    (flattened_activations module [f] ++ flattened_gradients module [f]) →
  symmetric_entry st ACTIVATION_COVARIANCE_MATRIX_NAME →
  symmetric_entry st GRADIENT_COVARIANCE_MATRIX_NAME →
  fire_covariance module f st = (o, st') →
  symmetric_entry st' ACTIVATION_COVARIANCE_MATRIX_NAME
  ∧ symmetric_entry st' GRADIENT_COVARIANCE_MATRIX_NAME.
Proof.
  intros Hwf Ha Hg Hrun.
  assert (Hother : ∀ num mat k (x : Tensor (Matrix R)) c,
            k ≠ num → k ≠ mat →
            relates (Raw:=Raw) (symmetry_kept k)
              (update_covariance num mat x c)).
  { intros num mat k x c Hk1 Hk2 s o' s' Hs.
    eapply (symmetry_outside [num; mat]);
      [|by eapply outside_update_covariance].
    rewrite !not_elem_of_cons. split_and!; (done || apply not_elem_of_nil). }
  destruct f as [inputs|g].
  - rewrite flattened_activations_forward, flattened_gradients_forward
      in Hwf.
    apply Forall_cons in Hwf as [Hx _].
    assert (Hrel : ∀ k,
              k = ACTIVATION_COVARIANCE_MATRIX_NAME
              ∨ k = GRADIENT_COVARIANCE_MATRIX_NAME →
              relates (symmetry_kept k)
                (fire_covariance module (forward_firing inputs))).
    { intros k Hk. cbn [fire_covariance]. unfold covariance_forward_hook.
      apply relates_bind; [typeclasses eauto| |intros ?; apply relates_ret;
                                               typeclasses eauto].
      apply relates_bind; [typeclasses eauto| |intros ?; apply relates_ret;
                                               typeclasses eauto].
      eapply relates_ext; [intros s; symmetry; apply activation_update_eq|].
      destruct Hk as [->| ->].
      - by apply symmetry_update_covariance.
      - by apply Hother. }
    split; (eapply Hrel; [|exact Hrun|]); auto.
  - rewrite flattened_activations_backward, flattened_gradients_backward
      in Hwf.
    apply Forall_cons in Hwf as [Hx _].
    assert (Hrel : ∀ k,
              k = ACTIVATION_COVARIANCE_MATRIX_NAME
              ∨ k = GRADIENT_COVARIANCE_MATRIX_NAME →
              relates (symmetry_kept k)
                (fire_covariance module (backward_firing g))).
    { intros k Hk. cbn [fire_covariance]. unfold covariance_backward_hook.
      eapply relates_ext; [intros s; symmetry; apply gradient_update_eq|].
      destruct Hk as [->| ->].
      - by apply Hother.
      - by apply symmetry_update_covariance. }
    split; (eapply Hrel; [|exact Hrun|]); auto.
Qed.
End CovarianceSymmetry.

(** ** Lambda updates in closed form *)

Ltac lookup_step :=
  rewrite ?storage_set_storage;
  repeat (rewrite lookup_insert_eq || rewrite lookup_insert_ne by done);
  try done.

Section WithoutEigenbasis.
Context {R : Type} `{Scalar R} {Raw : Type}.
Context (module : TrackedModule R Raw) (env : Env R).
Implicit Types (st : Tracker R Raw) (p : Tensor (Batch R))
  (L : Tensor (Matrix R)).

Lemma add_same_shape L (other : Tensor (Matrix R)) r c :
  has_shape r c (data L) → has_shape r c (data other) →
  add_ L other
  = Ok (mkTensor (dtype L)
          (mkMatrix (ncols (data L))
             (madd (mrows (data L)) (mrows (data other))))).
Proof.
  intros (Hr & Hc & _) (Hr' & Hc' & Hwf). unfold add_.
  unfold nrows, matrix_wf in *.
  rewrite broadcast_matrix_same; [done|congruence|congruence].
Qed.

Lemma squares_sum_shape r c (b : Batch R) :
  batch_has_shape r c b →
  has_shape r c (mkMatrix (bcols b) (squares_sum b)).
Proof.
  intros (Hr & Hc & Hwf). unfold squares_sum.
  destruct (msum_shape (brows b) (bcols b) (msquare <$> samples b))
    as [Hlen Hrows].
  { apply Forall_fmap. eapply Forall_impl; [exact Hwf|].
    intros s [Hs Hsw]. simpl. split.
    - by rewrite length_msquare.
    - by apply rows_wf_msquare. }
  unfold has_shape, nrows, matrix_wf. simpl. split_and!; congruence.
Qed.

Lemma insert_over_allocation (m : gmap string (option (Value R)))
    a b va va' vb vb' :
  a ≠ b →
  <[a:=va]> (<[b:=vb]> (<[a:=va']> (<[b:=vb']> m)))
  = <[a:=va]> (<[b:=vb]> m).
Proof.
  intros Hab. rewrite (insert_insert_ne _ b a) by done.
  by rewrite !insert_insert_eq.
Qed.

(** The whole update when the eigenbasis is taken as the identity. *)
Lemma update_lambda_squares p aliases st r c n L :
  requires_eigendecomposition_for_lambda env (strategy (factor_args module))
    = false →
  batch_has_shape r c (data p) →
  lambda_before r c (dtype p) st = Some (n, L) →
  has_shape r c (data L) →
  in_int64 (Z.of_nat (batch_size (data p))) = true →
  in_int64 (n + Z.of_nat (batch_size (data p))) = true →
  _update_lambda_matrix module env p aliases st
  = (Ok tt,
     mkTracker
       (<[LAMBDA_MATRIX_NAME :=
            Some (VTensor
                    (mkTensor (dtype L)
                       (mkMatrix (ncols (data L))
                          (madd (mrows (data L)) (squares_sum (data p))))))]>
          (<[NUM_LAMBDA_PROCESSED :=
               Some (VCount (n + Z.of_nat (batch_size (data p))))]>
             (storage st)))
       (cached_activations st)
       (if aliases then Some (square_batch_ p)
        else cached_per_sample_gradient st)
       (collective_log st)).
Proof.
  intros Hreq Hp Hbefore HLs Hb Hnb.
  assert (Hadd : add_ L (sum_dim0 (square_batch_ p))
            = Ok (mkTensor (dtype L)
                    (mkMatrix (ncols (data L))
                       (madd (mrows (data L)) (squares_sum (data p)))))).
  { rewrite (add_same_shape L (sum_dim0 (square_batch_ p)) r c);
      [reflexivity|done|].
    change (has_shape r c (mkMatrix (bcols (data p)) (squares_sum (data p)))).
    by apply squares_sum_shape. }
  unfold _update_lambda_matrix. rewrite Hreq.
  unfold lambda_before in Hbefore.
  destruct (storage st !! NUM_LAMBDA_PROCESSED) as [[[n0|?]|]|] eqn:Hnum;
    [| done | | done].
  - destruct (storage st !! LAMBDA_MATRIX_NAME) as [[[?|L0]|]|] eqn:Hlam;
      try done.
    injection Hbefore as -> ->.
    erewrite bind_Ok; [|by apply storage_get_Some].
    unfold bind at 1, ret at 1.
    erewrite bind_Ok; [|by apply storage_count_add_Some].
    rewrite (wrap_int64_id _ Hnb).
    erewrite bind_Ok; [|apply storage_matrix_Some; lookup_step].
    destruct aliases.
    + unfold bind at 1, set_cached_per_sample_gradient at 1.
      erewrite bind_Ok; [|unfold lift; by rewrite Hadd].
      reflexivity.
    + unfold bind at 1, ret at 1.
      erewrite bind_Ok; [|unfold lift; by rewrite Hadd].
      reflexivity.
  - destruct (storage st !! LAMBDA_MATRIX_NAME) as [lam|] eqn:Hlam;
      [|done].
    injection Hbefore as <- <-.
    assert (Hadd0 : add_ (zeros (brows (data p)) (bcols (data p)) (dtype p))
              (sum_dim0 (square_batch_ p))
              = Ok (mkTensor (dtype p)
                      (mkMatrix c
                         (madd (mzeros r c) (squares_sum (data p)))))).
    { destruct Hp as (Hr & Hc & _). rewrite Hr, Hc. exact Hadd. }
    erewrite bind_Ok; [|by apply storage_get_Some].
    cbv beta iota. rewrite bind_set_set. unfold bind at 1, ret at 1.
    erewrite bind_Ok;
      [|apply storage_count_add_Some; [lookup_step|done]].
    rewrite (wrap_int64_id _ Hnb).
    erewrite bind_Ok; [|apply storage_matrix_Some; lookup_step].
    destruct aliases.
    + unfold bind at 1, set_cached_per_sample_gradient at 1.
      erewrite bind_Ok; [|unfold lift; by rewrite Hadd0].
      unfold storage_set. f_equal.
      apply tracker_eq; simpl; [by apply insert_over_allocation|done..].
    + unfold bind at 1, ret at 1.
      erewrite bind_Ok; [|unfold lift; by rewrite Hadd0].
      unfold storage_set. f_equal.
      apply tracker_eq; simpl; [by apply insert_over_allocation|done..].
Qed.
(** X12: under a strategy that does not require the eigendecomposition
    the update needs no eigenvectors: whatever the eigenvector entries
    hold, and even if the dict lacks them, it returns normally, increments
    the count by the batch size and adds to the Lambda matrix the sum over
    the samples of their elementwise squares; no entry outside the Lambda
    group is changed. The batch passed in is squared in place: when it is
    the cached per-sample gradient, the cache holds the squares
    afterwards. *)
Theorem update_lambda_without_eigenbasis p aliases st r c n L :
  requires_eigendecomposition_for_lambda env (strategy (factor_args module))
    = false →
  batch_has_shape r c (data p) →
  lambda_before r c (dtype p) st = Some (n, L) →
  has_shape r c (data L) →
  in_int64 (Z.of_nat (batch_size (data p))) = true →
  in_int64 (n + Z.of_nat (batch_size (data p))) = true →
  ∃ st',
    _update_lambda_matrix module env p aliases st = (Ok tt, st')
    ∧ storage st' !! NUM_LAMBDA_PROCESSED
      = Some (Some (VCount (n + Z.of_nat (batch_size (data p)))))
    ∧ storage st' !! LAMBDA_MATRIX_NAME
      = Some (Some (VTensor
                      (mkTensor (dtype L)
                         (mkMatrix c
                            (madd (mrows (data L))
                               (squares_sum (data p)))))))
    ∧ (∀ k, k ∉ LAMBDA_FACTOR_NAMES → storage st' !! k = storage st !! k)
    ∧ cached_activations st' = cached_activations st
    ∧ cached_per_sample_gradient st'
      = (if aliases then Some (square_batch_ p)
         else cached_per_sample_gradient st).
Proof.
  intros Hreq Hp Hbefore HLs Hb Hnb.
  eexists. split; [by apply (update_lambda_squares p aliases st r c n L)|].
  cbn [storage cached_activations cached_per_sample_gradient].
  destruct HLs as (_ & -> & _).
  split; [by lookup_step|]. split; [by lookup_step|].
  split; [|done]. intros k Hk.
  apply not_elem_of_cons in Hk as [Hk1 Hk].
  apply not_elem_of_cons in Hk as [Hk2 _].
  by rewrite !lookup_insert_ne.
Qed.
End WithoutEigenbasis.

Section IdentityEigenbasis.
Context {R : Type} `{Scalar R} {Raw : Type}.
Context (module : TrackedModule R Raw) (env : Env R).
Implicit Types (st : Tracker R Raw) (p : Tensor (Batch R))
  (u : list R) (s : list (list R)).

Lemma length_identity n : length (identity (R:=R) n) = n.
Proof.
  induction n as [|n IH]; [done|]. cbn [identity length].
  by rewrite length_fmap, IH.
Qed.

Lemma transpose_cons_col n (x : R) (M : list (list R)) :
  transpose (S n) (cons x <$> M) = replicate (length M) x :: transpose n M.
Proof.
  unfold transpose. induction M as [|w M IH]; [done|].
  rewrite fmap_cons. cbn [foldr]. rewrite IH. done.
Qed.

Lemma zip_with_replicate_cons {A} n (x : A) (l : list (list A)) :
  length l = n → zip_with cons (replicate n x) l = cons x <$> l.
Proof.
  intros <-. induction l as [|w l IH]; [done|]. simpl. by rewrite IH.
Qed.

Lemma transpose_identity n : transpose n (identity (R:=R) n) = identity n.
Proof.
  induction n as [|n IH]; [done|]. cbn [identity].
  change (zip_with cons (s1 :: vzeros n)
            (transpose (S n) (cons s0 <$> identity n))
          = (s1 :: vzeros n) :: (cons s0 <$> identity n)).
  rewrite transpose_cons_col, IH, length_identity.
  cbn [zip_with]. f_equal.
  apply zip_with_replicate_cons, length_identity.
Qed.

Lemma dot_identity_row n u : length u = n → dot u <$> identity n = u.
Proof.
  revert u. induction n as [|n IH]; intros [|x u] Hlen; simpl in Hlen;
    try done.
  cbn [identity]. rewrite fmap_cons. f_equal.
  - by rewrite dot_cons, smul_1_r, dot_zeros_r, sadd_0_r.
  - rewrite <- list_fmap_compose.
    etrans; [|apply (IH u); lia].
    apply list_fmap_ext. intros i e _. simpl.
    by rewrite dot_cons, smul_0_r, sadd_0_l.
Qed.

Lemma mm_identity_r s c : rows_wf c s → mm s (identity c) c = s.
Proof.
  intros Hs. unfold mm. rewrite transpose_identity.
  induction Hs as [|u s Hu _ IH]; [done|].
  rewrite fmap_cons. f_equal; [by apply dot_identity_row|exact IH].
Qed.

Lemma first_row_of_product n u (T : list (list R)) :
  length u = length T →
  dot (s1 :: vzeros n) <$> zip_with cons u T = u.
Proof.
  revert T. induction u as [|x u IH]; intros [|t T] Hlen; simpl in Hlen;
    try done.
  cbn [zip_with]. rewrite fmap_cons. f_equal.
  - by rewrite dot_cons, smul_1_l, dot_zeros_l, sadd_0_r.
  - apply IH. lia.
Qed.

Lemma other_rows_of_product e u (T : list (list R)) :
  length u = length T →
  dot (s0 :: e) <$> zip_with cons u T = dot e <$> T.
Proof.
  revert T. induction u as [|x u IH]; intros [|t T] Hlen; simpl in Hlen;
    try done.
  cbn [zip_with]. rewrite !fmap_cons. f_equal.
  - by rewrite dot_cons, smul_0_l, sadd_0_l.
  - apply IH. lia.
Qed.

Lemma mm_identity_l r s c :
  length s = r → rows_wf c s → mm (identity r) s c = s.
Proof.
  intros Hlen Hs. revert r Hlen.
  induction Hs as [|u s Hu Hs IH]; intros [|r] Hlen; simpl in Hlen;
    try done.
  unfold mm. cbn [identity]. rewrite fmap_cons.
  change (transpose c (u :: s)) with (zip_with cons u (transpose c s)).
  assert (HT : length u = length (transpose c s))
    by (by rewrite length_transpose).
  f_equal.
  - by apply first_row_of_product.
  - rewrite <- list_fmap_compose.
    etrans; [|apply (IH r); lia]. unfold mm.
    apply list_fmap_ext. intros i e _. simpl.
    by apply other_rows_of_product.
Qed.

(** With identity matrices for eigenvectors the projection is the
    identity. *)
Lemma lambda_increment_identity r c (b : Batch R) :
  batch_has_shape r c b →
  lambda_increment (mkMatrix c (identity c)) (mkMatrix r (identity r)) b
  = squares_sum b.
Proof.
  intros (Hr & Hc & Hwf). unfold lambda_increment, squares_sum.
  cbn [ncols mrows]. rewrite Hr, Hc. f_equal.
  unfold batch_wf in Hwf. rewrite Hr, Hc in Hwf.
  induction Hwf as [|s ss [Hs Hsw] _ IH]; [done|].
  rewrite !fmap_cons. f_equal; [|exact IH].
  by rewrite transpose_identity, mm_identity_r, mm_identity_l.
Qed.

Lemma with_iterative_same (m : TrackedModule R Raw) :
  with_iterative (use_iterative_lambda_aggregation (factor_args m)) m = m.
Proof. by destruct m as [[] ? ? ? ?]. Qed.
End IdentityEigenbasis.

Section LambdaClosedForms.
Context {R : Type} `{Scalar R} {Raw : Type}.
Context (module : TrackedModule R Raw) (env : Env R).
Implicit Types (st : Tracker R Raw) (p : Tensor (Batch R))
  (A G L : Tensor (Matrix R)).

Lemma rows_wf_identity n : rows_wf n (identity (R:=R) n).
Proof.
  unfold rows_wf. induction n as [|n IH]; [constructor|].
  cbn [identity]. constructor.
  - simpl. unfold vzeros. by rewrite length_replicate.
  - apply Forall_fmap. eapply Forall_impl; [exact IH|].
    intros e He. simpl. by rewrite He.
Qed.

Lemma has_shape_identity n (m : Matrix R) :
  m = mkMatrix n (identity n) → has_shape n n m.
Proof.
  intros ->. unfold has_shape, nrows, matrix_wf. simpl.
  split; [apply length_identity|]. split; [done|apply rows_wf_identity].
Qed.

Lemma msum_app r c (l1 l2 : list (list (list R))) :
  Forall (λ s, length s = r ∧ rows_wf c s) l1 →
  Forall (λ s, length s = r ∧ rows_wf c s) l2 →
  foldr madd (mzeros r c) (l1 ++ l2)
  = madd (foldr madd (mzeros r c) l1) (foldr madd (mzeros r c) l2).
Proof.
  intros H1 H2. destruct (msum_shape r c l2 H2) as [Hlen Hwf].
  induction H1 as [|s l1 _ _ IH]; simpl.
  - by rewrite (madd_zeros_l _ r c).
  - by rewrite IH, madd_assoc.
Qed.

Lemma increments_shape A G r c (ss : list (list (list R))) :
  has_shape c c (data A) → has_shape r r (data G) →
  Forall (λ s, length s = r ∧ rows_wf c s) ss →
  Forall (λ s, length s = r ∧ rows_wf c s)
    ((λ s, msquare (mm (transpose (ncols (data G)) (mrows (data G)))
                      (mm s (mrows (data A)) (ncols (data A)))
                      (ncols (data A)))) <$> ss).
Proof.
  intros HA HG Hss.
  assert (Hc : ncols (data A) = c) by (by destruct HA as (_ & ? & _)).
  rewrite Hc.
  pose proof (squared_shape G r c _ HG (projected_shape A r c ss HA Hss))
    as Hsq.
  by rewrite <- list_fmap_compose in Hsq.
Qed.

Lemma lambda_increment_shape A G r c (b : Batch R) :
  has_shape c c (data A) → has_shape r r (data G) →
  batch_has_shape r c b →
  has_shape r c (mkMatrix c (lambda_increment (data A) (data G) b)).
Proof.
  intros HA HG (Hr & Hc & Hwf). unfold lambda_increment.
  assert (HcA : ncols (data A) = c) by (by destruct HA as (_ & ? & _)).
  assert (HcG : ncols (data G) = r) by (by destruct HG as (_ & ? & _)).
  unfold batch_wf in Hwf. rewrite Hr, Hc in Hwf.
  pose proof (increments_shape A G r c _ HA HG Hwf) as Hinc.
  destruct (msum_shape r c _ Hinc) as [Hlen Hrows].
  unfold has_shape, nrows, matrix_wf. simpl.
  rewrite HcA, HcG in *. done.
Qed.

(** X13: an identity eigenbasis is no eigenbasis. With identity matrices
    stored as the eigenvectors, the update under a strategy that requires
    the eigendecomposition leaves the same Lambda matrix and the same
    count as the update under a strategy that does not. *)
Theorem identity_eigenbasis_agrees (env' : Env R) p aliases st r c A G n L :
  requires_eigendecomposition_for_lambda env (strategy (factor_args module))
    = true →
  requires_eigendecomposition_for_lambda env' (strategy (factor_args module))
    = false →
  batch_has_shape r c (data p) →
  storage st !! ACTIVATION_EIGENVECTORS_NAME = Some (Some (VTensor A)) →
  data A = mkMatrix c (identity c) →
  storage st !! GRADIENT_EIGENVECTORS_NAME = Some (Some (VTensor G)) →
  data G = mkMatrix r (identity r) →
  lambda_before r c (dtype p) st = Some (n, L) →
  has_shape r c (data L) →
  (storage st !! NUM_LAMBDA_PROCESSED ≠ Some None →
     dtype A = dtype p ∧ dtype G = dtype p) →
  in_int64 (Z.of_nat (batch_size (data p))) = true →
  in_int64 (n + Z.of_nat (batch_size (data p))) = true →
  ∃ st1 st2,
    _update_lambda_matrix module env p aliases st = (Ok tt, st1)
    ∧ _update_lambda_matrix module env' p aliases st = (Ok tt, st2)
    ∧ storage st1 !! LAMBDA_MATRIX_NAME = storage st2 !! LAMBDA_MATRIX_NAME
    ∧ storage st1 !! NUM_LAMBDA_PROCESSED
      = storage st2 !! NUM_LAMBDA_PROCESSED.
Proof.
  intros Hreq Hreq' Hp HA HdA HG HdG Hbefore HLs Hdt Hb Hnb.
  destruct (update_lambda_in_eigenbasis module env
              (use_iterative_lambda_aggregation (factor_args module))
              p aliases st r c A G n L)
    as (st1 & Hrun1 & Hst1); try done.
  { by apply has_shape_identity. }
  { by apply has_shape_identity. }
  rewrite with_iterative_same in Hrun1.
  pose proof (update_lambda_squares module env' p aliases st r c
                n L Hreq' Hp Hbefore HLs Hb Hnb) as Hrun2.
  eexists st1, _. split; [exact Hrun1|]. split; [exact Hrun2|].
  rewrite Hst1. cbn [storage]. lookup_step.
  split; [|done].
  by rewrite HdA, HdG, (lambda_increment_identity r c).
Qed.
End LambdaClosedForms.

Section LambdaBatches.
Context {R : Type} `{Scalar R} {Raw : Type}.
Context (module : TrackedModule R Raw) (env : Env R).
Implicit Types (st : Tracker R Raw) (p : Tensor (Batch R))
  (A G L : Tensor (Matrix R)).

Lemma msum_perm (z : list (list R)) (l l' : list (list (list R))) :
  l ≡ₚ l' → foldr madd z l = foldr madd z l'.
Proof.
  induction 1 as [|x l l' _ IH|x y l|l1 l2 l3 _ IH1 _ IH2]; simpl.
  - done.
  - by rewrite IH.
  - by rewrite !madd_assoc, (madd_comm y x).
  - by rewrite IH1.
Qed.

Lemma lambda_increment_perm (A G : Matrix R) (b b' : Batch R) :
  samples b ≡ₚ samples b' →
  lambda_increment A G b = lambda_increment A G b'.
Proof.
  intros Hperm. unfold lambda_increment. apply msum_perm.
  by apply fmap_Permutation.
Qed.

Lemma lambda_increment_app (A G : Tensor (Matrix R)) r c (b1 b2 b : Batch R) :
  has_shape c c (data A) → has_shape r r (data G) →
  batch_has_shape r c b1 → batch_has_shape r c b2 →
  samples b = samples b1 ++ samples b2 →
  lambda_increment (data A) (data G) b
  = madd (lambda_increment (data A) (data G) b1)
         (lambda_increment (data A) (data G) b2).
Proof.
  intros HA HG (Hr1 & Hc1 & Hwf1) (Hr2 & Hc2 & Hwf2) Hb.
  unfold lambda_increment. rewrite Hb, fmap_app.
  assert (HcA : ncols (data A) = c) by (by destruct HA as (_ & ? & _)).
  assert (HcG : ncols (data G) = r) by (by destruct HG as (_ & ? & _)).
  unfold batch_wf in Hwf1, Hwf2.
  rewrite Hr1, Hc1 in Hwf1. rewrite Hr2, Hc2 in Hwf2.
  pose proof (increments_shape A G r c _ HA HG Hwf1) as Hi1.
  pose proof (increments_shape A G r c _ HA HG Hwf2) as Hi2.
  rewrite HcA, HcG in *. by apply msum_app.
Qed.

Lemma has_shape_madd L r c (x : list (list R)) :
  has_shape r c (data L) → has_shape r c (mkMatrix c x) →
  has_shape r c (mkMatrix (ncols (data L)) (madd (mrows (data L)) x)).
Proof.
  intros (Hr & Hc & Hwf) (Hr' & _ & Hwf').
  unfold has_shape, nrows, matrix_wf in *. simpl in *.
  split; [by apply length_madd|]. split; [done|].
  rewrite Hc in *. by apply rows_wf_madd.
Qed.

(** X14: the order of the samples in a batch does not matter. Under a
    strategy that requires the eigendecomposition, the update with a
    batch and the update with the same samples in another order return
    normally in the same state, whether the samples are accumulated one
    by one or all at once. *)
Theorem lambda_update_ignores_sample_order p ss aliases st r c A G n L :
  requires_eigendecomposition_for_lambda env (strategy (factor_args module))
    = true →
  samples (data p) ≡ₚ ss →
  batch_has_shape r c (data p) →
  storage st !! ACTIVATION_EIGENVECTORS_NAME = Some (Some (VTensor A)) →
  has_shape c c (data A) →
  storage st !! GRADIENT_EIGENVECTORS_NAME = Some (Some (VTensor G)) →
  has_shape r r (data G) →
  lambda_before r c (dtype p) st = Some (n, L) →
  has_shape r c (data L) →
  (storage st !! NUM_LAMBDA_PROCESSED ≠ Some None →
     dtype A = dtype p ∧ dtype G = dtype p) →
  in_int64 (Z.of_nat (batch_size (data p))) = true →
  in_int64 (n + Z.of_nat (batch_size (data p))) = true →
  ∃ st',
    _update_lambda_matrix module env p aliases st = (Ok tt, st')
    ∧ _update_lambda_matrix module env (with_samples p ss) aliases st
      = (Ok tt, st').
Proof.
  intros Hreq Hperm Hp HA HAs HG HGs Hbefore HLs Hdt Hb Hnb.
  assert (Hlen : batch_size (data (with_samples p ss))
                 = batch_size (data p)).
  { unfold batch_size. simpl. symmetry. by apply Permutation_length. }
  destruct (update_lambda_in_eigenbasis module env
              (use_iterative_lambda_aggregation (factor_args module))
              p aliases st r c A G n L)
    as (st1 & Hrun1 & Hst1); try done.
  destruct (update_lambda_in_eigenbasis module env
              (use_iterative_lambda_aggregation (factor_args module))
              (with_samples p ss) aliases st r c A G n L)
    as (st2 & Hrun2 & Hst2); try done.
  { destruct Hp as (Hr & Hc & Hwf).
    split; [done|]. split; [done|]. unfold batch_wf in *. simpl.
    by rewrite <- Hperm. }
  { by rewrite Hlen. }
  { by rewrite Hlen. }
  rewrite with_iterative_same in Hrun1, Hrun2.
  exists st1. split; [done|]. rewrite Hrun2. f_equal.
  rewrite Hst1, Hst2, Hlen.
  by rewrite (lambda_increment_perm _ _ (data (with_samples p ss)) (data p)).
Qed.

(** X15: Lambda updates compose. Under a strategy that requires the
    eigendecomposition, updating with a batch and then with a second one
    of the same sample shape and dtype reaches the very state that one
    update with the two batches concatenated reaches: the accumulated
    Lambda matrix and count do not depend on how the samples are split
    into batches. *)
Theorem lambda_updates_compose p1 p2 aliases st r c A G n L :
  requires_eigendecomposition_for_lambda env (strategy (factor_args module))
    = true →
  batch_has_shape r c (data p1) →
  batch_has_shape r c (data p2) →
  dtype p2 = dtype p1 →
  storage st !! ACTIVATION_EIGENVECTORS_NAME = Some (Some (VTensor A)) →
  has_shape c c (data A) →
  storage st !! GRADIENT_EIGENVECTORS_NAME = Some (Some (VTensor G)) →
  has_shape r r (data G) →
  lambda_before r c (dtype p1) st = Some (n, L) →
  has_shape r c (data L) →
  (storage st !! NUM_LAMBDA_PROCESSED ≠ Some None →
     dtype A = dtype p1 ∧ dtype G = dtype p1) →
  (0 ≤ n)%Z →
  in_int64 (n + Z.of_nat (batch_size (data p1))
              + Z.of_nat (batch_size (data p2))) = true →
  ∃ st1 st2,
    _update_lambda_matrix module env p1 aliases st = (Ok tt, st1)
    ∧ _update_lambda_matrix module env p2 aliases st1 = (Ok tt, st2)
    ∧ _update_lambda_matrix module env (cat p1 p2) aliases st
      = (Ok tt, st2).
Proof.
  intros Hreq Hp1 Hp2 Hdt2 HA HAs HG HGs Hbefore HLs Hdt Hn Hsum.
  set (b1 := Z.of_nat (batch_size (data p1))) in *.
  set (b2 := Z.of_nat (batch_size (data p2))) in *.
  assert (Hb1 : (0 ≤ b1)%Z) by apply Nat2Z.is_nonneg.
  assert (Hb2 : (0 ≤ b2)%Z) by apply Nat2Z.is_nonneg.
  assert (Hrange : ∀ z, (0 ≤ z ≤ n + b1 + b2)%Z → in_int64 z = true).
  { intros z Hz. unfold in_int64, int64_min, int64_max in *.
    apply andb_true_iff in Hsum as [_ Hhi]. apply Z.leb_le in Hhi.
    apply andb_true_iff. split; apply Z.leb_le; lia. }
  assert (Hcat : Z.of_nat (batch_size (data (cat p1 p2))) = (b1 + b2)%Z).
  { subst b1 b2. unfold batch_size. simpl. rewrite length_app. lia. }
  destruct (update_lambda_in_eigenbasis module env
              (use_iterative_lambda_aggregation (factor_args module))
              p1 aliases st r c A G n L)
    as (st1 & Hrun1 & Hst1); try done; try (apply Hrange; lia).
  match type of Hst1 with
  | _ = set_storage (<[_:=_]> (<[_:=_]> ?m)) _ => set (M := m) in *
  end.
  assert (HMA : ∃ A1, M !! ACTIVATION_EIGENVECTORS_NAME
                      = Some (Some (VTensor A1))
                      ∧ data A1 = data A ∧ dtype A1 = dtype p1).
  { subst M. unfold lambda_before in Hbefore.
    destruct (storage st !! NUM_LAMBDA_PROCESSED) as [[[n0|?]|]|] eqn:Hnum;
      try done.
    - exists A. by destruct Hdt.
    - exists (to_dtype (dtype p1) A). by lookup_step. }
  assert (HMG : ∃ G1, M !! GRADIENT_EIGENVECTORS_NAME
                      = Some (Some (VTensor G1))
                      ∧ data G1 = data G ∧ dtype G1 = dtype p1).
  { subst M. unfold lambda_before in Hbefore.
    destruct (storage st !! NUM_LAMBDA_PROCESSED) as [[[n0|?]|]|] eqn:Hnum;
      try done.
    - exists G. by destruct Hdt.
    - exists (to_dtype (dtype p1) G). by lookup_step. }
  destruct HMA as (A1 & HA1 & HdA1 & HtA1).
  destruct HMG as (G1 & HG1 & HdG1 & HtG1).
  set (L1 := mkTensor (dtype L)
               (mkMatrix (ncols (data L))
                  (madd (mrows (data L))
                     (lambda_increment (data A) (data G) (data p1))))) in *.
  assert (HN1 : storage st1 !! NUM_LAMBDA_PROCESSED
                = Some (Some (VCount (n + b1)))) by (rewrite Hst1; lookup_step).
  assert (HL1 : storage st1 !! LAMBDA_MATRIX_NAME
                = Some (Some (VTensor L1))) by (rewrite Hst1; lookup_step).
  assert (HL1s : has_shape r c (data L1)).
  { apply has_shape_madd; [done|]. by apply lambda_increment_shape. }
  destruct (update_lambda_in_eigenbasis module env
              (use_iterative_lambda_aggregation (factor_args module))
              p2 aliases st1 r c A1 G1 (n + b1)%Z L1)
    as (st2 & Hrun2 & Hst2); try done; try (apply Hrange; lia).
  { rewrite Hst1. by lookup_step. }
  { by rewrite HdA1. }
  { rewrite Hst1. by lookup_step. }
  { by rewrite HdG1. }
  { unfold lambda_before. by rewrite HN1, HL1. }
  { intros _. split; congruence. }
  destruct (update_lambda_in_eigenbasis module env
              (use_iterative_lambda_aggregation (factor_args module))
              (cat p1 p2) aliases st r c A G n L)
    as (st12 & Hrun12 & Hst12); try done.
  { destruct Hp1 as (Hr1 & Hc1 & Hwf1). destruct Hp2 as (Hr2 & Hc2 & Hwf2).
    split; [done|]. split; [done|]. unfold batch_wf in *. simpl.
    apply Forall_app. split; [done|]. by rewrite Hr1, Hc1, <- Hr2, <- Hc2. }
  { rewrite Hcat. apply Hrange. lia. }
  { rewrite Hcat. apply Hrange. lia. }
  rewrite with_iterative_same in Hrun1, Hrun2, Hrun12.
  exists st1, st2. split; [done|]. split; [done|].
  rewrite Hrun12. f_equal.
  rewrite Hst12, Hst2, HN1. cbv beta iota. rewrite Hst1.
  rewrite storage_set_storage, set_storage_twice. fold M.
  rewrite insert_over_allocation by done.
  rewrite Hcat, HdA1, HdG1.
  rewrite (lambda_increment_app A G r c (data p1) (data p2)
             (data (cat p1 p2))) by done.
  subst L1. cbn [dtype data ncols mrows].
  by rewrite madd_assoc, Z.add_assoc.
Qed.
End LambdaBatches.

(** ** A pass over a module without shared parameters *)

Section NonSharedPass.
Context {R : Type} `{Scalar R} {Raw : Type}.
Context (module : TrackedModule R Raw) (env : Env R).
Implicit Types (st : Tracker R Raw) (a g : Tensor Raw).

#[local] Existing Instance caches_kept_refl.
#[local] Existing Instance caches_kept_trans.

Hypothesis not_shared : has_shared_parameters (factor_args module) = false.

Lemma caches_update_lambda_matrix (p : Tensor (Batch R)) :
  relates caches_kept (_update_lambda_matrix module env p false).
Proof.
  unfold _update_lambda_matrix, _eigendecomposition_results_exist,
    storage_count_add_, storage_add_.
  cbv iota. repeat relates_step caches_prim.
Qed.

(** X16: without shared parameters, a forward firing followed by the
    backward firing of the hook it registered is one Lambda update, with
    the per-sample gradient of the cached copy of the input and the
    rescaled output gradient, cast to the Lambda dtype. An activation left
    in the cache by an earlier forward firing is overwritten, and both
    caches are cleared before the update, so they are None afterwards
    even when the update raises. ([clear_all_cache] and
    [_scale_output_gradient] belong to [BaseTracker] and are taken as the
    specification describes them.) *)
Theorem non_shared_pass_is_one_update a g st :
  bind (lambda_forward_hook module a) (λ h, fire module env h g) st
  = _update_lambda_matrix module env
      (to_dtype (lambda_dtype (factor_args module))
         (paired_gradient module a g))
      false
      (mkTracker (storage st) None None (collective_log st)).
Proof.
  unfold lambda_forward_hook. rewrite not_shared. reflexivity.
Qed.

(** X17: without shared parameters, [finalize_iteration] fails after
    every pass. The backward hook clears the caches before it updates
    the Lambda matrix and the update leaves them alone, so after a forward
    and a backward firing, however the update ended, the cached
    per-sample gradient is None and [finalize_iteration] raises
    [AttributeError], changing nothing. ([clear_all_cache] is taken as
    the specification describes it.) *)
Theorem finalize_fails_after_non_shared_pass a g st o st' :
  bind (lambda_forward_hook module a) (λ h, fire module env h g) st
  = (o, st') →
  finalize_iteration module env st' = (Raise AttributeError, st').
Proof.
  intros Hrun.
  assert (Hpass :
    bind (lambda_forward_hook module a) (λ h, fire module env h g) st
    = _update_lambda_matrix module env
        (to_dtype (lambda_dtype (factor_args module))
           (paired_gradient module a g))
        false
        (mkTracker (storage st) None None (collective_log st))).
  { unfold lambda_forward_hook. rewrite not_shared. reflexivity. }
  rewrite Hpass in Hrun.
  apply caches_update_lambda_matrix in Hrun as [_ Hg]. simpl in Hg.
  unfold finalize_iteration, bind, get_cached_per_sample_gradient.
  by rewrite Hg.
Qed.
End NonSharedPass.

(** * The hooks that reach the Lambda update *)

Section HookRuns.
Context {R : Type} `{Scalar R} {Raw : Type}.
Context (module : TrackedModule R Raw) (env : Env R).
Implicit Types (st : Tracker R Raw).

Lemma backward_hook_run g st :
  backward_hook module env g st
  = match cached_activations st with
    | Some (OneActivation cached) =>
        _update_lambda_matrix module env
          (to_dtype (lambda_dtype (factor_args module))
             (compute_per_sample_gradient module cached
                (_scale_output_gradient module g
                   (per_sample_gradient_dtype (factor_args module)))))
          false
          (mkTracker (storage st) None None (collective_log st))
    | Some (Activations _) => (Raise AttributeError, st)
    | None => (Raise CacheNotFound, st)
    end.
Proof.
  destruct st as [s [[a|l]|] cp lg]; reflexivity.
Qed.

Lemma finalize_iteration_run st :
  finalize_iteration module env st
  = match cached_per_sample_gradient st with
    | Some g =>
        if has_shared_parameters (factor_args module)
        then bind (_update_lambda_matrix module env
                     (to_dtype (lambda_dtype (factor_args module)) g) true)
               (λ _, clear_all_cache)
               (mkTracker (storage st) (cached_activations st)
                  (Some (to_dtype (lambda_dtype (factor_args module)) g))
                  (collective_log st))
        else (Ok tt, mkTracker (storage st) None None (collective_log st))
    | None => (Raise AttributeError, st)
    end.
Proof.
  unfold finalize_iteration.
  destruct st as [s ca [g|] lg]; [|reflexivity].
  destruct (has_shared_parameters (factor_args module)); reflexivity.
Qed.
End HookRuns.

(** * The eigenvectors under the operations of the Lambda tracker *)

Section EigenvectorsRecast.
Context {R : Type} `{Scalar R} {Raw : Type}.
Context (module : TrackedModule R Raw) (env : Env R).
Implicit Types (st : Tracker R Raw) (k : string) (dt : option Dtype).

#[local] Existing Instance storage_outside_refl.
#[local] Existing Instance storage_outside_trans.

Lemma kept_or_recast_trans dt (e1 e2 e3 : option (option (Value R))) :
  kept_or_recast dt e1 e2 → kept_or_recast dt e2 e3 →
  kept_or_recast dt e1 e3.
Proof.
  intros [->|(d & t & t' & Hd & -> & -> & Hdt & Hc & Hr)]; [done|].
  intros [->|(d' & u & u' & Hd' & [= <-] & -> & Hdt' & Hc' & Hr')].
  - right. by exists d, t, t'.
  - right. exists d', t, u'. split_and!; [done..|congruence|congruence].
Qed.

#[local] Instance eigenvectors_kept_refl dt :
  Reflexive (eigenvectors_kept (R:=R) (Raw:=Raw) dt).
Proof. intros st k _. by left. Qed.

#[local] Instance eigenvectors_kept_trans dt :
  Transitive (eigenvectors_kept (R:=R) (Raw:=Raw) dt).
Proof.
  intros st1 st2 st3 H12 H23 k Hk.
  eapply kept_or_recast_trans; [by apply H12|by apply H23].
Qed.











End EigenvectorsRecast.

(** * The eigenvector check and the count *)

Section CheckUntilRelease.
Context {R : Type} `{Scalar R} {Raw : Type}.
Context (module : TrackedModule R Raw) (env : Env R).
Implicit Types (st : Tracker R Raw) (k : string).

#[local] Instance not_None_kept_refl k :
  Reflexive (not_None_kept (R:=R) (Raw:=Raw) k).
Proof. intros st Hk. exact Hk. Qed.

#[local] Instance not_None_kept_trans k :
  Transitive (not_None_kept (R:=R) (Raw:=Raw) k).
Proof. intros st1 st2 st3 H12 H23 Hk. by apply H23, H12. Qed.

Lemma not_None_storage_set k k' (v : Value R) :
  relates (not_None_kept k) (storage_set (Raw:=Raw) k' (Some v)).
Proof.
  intros st o st' [= _ <-] Hk. unfold not_None in *. simpl.
  destruct (decide (k' = k)) as [->|Hne].
  - by rewrite lookup_insert_eq.
  - by rewrite lookup_insert_ne.
Qed.

Lemma not_None_same_storage k {A} (m : M A) :
  (∀ st, storage (m st).2 = storage st) → relates (not_None_kept k) m.
Proof.
  intros Hm st o st' Hrun Hk. specialize (Hm st).
  rewrite Hrun in Hm. unfold not_None in *. simpl in Hm. by rewrite Hm.
Qed.

Ltac not_None_prim :=
  first
    [ apply not_None_storage_set
    | apply not_None_same_storage; intros ?; reflexivity ].

(** Every operation but [release_memory] leaves a count that is not None
    not None. *)
Lemma count_stays_not_None (op : LambdaOp R Raw) :
  op ≠ op_release_memory →
  relates (not_None_kept NUM_LAMBDA_PROCESSED) (run_lambda_op module env op).
Proof.
  intros Hop.
  destruct op; try (by destruct Hop); cbn [run_lambda_op];
    unfold void, _eigendecomposition_results_exist, lambda_forward_hook,
      backward_hook, shared_backward_hook, pop_cached_activation,
      finalize_iteration, _update_lambda_matrix,
      _eigendecomposition_results_exist, lambda_exist, lambda_synchronize,
      clear_all_cache, _raise_cache_not_found_exception,
      storage_count_add_, storage_add_, reduce_factor;
    simpl; repeat relates_step not_None_prim.
Qed.

(** After a Lambda update, however it ends, the count is not None. *)
Lemma count_not_None_after_update (p : Tensor (Batch R)) aliases st o st' :
  _update_lambda_matrix module env p aliases st = (o, st') →
  not_None NUM_LAMBDA_PROCESSED st'.
Proof.
  intros Hrun. unfold not_None.
  destruct (update_lambda_outcome _ _ _ _ _ _ _ Hrun)
    as [(Hn & -> & _)|(_ & Hn & _)].
  - by rewrite Hn.
  - unfold is_set in Hn.
    by destruct (storage st' !! NUM_LAMBDA_PROCESSED) as [[v|]|].
Qed.

Lemma count_not_None_after_ops (ops : list (LambdaOp R Raw)) st :
  Forall (λ op, op ≠ op_release_memory) ops →
  not_None NUM_LAMBDA_PROCESSED st →
  not_None NUM_LAMBDA_PROCESSED (after_ops module env ops st).
Proof.
  intros Hops. revert st.
  induction Hops as [|op ops Hop _ IH]; intros st Hst; [done|].
  cbn [after_ops foldl]. apply IH.
  eapply (count_stays_not_None op Hop st); [apply surjective_pairing|done].
Qed.

Lemma update_no_check (p : Tensor (Batch R)) aliases st e st' :
  not_None NUM_LAMBDA_PROCESSED st →
  _update_lambda_matrix module env p aliases st = (Raise e, st') →
  ¬ is_FactorsNotFoundError e.
Proof.
  unfold not_None. intros Hn Hrun.
  destruct (storage st !! NUM_LAMBDA_PROCESSED) as [[v|]|] eqn:Hnum;
    [|done|].
  - eapply update_lambda_no_FactorsNotFoundError; [|exact Hrun].
    unfold is_set. by rewrite Hnum.
  - unfold _update_lambda_matrix in Hrun.
    erewrite bind_Raise in Hrun by (by apply storage_get_None).
    injection Hrun as <- _. exact id.
Qed.

Lemma raises_only_storage_del (P : Exn → Prop) k :
  P (KeyError k) → raises_only (R:=R) (Raw:=Raw) P (storage_del k).
Proof.
  intros Hk st e st' Hrun. unfold storage_del in Hrun.
  destruct (storage st !! k); [done|]. by injection Hrun as <- _.
Qed.

(** X8: the eigenvector check is armed only while the count is None.
    After a call of [_update_lambda_matrix], however it ended (the failed
    first call with the eigenvectors missing included), and after any
    further operations of the Lambda tracker other than [release_memory],
    however each of them ended, no operation raises
    [FactorsNotFoundError]: the count is not None any more, so the branch
    that holds the check is skipped. [release_memory] resets the count to
    None and arms the check again. *)
Theorem factors_not_found_not_raised_until_release
    (p : Tensor (Batch R)) aliases (ops : list (LambdaOp R Raw))
    (op : LambdaOp R Raw) st e st' :
  Forall (λ op, op ≠ op_release_memory) ops →
  run_lambda_op module env op
    (after_ops module env ops
       (_update_lambda_matrix module env p aliases st).2)
  = (Raise e, st') →
  ¬ is_FactorsNotFoundError e.
Proof.
  intros Hops Hrun.
  assert (Hcount : not_None NUM_LAMBDA_PROCESSED
                     (after_ops module env ops
                        (_update_lambda_matrix module env p aliases st).2)).
  { apply count_not_None_after_ops; [done|].
    eapply count_not_None_after_update. apply surjective_pairing. }
  revert Hcount Hrun.
  generalize (after_ops module env ops
                (_update_lambda_matrix module env p aliases st).2).
  intros s Hcount Hrun.
  assert (Hothers : ∀ m : M (R:=R) (Raw:=Raw) unit,
            raises_only (λ e, ¬ is_FactorsNotFoundError e) m →
            m s = (Raise e, st') → ¬ is_FactorsNotFoundError e).
  { intros m Hm Hr. by eapply Hm. }
  destruct op; cbn [run_lambda_op] in Hrun.
  - eapply Hothers; [|exact Hrun].
    unfold void, _eigendecomposition_results_exist. simpl.
    repeat raises_step ltac:(try exact id).
  - by eapply update_no_check.
  - eapply Hothers; [|exact Hrun].
    unfold void, lambda_forward_hook.
    repeat raises_step ltac:(try exact id).
  - rewrite backward_hook_run in Hrun.
    destruct (cached_activations s) as [[a|l]|];
      [|injection Hrun as <- _; exact id..].
    eapply update_no_check; [|exact Hrun]. exact Hcount.
  - eapply Hothers; [|exact Hrun].
    unfold shared_backward_hook, pop_cached_activation.
    repeat raises_step ltac:(try exact id).
  - rewrite finalize_iteration_run in Hrun.
    destruct (cached_per_sample_gradient s) as [g|];
      [|injection Hrun as <- _; exact id].
    destruct (has_shared_parameters (factor_args module)); [|done].
    unfold bind in Hrun.
    destruct (_update_lambda_matrix _ _ _ _ _) as [[[]|e1] s1] eqn:Hup.
    + by rewrite clear_all_cache_spec in Hrun.
    + injection Hrun as <- _.
      eapply update_no_check; [|exact Hup]. exact Hcount.
  - eapply Hothers; [|exact Hrun].
    unfold void, lambda_exist. simpl.
    repeat raises_step ltac:(try exact id).
  - eapply Hothers; [|exact Hrun].
    unfold lambda_synchronize, lambda_exist, reduce_factor. simpl.
    repeat raises_step ltac:(try exact id).
  - eapply Hothers; [|exact Hrun].
    unfold lambda_release_memory, clear_all_cache, release_factor. simpl.
    repeat first [ apply raises_only_storage_del; exact id
                 | raises_step ltac:(try exact id) ].
Qed.
End CheckUntilRelease.

(** * Instances of the further properties *)

Lemma release_memory_missing_key_witness :
  let st := MoreExamples.lambda_count_missing in
  ∃ st', release_memory LambdaTracker st
         = (Raise (KeyError NUM_LAMBDA_PROCESSED), st')
    ∧ storage st'
      = foldl (λ m k, <[k:=None]> m) (storage st) [LAMBDA_MATRIX_NAME]
    ∧ cached_activations st' = None
    ∧ cached_per_sample_gradient st' = None.
Proof.
  intros st.
  apply (release_memory_missing_key LambdaTracker st [LAMBDA_MATRIX_NAME]
           NUM_LAMBDA_PROCESSED []).
  - reflexivity.
  - apply has_keys_check. vm_compute. reflexivity.
  - vm_compute. reflexivity.
Defined.


Lemma synchronize_without_all_factors_witness :
  let env := Examples.env false true true in
  let st := MoreExamples.lambda_count_missing in
  synchronize env LambdaTracker 2 st
  = (Raise (KeyError NUM_LAMBDA_PROCESSED), st).
Proof.
  intros env st.
  rewrite (synchronize_without_all_factors env LambdaTracker 2 st
             NUM_LAMBDA_PROCESSED).
  - vm_compute. reflexivity.
  - vm_compute. reflexivity.
Defined.

Lemma factors_not_found_not_raised_until_release_witness :
  let m := Examples.linear false false float32 in
  let e := Examples.env true false false in
  let p := Examples.psg float32 in
  let ops := [op_forward_hook (mkTensor float32 [[1; 2]; [3; 4]]%Z);
              op_exist] in
  let first := _update_lambda_matrix m e p false Examples.fresh in
  let later := run_lambda_op m e (op_update_lambda_matrix p false)
                 (after_ops m e ops first.2) in
  first.1 = Raise (FactorsNotFoundError
                     (not_found_message (strategy (factor_args m))))
  ∧ later.1 = Raise AttributeError
  ∧ ¬ is_FactorsNotFoundError AttributeError.
Proof.
  intros m e p ops first later.
  split; [vm_compute; reflexivity|]. split; [vm_compute; reflexivity|].
  apply (factors_not_found_not_raised_until_release m e p false ops
           (op_update_lambda_matrix p false) Examples.fresh AttributeError
           later.2).
  - repeat constructor; discriminate.
  - transitivity (later.1, later.2); [apply surjective_pairing|].
    f_equal; vm_compute; reflexivity.
Defined.

(** [release_memory] arms the check again: the first update raises
    [FactorsNotFoundError], and so does the update that follows a
    [release_memory]. *)
Lemma release_memory_arms_the_check_again :
  let m := Examples.linear false false float32 in
  let e := Examples.env true false false in
  let p := Examples.psg float32 in
  let first := _update_lambda_matrix m e p false Examples.fresh in
  let released := run_lambda_op m e op_release_memory first.2 in
  let again := _update_lambda_matrix m e p false released.2 in
  first.1 = Raise (FactorsNotFoundError
                     (not_found_message (strategy (factor_args m))))
  ∧ released.1 = Ok tt
  ∧ again.1 = Raise (FactorsNotFoundError
                       (not_found_message (strategy (factor_args m)))).
Proof.
  intros m e p first released again.
  repeat split; vm_compute; reflexivity.
Qed.

Lemma covariance_tracker_frame_witness :
  let m := Examples.linear false false float32 in
  let e := Examples.env false false false in
  let run := run_covariance_op m e
               (cov_forward_hook (mkTensor float32 [[1; 2]; [3; 4]]%Z))
               Examples.full in
  storage_outside COVARIANCE_FACTOR_NAMES Examples.full run.2
  ∧ caches_kept Examples.full run.2.
Proof.
  intros m e run.
  apply (covariance_tracker_frame m e
           (cov_forward_hook (mkTensor float32 [[1; 2]; [3; 4]]%Z))
           Examples.full run.1 run.2).
  apply surjective_pairing.
Defined.

Lemma lambda_tracker_frame_witness :
  let m := Examples.linear false false float32 in
  let e := Examples.env true false false in
  let run := run_lambda_op m e
               (op_update_lambda_matrix (Examples.psg float32) false)
               Examples.full in
  storage_outside (LAMBDA_FACTOR_NAMES ++ EIGENDECOMPOSITION_FACTOR_NAMES)
    Examples.full run.2.
Proof.
  intros m e run.
  apply (lambda_tracker_frame m e
           (op_update_lambda_matrix (Examples.psg float32) false)
           Examples.full run.1 run.2).
  apply surjective_pairing.
Defined.

Lemma lambda_factors_stay_paired_witness :
  let m := Examples.linear false false float32 in
  let e := Examples.env true false false in
  let run := run_lambda_op m e
               (op_update_lambda_matrix (Examples.psg float32) false)
               Examples.fresh in
  run.1 = Raise (FactorsNotFoundError
                   (not_found_message (strategy (factor_args m))))
  ∧ paired LAMBDA_MATRIX_NAME NUM_LAMBDA_PROCESSED run.2.
Proof.
  intros m e run. split; [vm_compute; reflexivity|].
  apply (lambda_factors_stay_paired m e
           (op_update_lambda_matrix (Examples.psg float32) false)
           Examples.fresh run.1 run.2).
  - vm_compute. reflexivity.
  - apply surjective_pairing.
Defined.

Lemma covariance_factors_stay_paired_witness :
  let m := Examples.linear false false float32 in
  let e := Examples.env false false false in
  let run := run_covariance_op m e
               (cov_forward_hook (mkTensor float32 [[1; 2]; [3; 4]]%Z))
               Examples.fresh in
  has_keys COVARIANCE_FACTOR_NAMES run.2
  ∧ paired ACTIVATION_COVARIANCE_MATRIX_NAME
      NUM_ACTIVATION_COVARIANCE_PROCESSED run.2
  ∧ paired GRADIENT_COVARIANCE_MATRIX_NAME
      NUM_GRADIENT_COVARIANCE_PROCESSED run.2.
Proof.
  intros m e run.
  apply (covariance_factors_stay_paired m e
           (cov_forward_hook (mkTensor float32 [[1; 2]; [3; 4]]%Z))
           Examples.fresh run.1 run.2).
  - apply has_keys_check. vm_compute. reflexivity.
  - vm_compute. reflexivity.
  - vm_compute. reflexivity.
  - apply surjective_pairing.
Defined.

Lemma activation_update_mismatch_witness :
  let m := Examples.linear false false bfloat16 in
  covariance_forward_hook m (mkTensor float32 [[1; 2]]%Z) Examples.full
  = (Raise RuntimeError,
     set_storage
       (<[NUM_ACTIVATION_COVARIANCE_PROCESSED := Some (VCount 2)]>
          (storage Examples.full)) Examples.full).
Proof.
  intros m.
  apply (activation_update_mismatch m (mkTensor float32 [[1; 2]]%Z)
           Examples.full 1%Z
           (mkTensor float32 (mkMatrix 2 [[1; 0]; [0; 1]]%Z))
           (mkTensor bfloat16 (mkMatrix 2 [[1; 2]]%Z)) 1%Z).
  - vm_compute. reflexivity.
  - vm_compute. reflexivity.
  - reflexivity.
  - reflexivity.
  - left. discriminate.
Defined.

Lemma covariance_stays_symmetric_witness :
  symmetric (R:=Z) (mkMatrix 2 [[10; 14]; [14; 20]]%Z).
Proof.
  pose (m := Examples.linear false false float32).
  pose (f := forward_firing (mkTensor float32 [[1; 2]; [3; 4]]%Z)).
  pose (run := fire_covariance m f Examples.fresh).
  destruct (covariance_stays_symmetric m f Examples.fresh run.1 run.2)
    as [Ha _].
  - vm_compute. repeat constructor.
  - intros t Ht. vm_compute in Ht. discriminate.
  - intros t Ht. vm_compute in Ht. discriminate.
  - apply surjective_pairing.
  - apply (Ha (mkTensor float32 (mkMatrix 2 [[10; 14]; [14; 20]]%Z))).
    vm_compute. reflexivity.
Defined.

Lemma update_lambda_without_eigenbasis_witness :
  let m := Examples.linear false false float32 in
  let e := Examples.env false false false in
  let p := Examples.psg float32 in
  ∃ st',
    _update_lambda_matrix m e p false Examples.full = (Ok tt, st')
    ∧ storage st' !! NUM_LAMBDA_PROCESSED = Some (Some (VCount 9))
    ∧ storage st' !! LAMBDA_MATRIX_NAME
      = Some (Some (Examples.mat float32 2 [[4; 9]; [15; 22]]%Z)).
Proof.
  intros m e p.
  destruct (update_lambda_without_eigenbasis m e p false Examples.full 2 2
              7%Z (mkTensor float32 (mkMatrix 2 [[3; 4]; [5; 6]]%Z)))
    as (st' & Hrun & Hnum & Hlam & _).
  - reflexivity.
  - vm_compute. repeat constructor.
  - vm_compute. reflexivity.
  - vm_compute. repeat constructor.
  - vm_compute. reflexivity.
  - vm_compute. reflexivity.
  - exists st'. split; [exact Hrun|].
    split; [rewrite Hnum|rewrite Hlam]; vm_compute; reflexivity.
Defined.

Lemma identity_eigenbasis_agrees_witness :
  let m := Examples.linear false false float32 in
  let e := Examples.env true false false in
  let e' := Examples.env false false false in
  let p := Examples.psg float32 in
  let st := MoreExamples.with_identity_eigenvectors in
  ∃ st1 st2,
    _update_lambda_matrix m e p false st = (Ok tt, st1)
    ∧ _update_lambda_matrix m e' p false st = (Ok tt, st2)
    ∧ storage st1 !! LAMBDA_MATRIX_NAME = storage st2 !! LAMBDA_MATRIX_NAME
    ∧ storage st1 !! NUM_LAMBDA_PROCESSED
      = storage st2 !! NUM_LAMBDA_PROCESSED.
Proof.
  intros m e e' p st.
  apply (identity_eigenbasis_agrees m e e' p false st 2 2
           (mkTensor float32 (mkMatrix 2 [[1; 0]; [0; 1]]%Z))
           (mkTensor float32 (mkMatrix 2 [[1; 0]; [0; 1]]%Z))
           0%Z (zeros 2 2 float32)).
  - reflexivity.
  - reflexivity.
  - vm_compute. repeat constructor.
  - vm_compute. reflexivity.
  - reflexivity.
  - vm_compute. reflexivity.
  - reflexivity.
  - vm_compute. reflexivity.
  - vm_compute. repeat constructor.
  - intros _. split; reflexivity.
  - vm_compute. reflexivity.
  - vm_compute. reflexivity.
Defined.

Lemma lambda_update_ignores_sample_order_witness :
  let m := Examples.linear false true float32 in
  let e := Examples.env true false false in
  let p := Examples.psg float32 in
  ∃ st',
    _update_lambda_matrix m e p false Examples.full = (Ok tt, st')
    ∧ _update_lambda_matrix m e
        (with_samples p MoreExamples.psg_samples_reversed) false
        Examples.full
      = (Ok tt, st').
Proof.
  intros m e p.
  apply (lambda_update_ignores_sample_order m e p
           MoreExamples.psg_samples_reversed false Examples.full 2 2
           (mkTensor float32 (mkMatrix 2 [[0; 1]; [1; 0]]%Z))
           (mkTensor float32 (mkMatrix 2 [[1; 0]; [0; 1]]%Z))
           7%Z
           (mkTensor float32 (mkMatrix 2 [[3; 4]; [5; 6]]%Z))).
  - reflexivity.
  - apply perm_swap.
  - vm_compute. repeat constructor.
  - vm_compute. reflexivity.
  - vm_compute. repeat constructor.
  - vm_compute. reflexivity.
  - vm_compute. repeat constructor.
  - vm_compute. reflexivity.
  - vm_compute. repeat constructor.
  - intros _. split; reflexivity.
  - vm_compute. reflexivity.
  - vm_compute. reflexivity.
Defined.

Lemma lambda_updates_compose_witness :
  let m := Examples.linear false false float32 in
  let e := Examples.env true false false in
  let p := Examples.psg float32 in
  ∃ st1 st2,
    _update_lambda_matrix m e p false Examples.full = (Ok tt, st1)
    ∧ _update_lambda_matrix m e p false st1 = (Ok tt, st2)
    ∧ _update_lambda_matrix m e (cat p p) false Examples.full
      = (Ok tt, st2).
Proof.
  intros m e p.
  apply (lambda_updates_compose m e p p false Examples.full 2 2
           (mkTensor float32 (mkMatrix 2 [[0; 1]; [1; 0]]%Z))
           (mkTensor float32 (mkMatrix 2 [[1; 0]; [0; 1]]%Z))
           7%Z
           (mkTensor float32 (mkMatrix 2 [[3; 4]; [5; 6]]%Z))).
  - reflexivity.
  - vm_compute. repeat constructor.
  - vm_compute. repeat constructor.
  - reflexivity.
  - vm_compute. reflexivity.
  - vm_compute. repeat constructor.
  - vm_compute. reflexivity.
  - vm_compute. repeat constructor.
  - vm_compute. reflexivity.
  - vm_compute. repeat constructor.
  - intros _. split; reflexivity.
  - lia.
  - vm_compute. reflexivity.
Defined.

Lemma non_shared_pass_is_one_update_witness :
  let m := Examples.linear false false float32 in
  let e := Examples.env false false false in
  let a := mkTensor float32 [[1; 2]; [3; 4]]%Z in
  let g := mkTensor float32 [[1; 0]; [0; 1]]%Z in
  bind (lambda_forward_hook m a) (λ h, fire m e h g) Examples.full
  = _update_lambda_matrix m e
      (to_dtype (lambda_dtype (factor_args m)) (paired_gradient m a g))
      false
      (mkTracker (storage Examples.full) None None
         (collective_log Examples.full)).
Proof.
  intros m e a g.
  apply (non_shared_pass_is_one_update m e eq_refl a g Examples.full).
Defined.

Lemma finalize_fails_after_non_shared_pass_witness :
  let m := Examples.linear false false float32 in
  let e := Examples.env false false false in
  let a := mkTensor float32 [[1; 2]; [3; 4]]%Z in
  let g := mkTensor float32 [[1; 0]; [0; 1]]%Z in
  let run := bind (lambda_forward_hook m a) (λ h, fire m e h g)
               Examples.full in
  run.1 = Ok tt
  ∧ finalize_iteration m e run.2 = (Raise AttributeError, run.2).
Proof.
  intros m e a g run. split; [vm_compute; reflexivity|].
  apply (finalize_fails_after_non_shared_pass m e eq_refl a g
           Examples.full run.1 run.2).
  apply surjective_pairing.
Defined.
